(** * manage_articles: publishing and unpublishing MkDocs articles

    A shallow embedding of [manage_articles.py] and the verification of
    its specification.  The script moves Markdown files between [docs/]
    and [drafts/], and regenerates the [nav:] block of [mkdocs.yml].

    Layout of the development:
    - Python strings and the few [str] methods the script calls;
    - UTF-8 decoding and encoding, as [read_text] and [write_text] do;
    - exceptions and a state-and-exception monad;
    - a file system as a tree of directories and files, with the
      [pathlib], [os] and [shutil] calls of the script;
    - the host, the terminal, and the script's functions under their own
      names;
    - the vocabulary of the specification: the splice by lines, the
      fallback title, paths apart;
    - concrete hosts and file systems used in examples;
    - lemmas, and the theorems about the claims of the specification. *)

From Stdlib Require Import ZArith NArith Strings.Byte Ascii String List Lia.
From stdpp Require Import base list sorting gmap strings.

Set Warnings "-register-all".
Open Scope N_scope.

(** ** Python strings *)

(** A Python [str] is a sequence of code points.  File contents are
    [bytes]. *)
Abbreviation char := N (only parsing).
Abbreviation str := (list N) (only parsing).
Abbreviation bytes := (list byte) (only parsing).

(** String literals of the source text. *)
Definition u (s : string) : str := map N_of_ascii (list_ascii_of_string s).

Module Chr.
Definition LF : char := 10.
Definition CR : char := 13.
Definition SP : char := 32.
Definition comma : char := 44.
Definition minus : char := 45.
Definition plus : char := 43.
Definition dot : char := 46.
Definition underscore : char := 95.
Definition zero : char := 48.
End Chr.

(** [str.isspace] on one code point; also the class [\s] of [re] for
    [str] patterns, and what [str.strip], [str.split] and [int] skip. *)
Definition isspace (c : char) : bool :=
  ((9 <=? c) && (c <=? 13)) || ((28 <=? c) && (c <=? 32))
  || (c =? 133) || (c =? 160) || (c =? 5760)
  || ((8192 <=? c) && (c <=? 8202))
  || (c =? 8232) || (c =? 8233) || (c =? 8239) || (c =? 8287) || (c =? 12288).

(** Line boundaries of [str.splitlines], [\r\n] apart. *)
Definition is_linebreak (c : char) : bool :=
  ((10 <=? c) && (c <=? 13)) || ((28 <=? c) && (c <=? 30))
  || (c =? 133) || (c =? 8232) || (c =? 8233).

Fixpoint lstrip (s : str) : str :=
  match s with
  | c :: s' => if isspace c then lstrip s' else s
  | [] => []
  end.

Definition rstrip (s : str) : str := rev (lstrip (rev s)).

(** [s.strip()] *)
Definition strip (s : str) : str := lstrip (rstrip s).

(** [s.startswith(pre)] *)
Fixpoint startswith (pre s : str) : bool :=
  match pre, s with
  | [], _ => true
  | a :: pre', b :: s' => (a =? b) && startswith pre' s'
  | _ :: _, [] => false
  end.

(** [s.endswith(suf)] *)
Definition endswith (suf s : str) : bool := startswith (rev suf) (rev s).

(** [sep.join(parts)] *)
Fixpoint join (sep : str) (parts : list str) : str :=
  match parts with
  | [] => []
  | [p] => p
  | p :: ps => p ++ sep ++ join sep ps
  end.

(** [s.splitlines()]: [cur] holds the current line, reversed.  A final
    line break does not open an empty last line. *)
Fixpoint splitlines_from (cur : str) (s : str) : list str :=
  match s with
  | [] => match cur with [] => [] | _ => [rev cur] end
  | c :: s' =>
      if c =? Chr.CR then
        match s' with
        | d :: s'' =>
            if d =? Chr.LF then rev cur :: splitlines_from [] s''
            else rev cur :: splitlines_from [] s'
        | [] => [rev cur]
        end
      else if is_linebreak c then rev cur :: splitlines_from [] s'
      else splitlines_from (c :: cur) s'
  end.

Definition splitlines (s : str) : list str := splitlines_from [] s.

(** [s.replace(a, b)] for one-character [a] and [b]. *)
Definition replace_char (a b : char) (s : str) : str :=
  map (fun c => if c =? a then b else c) s.

(** Splitting on runs of separator characters, as [re.split] does with
    a pattern [[...]+]: a run at the start or at the end of [s] leaves an
    empty string there.  [cur] is the current field, reversed; [in_sep]
    tells that the previous character was a separator. *)
Fixpoint split_runs_from (sep : char -> bool) (cur : str) (in_sep : bool)
    (s : str) : list str :=
  match s with
  | [] => [rev cur]
  | c :: s' =>
      if sep c then
        if in_sep then split_runs_from sep [] true s'
        else rev cur :: split_runs_from sep [] true s'
      else split_runs_from sep (c :: cur) false s'
  end.

Definition split_runs (sep : char -> bool) (s : str) : list str :=
  split_runs_from sep [] false s.

(** [s.split()] without argument: the maximal runs of non-space
    characters. *)
Definition split_ws (s : str) : list str :=
  List.filter (fun w => negb (Nat.eqb (length w) 0)) (split_runs isspace s).

(** [s.split(c, 1)] when [c] occurs in [s]: the text before the first
    [c] and the text after it. *)
Fixpoint split_once_from (c : char) (cur : str) (s : str) : option (str * str) :=
  match s with
  | [] => None
  | d :: s' => if d =? c then Some (rev cur, s') else split_once_from c (d :: cur) s'
  end.

Definition split_once (c : char) (s : str) : option (str * str) :=
  split_once_from c [] s.

(** ASCII case maps; the hosts below use them. *)
Definition ascii_lower_char (c : char) : char :=
  if (65 <=? c) && (c <=? 90) then c + 32 else c.
Definition ascii_upper_char (c : char) : char :=
  if (97 <=? c) && (c <=? 122) then c - 32 else c.
Definition ascii_lower (s : str) : str := map ascii_lower_char s.
Definition ascii_upper (s : str) : str := map ascii_upper_char s.

(** Decimal rendering of a natural number, as [str(n)] and [{n}] do. *)
Fixpoint dec_digits (fuel : nat) (n : N) (acc : str) : str :=
  match fuel with
  | O => acc
  | S fuel' =>
      let acc' := (Chr.zero + n mod 10) :: acc in
      if n <? 10 then acc' else dec_digits fuel' (n / 10) acc'
  end.

Definition str_of_N (n : N) : str := dec_digits (S (N.to_nat (N.log2 n))) n [].

(** [f"{s:>2}"]: right-aligned in a field of width 2. *)
Definition rjust2 (s : str) : str :=
  repeat Chr.SP (2 - length s)%nat ++ s.

(** Lexicographic order on strings, by code point: Python's [<] on
    [str]. *)
Fixpoint str_ltb (a b : str) : bool :=
  match a, b with
  | _, [] => false
  | [], _ :: _ => true
  | x :: a', y :: b' => (x <? y) || ((x =? y) && str_ltb a' b')
  end.

(** [sorted(l, key=key)]: a stable sort by insertion.  The elements are
    inserted from the last one to the first one, each before the first
    element whose key is not smaller, so that equal keys keep their
    order. *)
Fixpoint insert_by {A} (key : A -> str) (x : A) (l : list A) : list A :=
  match l with
  | [] => [x]
  | y :: l' =>
      if str_ltb (key y) (key x) then y :: insert_by key x l' else x :: l
  end.

Definition sorted_by {A} (key : A -> str) (l : list A) : list A :=
  fold_right (insert_by key) [] l.

(** ** UTF-8, as [read_text(encoding="utf-8")] and [write_text] use it *)

Definition in_range (lo hi b : N) : bool := (lo <=? b) && (b <=? hi).
Definition is_cont (b : N) : bool := in_range 128 191 b.

(** The strict decoder: overlong forms, surrogates and code points above
    U+10FFFF are rejected.  [None] stands for [UnicodeDecodeError]. *)
Fixpoint decode_utf8_N (bs : list N) : option str :=
  match bs with
  | [] => Some []
  | b0 :: r0 =>
      if b0 <? 128 then cons b0 <$> decode_utf8_N r0
      else if in_range 194 223 b0 then
        match r0 with
        | b1 :: r1 =>
            if is_cont b1
            then cons ((b0 - 192) * 64 + (b1 - 128)) <$> decode_utf8_N r1
            else None
        | _ => None
        end
      else if in_range 224 239 b0 then
        match r0 with
        | b1 :: b2 :: r2 =>
            let lo := if b0 =? 224 then 160 else 128 in
            let hi := if b0 =? 237 then 159 else 191 in
            if in_range lo hi b1 && is_cont b2
            then cons ((b0 - 224) * 4096 + (b1 - 128) * 64 + (b2 - 128))
                   <$> decode_utf8_N r2
            else None
        | _ => None
        end
      else if in_range 240 244 b0 then
        match r0 with
        | b1 :: b2 :: b3 :: r3 =>
            let lo := if b0 =? 240 then 144 else 128 in
            let hi := if b0 =? 244 then 143 else 191 in
            if in_range lo hi b1 && is_cont b2 && is_cont b3
            then cons ((b0 - 240) * 262144 + (b1 - 128) * 4096
                       + (b2 - 128) * 64 + (b3 - 128))
                   <$> decode_utf8_N r3
            else None
        | _ => None
        end
      else None
  end.

Definition decode_utf8 (bs : bytes) : option str :=
  decode_utf8_N (map Byte.to_N bs).

Definition byte_of_N (n : N) : byte :=
  match Byte.of_N n with Some b => b | None => x00 end.

(** One code point to its bytes; [None] stands for [UnicodeEncodeError]
    (a lone surrogate, which [str] can hold). *)
Definition encode_char (c : char) : option (list N) :=
  if c <? 128 then Some [c]
  else if c <? 2048 then Some [192 + c / 64; 128 + c mod 64]
  else if in_range 55296 57343 c then None
  else if c <? 65536 then
    Some [224 + c / 4096; 128 + (c / 64) mod 64; 128 + c mod 64]
  else if c <? 1114112 then
    Some [240 + c / 262144; 128 + (c / 4096) mod 64;
          128 + (c / 64) mod 64; 128 + c mod 64]
  else None.

Fixpoint encode_utf8 (s : str) : option bytes :=
  match s with
  | [] => Some []
  | c :: s' =>
      match encode_char c, encode_utf8 s' with
      | Some bs, Some r => Some (map byte_of_N bs ++ r)
      | _, _ => None
      end
  end.

(** Text mode with [newline=None]: on reading, [\r\n] and a lone [\r]
    become [\n]. *)
Fixpoint universal_newlines (s : str) : str :=
  match s with
  | [] => []
  | c :: s' =>
      if c =? Chr.CR then
        match s' with
        | d :: s'' =>
            if d =? Chr.LF then Chr.LF :: universal_newlines s''
            else Chr.LF :: universal_newlines s'
        | [] => [Chr.LF]
        end
      else c :: universal_newlines s'
  end.

(** On writing, [\n] becomes the host's line separator. *)
Definition write_newlines (linesep : str) (s : str) : str :=
  flat_map (fun c => if c =? Chr.LF then linesep else [c]) s.

(** ** Exceptions *)

Inductive exn : Type :=
  | FileExistsError
  | FileNotFoundError
  | IsADirectoryError
  | NotADirectoryError
  | OSError                      (* another errno, or [shutil.Error] *)
  | UnicodeDecodeError
  | UnicodeEncodeError
  | ValueError (msg : str)
  | EOFError
  | IndexError
  | SystemExit (code : Z).

(** [except OSError] *)
Definition is_OSError (e : exn) : bool :=
  match e with
  | FileExistsError | FileNotFoundError | IsADirectoryError
  | NotADirectoryError | OSError => true
  | _ => false
  end.

(** [except ValueError as e]: gives [str(e)] when the clause applies.
    The [UnicodeError]s are [ValueError]s. *)
Definition as_ValueError (e : exn) : option str :=
  match e with
  | ValueError msg => Some msg
  | UnicodeDecodeError => Some (u "'utf-8' codec can't decode bytes")
  | UnicodeEncodeError => Some (u "'utf-8' codec can't encode characters")
  | _ => None
  end.

(** ** A state-and-exception monad

    A computation runs on a state and ends with a value or with a raised
    exception; either way the state it reached is kept, since what was
    written before a [raise] stays written. *)

Inductive outcome (A : Type) : Type :=
  | Ret (a : A)
  | Raise (e : exn).
Arguments Ret {A} a.
Arguments Raise {A} e.

Definition M (S A : Type) : Type := S -> outcome A * S.

Definition ret {S A} (a : A) : M S A := fun s => (Ret a, s).
Definition raise {S A} (e : exn) : M S A := fun s => (Raise e, s).
Definition bind {S A B} (m : M S A) (k : A -> M S B) : M S B :=
  fun s =>
    match m s with
    | (Ret a, s') => k a s'
    | (Raise e, s') => (Raise e, s')
    end.
Definition gets {S A} (f : S -> A) : M S A := fun s => (Ret (f s), s).
Definition modify {S} (f : S -> S) : M S unit := fun s => (Ret tt, f s).

(** [try: m  except ...: h e]; the handler [h] answers [None] when no
    clause matches, and the exception goes on. *)
Definition try_except {S A} (m : M S A) (h : exn -> option (M S A)) : M S A :=
  fun s =>
    match m s with
    | (Ret a, s') => (Ret a, s')
    | (Raise e, s') =>
        match h e with
        | Some k => k s'
        | None => (Raise e, s')
        end
    end.

Declare Scope monad_scope.
Delimit Scope monad_scope with monad.
Notation "'let*' x := c 'in' k" := (bind c (fun x => k))
  (at level 10, x pattern, c at level 100, k at level 200) : monad_scope.
Notation "c ;; k" := (bind c (fun _ => k))
  (at level 100, k at level 200, right associativity) : monad_scope.
Open Scope monad_scope.

(** [for x in l: body x] *)
Fixpoint for_each {S A} (l : list A) (body : A -> M S unit) : M S unit :=
  match l with
  | [] => ret tt
  | x :: l' => body x ;; for_each l' body
  end.

(** A loop that collects one value per element. *)
Fixpoint map_M {S A B} (f : A -> M S B) (l : list A) : M S (list B) :=
  match l with
  | [] => ret []
  | x :: l' => let* y := f x in let* ys := map_M f l' in ret (y :: ys)
  end.

(** *** What a computation keeps

    [keeps R m]: whenever [m] runs from [s] to [s'], by a return or by a
    raise, [R s s'] holds.  With [R := eq] the computation only reads
    the state. *)

Definition keeps {S A} (R : relation S) (m : M S A) : Prop :=
  forall s r s', m s = (r, s') -> R s s'.

(** [returns Q m]: every value that [m] returns satisfies [Q]. *)
Definition returns {S A} (Q : A -> Prop) (m : M S A) : Prop :=
  forall s a s', m s = (Ret a, s') -> Q a.


(** ** The file system

    A tree: a directory lists its entries by name, a regular file holds
    bytes.  The order of a directory's entries is the order in which the
    operating system lists them.  Symbolic links, permissions and
    devices are not part of the model. *)

Abbreviation path := (list (list N)) (only parsing).

Inductive node : Type :=
  | File (data : bytes)
  | Dir (entries : list (list N * node)).

(** The whole file system is its root node. *)
Abbreviation fs := node (only parsing).

(** The first entry with the name [x]. *)
Fixpoint assoc (x : str) (es : list (str * node)) : option node :=
  match es with
  | [] => None
  | (y, n) :: es' => if decide (x = y) then Some n else assoc x es'
  end.

(** Binds [x] to [n]: in place of the first entry named [x], or at the
    end. *)
Fixpoint set_entry (x : str) (n : node) (es : list (str * node))
    : list (str * node) :=
  match es with
  | [] => [(x, n)]
  | (y, m) :: es' =>
      if decide (x = y) then (x, n) :: es' else (y, m) :: set_entry x n es'
  end.

(** Removes the entries named [x]. *)
Fixpoint del_entry (x : str) (es : list (str * node)) : list (str * node) :=
  match es with
  | [] => []
  | (y, m) :: es' =>
      if decide (x = y) then del_entry x es' else (y, m) :: del_entry x es'
  end.

(** Path resolution from the node [n], with the error the operating
    system gives: [ENOENT] for a missing name, [ENOTDIR] for a file met
    on the way. *)
Fixpoint resolve (p : path) (n : node) : exn + node :=
  match p with
  | [] => inr n
  | x :: p' =>
      match n with
      | File _ => inl NotADirectoryError
      | Dir es =>
          match assoc x es with
          | None => inl FileNotFoundError
          | Some c => resolve p' c
          end
      end
  end.

Definition lookup (p : path) (t : fs) : option node :=
  match resolve p t with inr n => Some n | inl _ => None end.

(** [p.exists()], [p.is_dir()], [p.is_file()] *)
Definition path_exists (t : fs) (p : path) : bool :=
  match lookup p t with Some _ => true | None => false end.
Definition is_dir (t : fs) (p : path) : bool :=
  match lookup p t with Some (Dir _) => true | _ => false end.
Definition is_file (t : fs) (p : path) : bool :=
  match lookup p t with Some (File _) => true | _ => false end.

(** [p.parent] and [p.name]; the root is its own parent. *)
Definition parent (p : path) : path := removelast p.
Definition name (p : path) : str := List.last p [].

(** A chain of new, empty directories [x/y/.../z] as one node. *)
Fixpoint fresh_dirs (p : path) : node :=
  match p with
  | [] => Dir []
  | x :: p' => Dir [(x, fresh_dirs p')]
  end.

(** [p.mkdir(parents=True, exist_ok=True)] below the node [n]. *)
Fixpoint mkdir_p (p : path) (n : node) : exn + node :=
  match p with
  | [] => match n with Dir _ => inr n | File _ => inl FileExistsError end
  | x :: p' =>
      match n with
      | File _ => inl NotADirectoryError
      | Dir es =>
          match assoc x es with
          | None => inr (Dir (set_entry x (fresh_dirs p') es))
          | Some c =>
              match mkdir_p p' c with
              | inl e => inl e
              | inr c' => inr (Dir (set_entry x c' es))
              end
          end
      end
  end.

(** [os.mkdir(p)] below the node [n]. *)
Fixpoint os_mkdir (p : path) (n : node) : exn + node :=
  match p with
  | [] => inl FileExistsError
  | x :: p' =>
      match n with
      | File _ => inl NotADirectoryError
      | Dir es =>
          match assoc x es with
          | None =>
              match p' with
              | [] => inr (Dir (set_entry x (Dir []) es))
              | _ => inl FileNotFoundError
              end
          | Some c =>
              match os_mkdir p' c with
              | inl e => inl e
              | inr c' => inr (Dir (set_entry x c' es))
              end
          end
      end
  end.

(** The tree without what is at [p]; the root cannot be removed. *)
Fixpoint remove_at (p : path) (n : node) : node :=
  match p with
  | [] => n
  | x :: p' =>
      match n with
      | File _ => n
      | Dir es =>
          match p' with
          | [] => Dir (del_entry x es)
          | _ =>
              match assoc x es with
              | None => n
              | Some c => Dir (set_entry x (remove_at p' c) es)
              end
          end
      end
  end.

(** The tree with [new] at [p], whose parent must be a directory. *)
Fixpoint put_at (p : path) (new : node) (n : node) : option node :=
  match p with
  | [] => None
  | x :: p' =>
      match n with
      | File _ => None
      | Dir es =>
          match p' with
          | [] => Some (Dir (set_entry x new es))
          | _ =>
              match assoc x es with
              | None => None
              | Some c =>
                  match put_at p' new c with
                  | None => None
                  | Some c' => Some (Dir (set_entry x c' es))
                  end
              end
          end
      end
  end.

(** The directories at and below a node, parents first, each with its
    path from the node and its entries: the order in which a recursive
    glob visits them. *)
Fixpoint directories (n : node) : list (path * list (list N * node)) :=
  match n with
  | File _ => []
  | Dir es =>
      ([], es)
      :: (fix go (l : list (list N * node)) : list (path * list (list N * node)) :=
            match l with
            | [] => []
            | (x, c) :: l' =>
                map (fun de => (x :: fst de, snd de)) (directories c) ++ go l'
            end) es
  end.

(** *** The calls the script makes, as computations on the file system *)

Definition lift_result (r : exn + fs) : M fs unit :=
  fun t => match r with inr t' => (Ret tt, t') | inl e => (Raise e, t) end.

(** [p.mkdir(parents=True, exist_ok=True)] *)
Definition Path_mkdir_parents (p : path) : M fs unit :=
  fun t => lift_result (mkdir_p p t) t.

(** [p.mkdir(exist_ok=True)]: [os.mkdir], whose [OSError] is swallowed
    when [p] is a directory. *)
Definition Path_mkdir_exist_ok (p : path) : M fs unit :=
  try_except (fun t => lift_result (os_mkdir p t) t)
    (fun e =>
       if is_OSError e && negb (match e with FileNotFoundError => true | _ => false end)
       then Some (let* d := gets (fun t => is_dir t p) in
                  if d then ret tt else raise e)
       else None).

(** [p.unlink()] *)
Definition Path_unlink (p : path) : M fs unit :=
  fun t =>
    match resolve p t with
    | inl e => (Raise e, t)
    | inr (Dir _) => (Raise IsADirectoryError, t)
    | inr (File _) => (Ret tt, remove_at p t)
    end.

(** [p.read_bytes()] *)
Definition read_bytes (p : path) : M fs bytes :=
  fun t =>
    match resolve p t with
    | inl e => (Raise e, t)
    | inr (Dir _) => (Raise IsADirectoryError, t)
    | inr (File data) => (Ret data, t)
    end.

(** [open(p, "w")]: creates or truncates the file. *)
Definition open_w (p : path) : M fs unit :=
  fun t =>
    match resolve p t with
    | inr (Dir _) => (Raise IsADirectoryError, t)
    | _ =>
        match resolve (parent p) t with
        | inl e => (Raise e, t)
        | inr (File _) => (Raise NotADirectoryError, t)
        | inr (Dir _) =>
            match put_at p (File []) t with
            | Some t' => (Ret tt, t')
            | None => (Raise IsADirectoryError, t)
            end
        end
    end.

(** Writing [data] to the file opened at [p]. *)
Definition write_bytes (p : path) (data : bytes) : M fs unit :=
  fun t =>
    match put_at p (File data) t with
    | Some t' => (Ret tt, t')
    | None => (Raise FileNotFoundError, t)
    end.

(** [os.rename(src, dst)]: the node at [src] goes to [dst], replacing a
    file or an empty directory there. *)
Definition os_rename (src dst : path) : M fs unit :=
  fun t =>
    match resolve src t with
    | inl e => (Raise e, t)
    | inr n =>
        if decide (src = dst) then (Ret tt, t) else
        match resolve (parent dst) t with
        | inl e => (Raise e, t)
        | inr (File _) => (Raise NotADirectoryError, t)
        | inr (Dir _) =>
            match n, lookup dst t with
            | File _, Some (Dir _) => (Raise IsADirectoryError, t)
            | Dir _, Some (File _) => (Raise NotADirectoryError, t)
            | Dir _, Some (Dir (_ :: _)) => (Raise OSError, t)
            | _, _ =>
                if decide (src `prefix_of` dst) then (Raise OSError, t) else
                match put_at dst n (remove_at src t) with
                | Some t' => (Ret tt, t')
                | None => (Raise OSError, t)
                end
            end
        end
    end.

(** [shutil.move(src, dst)] on one device: into [dst] when [dst] is a
    directory, onto [dst] otherwise.  Where [os.rename] fails, the copy
    that [shutil.move] then tries fails as well. *)
Definition shutil_move (src dst : path) : M fs unit :=
  let* d := gets (fun t => is_dir t dst) in
  if d then
    if decide (src = dst) then os_rename src dst else
    let real_dst := dst ++ [name src] in
    let* e := gets (fun t => path_exists t real_dst) in
    if e then raise OSError else os_rename src real_dst
  else os_rename src dst.

(** ** The host

    What the interpreter and the operating system fix for a run:
    [pathlib] matches glob patterns and compares paths with or without
    case (with case on POSIX, without on Windows), the path and line
    separators, the Unicode case maps of [str.lower] and [str.upper],
    the directory of the script, and the stream that takes the prompt
    of [input]: the error stream when standard input and output are a
    terminal and [readline] is not loaded, standard output otherwise. *)

Class Host : Type := {
  case_sensitive : bool;
  os_sep : N;
  os_linesep : list N;
  str_lower : list N -> list N;
  str_upper : list N -> list N;
  REPO_ROOT : list (list N);
  prompt_on_stderr : bool;
}.

(** The terminal, next to the file system: the lines still to be read
    from standard input, and what was written to the two output
    streams, oldest first. *)
Record world : Type := World {
  w_fs : fs;
  w_stdin : list (list N);
  w_stdout : list (list N);
  w_stderr : list (list N);
}.

(** A computation on the file system, run in the world. *)
Definition lift_fs {A} (m : M fs A) : M world A :=
  fun w =>
    let '(r, t) := m (w_fs w) in
    (r, World t (w_stdin w) (w_stdout w) (w_stderr w)).

(** A relation on file systems, read on worlds. *)
Definition on_fs (R : relation node) : relation world :=
  fun w w' => R (w_fs w) (w_fs w').

(** [print(s)] and [print(s, file=sys.stderr)] *)
Definition print (s : str) : M world unit :=
  modify (fun w =>
    World (w_fs w) (w_stdin w) (w_stdout w ++ [s ++ [Chr.LF]]) (w_stderr w)).
Definition print_err (s : str) : M world unit :=
  modify (fun w =>
    World (w_fs w) (w_stdin w) (w_stdout w) (w_stderr w ++ [s ++ [Chr.LF]])).

(** [input(prompt)]: the prompt is written, to the stream that the
    host fixes, and the next line is read. *)
Definition input `{Host} (prompt : str) : M world str :=
  fun w =>
    let w' :=
      if prompt_on_stderr
      then World (w_fs w) (w_stdin w) (w_stdout w) (w_stderr w ++ [prompt])
      else World (w_fs w) (w_stdin w) (w_stdout w ++ [prompt]) (w_stderr w) in
    match w_stdin w with
    | [] => (Raise EOFError, w')
    | line :: rest =>
        (Ret line, World (w_fs w) rest (w_stdout w') (w_stderr w'))
    end.

(** [int(s)]: spaces around, a sign, then decimal digits, with single
    underscores between digits.  Decimal digits beyond ASCII are not
    covered. *)
Definition digit_val (c : char) : option Z :=
  if in_range 48 57 c then Some (Z.of_N (c - 48)) else None.

Fixpoint int_digits (acc : Z) (after_digit : bool) (s : str) : option Z :=
  match s with
  | [] => if after_digit then Some acc else None
  | c :: s' =>
      if c =? Chr.underscore then
        if after_digit then int_digits acc false s' else None
      else
        match digit_val c with
        | Some d => int_digits (acc * 10 + d)%Z true s'
        | None => None
        end
  end.

Definition py_int (s : str) : option Z :=
  match strip s with
  | [] => None
  | c :: s' =>
      if c =? Chr.minus then Z.opp <$> int_digits 0 false s'
      else if c =? Chr.plus then int_digits 0 false s'
      else int_digits 0 false (c :: s')
  end.

Definition int {S} (s : str) : M S Z :=
  match py_int s with
  | Some z => ret z
  | None =>
      raise (ValueError
               (u "invalid literal for int() with base 10: '" ++ s ++ u "'"))
  end.

(** [range(start, stop)] *)
Definition range (start stop : Z) : list Z :=
  map (fun k => (start + Z.of_nat k)%Z) (seq 0 (Z.to_nat (stop - start))).

(** [l[i]], with Python's negative indices. *)
Definition index {S A} (l : list A) (i : Z) : M S A :=
  let j := if (i <? 0)%Z then (Z.of_nat (length l) + i)%Z else i in
  if (j <? 0)%Z then raise IndexError else
  match l !! Z.to_nat j with
  | Some x => ret x
  | None => raise IndexError
  end.

(** [enumerate(l, start=k)] *)
Fixpoint enumerate {A} (k : N) (l : list A) : list (N * A) :=
  match l with
  | [] => []
  | x :: l' => (k, x) :: enumerate (k + 1) l'
  end.

(** [Path.suffix] and [Path.stem] of a file name: cut at the last dot,
    unless it is the first or the last character. *)
Fixpoint find_char (c : char) (s : str) : option nat :=
  match s with
  | [] => None
  | d :: s' => if d =? c then Some O else S <$> find_char c s'
  end.

Definition rfind (c : char) (s : str) : option nat :=
  (fun j => (length s - 1 - j)%nat) <$> find_char c (rev s).

Definition cut_point (nm : str) : option nat :=
  match rfind Chr.dot nm with
  | Some i =>
      if (Nat.ltb 0 i && Nat.ltb i (length nm - 1))%nat then Some i else None
  | None => None
  end.

Definition suffix (nm : str) : str :=
  match cut_point nm with Some i => drop i nm | None => [] end.
Definition stem (nm : str) : str :=
  match cut_point nm with Some i => take i nm | None => nm end.

(** [p.relative_to(base)] for [p] below [base], and [p.as_posix()] of a
    relative path. *)
Definition relative_to (base p : path) : path := drop (length base) p.
Definition as_posix (p : path) : str := join (u "/") p.

(** ** The script *)

Section Script.
Context `{Host}.

(** [str(p)] of an absolute path. *)
Definition str_of_path (p : path) : str := os_sep :: join [os_sep] p.

(** Equality of paths, as [pathlib] decides it on the host. *)
Definition path_eqb (a b : path) : bool :=
if case_sensitive then bool_decide (a = b)
else bool_decide (map str_lower a = map str_lower b).

Definition DOCS_DIR : path := REPO_ROOT ++ [u "docs"].
Definition DRAFTS_DIR : path := REPO_ROOT ++ [u "drafts"].
Definition MKDOCS_YML : path := REPO_ROOT ++ [u "mkdocs.yml"].

Record Article : Type := mkArticle { root : path; relpath : path }.

Definition abspath (a : Article) : path := root a ++ relpath a.

Definition is_markdown (a : Article) : bool :=
bool_decide (str_lower (suffix (name (relpath a))) = u ".md").

(** The glob pattern [*.md] on a file name. *)
Definition fnmatch_md (nm : str) : bool :=
endswith (u ".md") (if case_sensitive then nm else str_lower nm).

(** [root.rglob("*.md")]: in every directory at or below [root], the
    entries whose name matches, directories included. *)
Definition rglob_md (t : fs) (root : path) : list path :=
  match lookup root t with
  | Some n =>
      flat_map
        (fun de =>
           map (fun e => root ++ fst de ++ [fst e])
             (List.filter (fun e => fnmatch_md (fst e)) (snd de)))
        (directories n)
  | None => []
  end.

Definition _iter_md_files (t : fs) (root : path) : list path :=
if negb (path_exists t root) then [] else
let paths := List.filter (fun path => is_file t path) (rglob_md t root) in
sorted_by (fun p => str_lower (str_of_path p)) paths.

(** The directory [dir] holds an article: below it, at any depth, a
  regular file whose name matches [*.md] on the host. *)
Definition contains_article (t : fs) (dir : path) : Prop :=
exists q : path,
  q <> [] /\ is_file t (dir ++ q) = true /\ fnmatch_md (name q) = true.

Definition reserved : list path := [[u "index.md"]; [u "about.md"]].

Definition _articles_in_docs (t : fs) : list Article :=
if negb (path_exists t DOCS_DIR) then [] else
flat_map
  (fun md =>
     let rel := relative_to DOCS_DIR md in
     if existsb (path_eqb rel) reserved then []
     else [mkArticle DOCS_DIR rel])
  (_iter_md_files t DOCS_DIR).

Definition _articles_in_drafts (t : fs) : list Article :=
if negb (path_exists t DRAFTS_DIR) then [] else
map (fun p => mkArticle DRAFTS_DIR (relative_to DRAFTS_DIR p))
  (_iter_md_files t DRAFTS_DIR).

(** [p.read_text(encoding="utf-8")] *)
Definition read_text (p : path) : M fs str :=
let* data := read_bytes p in
match decode_utf8 data with
| Some s => ret (universal_newlines s)
| None => raise UnicodeDecodeError
end.

(** [p.write_text(data, encoding="utf-8")]: the file is opened, and so
  emptied, before the text is encoded. *)
Definition write_text (p : path) (data : str) : M fs unit :=
open_w p ;;
match encode_utf8 (write_newlines os_linesep data) with
| Some bs => write_bytes p bs
| None => raise UnicodeEncodeError
end.

(** The loop of [_read_title]: the heading of the first line that,
  stripped, starts with [# ]. *)
Fixpoint first_heading (lines : list str) : option str :=
match lines with
| [] => None
| line :: rest =>
    let line := strip line in
    if startswith (u "# ") line then Some (strip (drop 2 line))
    else first_heading rest
end.

Definition _read_title (md_path : path) : M fs str :=
let* found :=
  try_except
    (let* text := read_text md_path in
     ret (first_heading (splitlines text)))
    (fun e => if is_OSError e then Some (ret None) else None) in
match found with
| Some title => ret title
| None =>
    let name :=
      strip (replace_char Chr.minus Chr.SP
               (replace_char Chr.underscore Chr.SP (stem (name md_path)))) in
    ret (join (u " ")
           (map (fun w => str_upper (take 1 w) ++ drop 1 w)
              (List.filter (fun w => negb (Nat.eqb (length w) 0))
                 (split_ws name))))
end.

(** One token of a selection: [a-b] adds the range, swapped when
  [a > b]; anything else adds one number. *)
Definition add_part (part : str) (indices : gset Z) : M world (gset Z) :=
if existsb (N.eqb Chr.minus) part then
  match split_once Chr.minus part with
  | Some (start_s, end_s) =>
      let* start := int start_s in
      let* end_ := int end_s in
      let '(start, end_) :=
        if (start >? end_)%Z then (end_, start) else (start, end_) in
      ret (foldl (fun s i => s ∪ {[ i ]}) indices (range start (end_ + 1)))
  | None => ret indices
  end
else
  let* i := int part in
  ret (indices ∪ {[ i ]}).

Fixpoint add_parts (parts : list str) (indices : gset Z) : M world (gset Z) :=
match parts with
| [] => ret indices
| part :: rest =>
    match part with
    | [] => add_parts rest indices
    | _ => let* indices := add_part part indices in add_parts rest indices
    end
end.

Definition quit_words : list str := [u "q"; u "quit"; u "exit"].

Definition _prompt_indices (items : list str) (prompt : str)
  : M world (list Z) :=
match items with
| [] => ret []
| _ =>
    for_each (enumerate 1 items)
      (fun '(idx, item) =>
         print (rjust2 (str_of_N idx) ++ u ". " ++ item)) ;;
    let* line := input prompt in
    let raw := strip line in
    match raw with
    | [] => ret []
    | _ =>
        if bool_decide (str_lower raw ∈ quit_words) then raise (SystemExit 0)
        else
          let* indices :=
            add_parts
              (split_runs (fun c => (c =? Chr.comma) || isspace c) raw) ∅ in
          let resolved :=
            merge_sort Z.le
              (List.filter
                 (fun i => (1 <=? i)%Z && (i <=? Z.of_nat (length items))%Z)
                 (elements indices)) in
          match resolved with
          | [] => raise (ValueError (u "No valid selections."))
          | _ => ret resolved
          end
    end
end.

Definition _move_article (src_root dst_root relpath : path) (force : bool)
  : M fs unit :=
let src := src_root ++ relpath in
let dst := dst_root ++ relpath in
Path_mkdir_parents (parent dst) ;;
(let* e := gets (fun t => path_exists t dst) in
 if e then
   if negb force then raise FileExistsError
   else
     let* d := gets (fun t => is_dir t dst) in
     if d then raise IsADirectoryError else Path_unlink dst
 else ret tt) ;;
shutil_move src dst.

(** [section_items] of [_render_nav_yaml] *)
Definition section_items (section_dir : path) : M fs (list (str * str)) :=
let* e := gets (fun t => path_exists t section_dir) in
if negb e then ret [] else
let* mds := gets (fun t => _iter_md_files t section_dir) in
map_M
  (fun md =>
     let rel := as_posix (relative_to DOCS_DIR md) in
     let* title := _read_title md in
     ret (title, rel))
  mds.

(** The lines of one section: none without items, else the header and
  one line per item. *)
Definition section_lines (header : str) (items : list (str * str))
  : list str :=
match items with
| [] => []
| _ =>
    header
    :: map (fun '(title, rel) => u "      - " ++ title ++ u ": " ++ rel)
         items
end.

Definition LLM_HEADER : str := u "  - LLM Notes:".
Definition AGENT_HEADER : str := u "  - Agent Architectures:".
Definition SCIENCE_HEADER : str := u "  - AI for Science:".

(** The three sections: header line and bound subdirectory of [docs/]. *)
Definition sections : list (list N * list N) :=
[(LLM_HEADER, u "llm"); (AGENT_HEADER, u "agents");
 (SCIENCE_HEADER, u "ai_for_science")].

(** The list [lines] that [_render_nav_yaml] builds. *)
Definition _render_nav_lines : M fs (list str) :=
let* llm_items := section_items (DOCS_DIR ++ [u "llm"]) in
let* agent_items := section_items (DOCS_DIR ++ [u "agents"]) in
let* science_items := section_items (DOCS_DIR ++ [u "ai_for_science"]) in
ret ([u "nav:"; u "  - Home: index.md"]
     ++ section_lines LLM_HEADER llm_items
     ++ section_lines AGENT_HEADER agent_items
     ++ section_lines SCIENCE_HEADER science_items
     ++ [u "  - About: about.md"]).

Definition _render_nav_yaml : M fs str :=
let* lines := _render_nav_lines in
ret (join [Chr.LF] lines ++ [Chr.LF]).

(** [\s*$] under [(?m)]: white space up to the end of the text or up to
  a line feed. *)
Fixpoint ws_to_eol (s : str) : bool :=
match s with
| [] => true
| c :: s' => (c =? Chr.LF) || (isspace c && ws_to_eol s')
end.

(** [^nav:\s*$] matched at the start of [s], which begins a line. *)
Definition nav_match_here (s : str) : bool :=
startswith (u "nav:") s && ws_to_eol (drop 4 s).

(** [re.search(r"(?m)^nav:\s*$", text)]: the start of the leftmost
  match.  [bol] tells that [s] begins a line, [pos] is its offset. *)
Fixpoint nav_search_from (bol : bool) (pos : nat) (s : str) : option nat :=
match s with
| [] => None
| c :: s' =>
    if bol && nav_match_here s then Some pos
    else nav_search_from (c =? Chr.LF) (S pos) s'
end.

Definition nav_search (text : str) : option nat :=
nav_search_from true 0 text.

(** The text that [_update_mkdocs_nav] writes back. *)
Definition spliced (text nav_yaml : str) : str :=
match nav_search text with
| None =>
    let text :=
      if negb (endswith [Chr.LF] text) then text ++ [Chr.LF] else text in
    text ++ [Chr.LF] ++ nav_yaml
| Some start => take start text ++ nav_yaml
end.

Definition _update_mkdocs_nav : M fs unit :=
let* e := gets (fun t => path_exists t MKDOCS_YML) in
if negb e then raise FileNotFoundError else
let* text := read_text MKDOCS_YML in
let* nav_yaml := _render_nav_yaml in
write_text MKDOCS_YML (spliced text nav_yaml).

Definition print_articles (l : list Article) : M world unit :=
match l with
| [] => print (u "  (none)")
| _ => for_each l (fun a => print (u "  - " ++ as_posix (relpath a)))
end.

Definition _list : M world Z :=
print (u "Published (docs/):") ;;
let* published := lift_fs (gets _articles_in_docs) in
print_articles published ;;
print ([Chr.LF] ++ u "Drafts (drafts/):") ;;
let* drafts := lift_fs (gets _articles_in_drafts) in
print_articles drafts ;;
ret 0%Z.

(** The loop over the picked indices in [_interactive]. *)
Definition move_picked (src_root dst_root : path) (src_items : list Article)
  (label : str) (force : bool) (picked : list Z) : M world unit :=
for_each picked
  (fun idx =>
     let* article := index src_items (idx - 1)%Z in
     lift_fs (_move_article src_root dst_root (relpath article) force) ;;
     print (label ++ u "ed: " ++ as_posix (relpath article))).

(** Where the first part of [_interactive] ends: at a [return], or with
  the articles picked for the moves. *)
Inductive choice : Type :=
| Done (code : Z)
| Picked (src_root dst_root : list (list N)) (src_items : list Article)
    (label : list N) (picked : list Z).

(** [_interactive] down to the selection: the menu, the scan of the
  chosen store and the prompt. *)
Definition choose_and_pick : M world choice :=
lift_fs (Path_mkdir_exist_ok DRAFTS_DIR) ;;
print (u "Choose an action:") ;;
print (u "  1) Unpublish (move docs/ -> drafts/)") ;;
print (u "  2) Publish   (move drafts/ -> docs/)") ;;
print (u "  3) List") ;;
let* line := input (u "Enter 1/2/3 (or q): ") in
let choice := str_lower (strip line) in
if bool_decide (choice ∈ quit_words) then ret (Done 0)
else if bool_decide (choice = u "3") then
  let* code := _list in ret (Done code)
else
  let chosen :=
    if bool_decide (choice = u "1")
    then Some (DOCS_DIR, DRAFTS_DIR, _articles_in_docs, u "Unpublish")
    else if bool_decide (choice = u "2")
    then Some (DRAFTS_DIR, DOCS_DIR, _articles_in_drafts, u "Publish")
    else None in
  match chosen with
  | None => print_err (u "Invalid choice.") ;; ret (Done 2)
  | Some (src_root, dst_root, articles, label) =>
      let* src_items := lift_fs (gets articles) in
      match src_items with
      | [] =>
          print (u "No articles available to " ++ str_lower label ++ u ".") ;;
          ret (Done 0)
      | _ =>
          let display := map (fun a => as_posix (relpath a)) src_items in
          try_except
            (let* picked :=
               _prompt_indices display
                 (u "Select items (e.g. 1 2 5-7), Enter to cancel: ") in
             ret (Picked src_root dst_root src_items label picked))
            (fun e =>
               match as_ValueError e with
               | Some msg => Some (print_err msg ;; ret (Done 2))
               | None => None
               end)
      end
  end.

(** The stores of a pick are the two stores of the site, one way or the
other. *)
Definition stores_of (c : choice) : Prop :=
match c with
| Done _ => True
| Picked src_root dst_root _ _ _ =>
    (src_root = DOCS_DIR /\ dst_root = DRAFTS_DIR)
    \/ (src_root = DRAFTS_DIR /\ dst_root = DOCS_DIR)
end.

Definition _interactive (force : bool) : M world Z :=
let* c := choose_and_pick in
match c with
| Done code => ret code
| Picked src_root dst_root src_items label picked =>
    move_picked src_root dst_root src_items label force picked ;;
    lift_fs _update_mkdocs_nav ;;
    print (u "Updated mkdocs nav.") ;;
    ret 0%Z
end.

(** The options that [argparse] hands to [main]. *)
Record Args : Type := mkArgs { args_list : bool; args_force : bool }.

Definition main (args : Args) : M world Z :=
if args_list args then _list else _interactive (args_force args).

End Script.

(** ** The splice, in the words of the specification

    The specification describes the splice by lines: the navigation
    block starts at the first marker line and runs to the end of the
    document.  What counts as a marker line is a parameter here. *)

(** The first line of a text and its other lines, split at line
    feeds. *)
Fixpoint split_lf (s : list N) : list N * list (list N) :=
  match s with
  | [] => ([], [])
  | c :: s' =>
      let '(l, ls) := split_lf s' in
      if c =? Chr.LF then ([], l :: ls) else (c :: l, ls)
  end.

Definition lines_of (s : list N) : list (list N) :=
  let '(l, ls) := split_lf s in l :: ls.

(** The offset in the text of the first line that is a marker, when the
    lines [ls] start at offset [pos]. *)
Fixpoint first_line_offset (is_marker : list N -> bool) (pos : nat)
    (ls : list (list N)) : option nat :=
  match ls with
  | [] => None
  | l :: ls' =>
      if is_marker l then Some pos
      else first_line_offset is_marker (pos + S (length l)) ls'
  end.

(** A line that is the header token and nothing more. *)
Definition exact_marker (l : list N) : bool := bool_decide (l = u "nav:").

(** A line that is the header token followed by white space only. *)
Definition loose_marker (l : list N) : bool :=
  startswith (u "nav:") l && forallb isspace (drop 4 l).

(** From the first marker line on, the document is replaced by the
    block; without marker line the block is appended after a blank
    line, the last line of the document being completed first. *)
Definition spec_spliced (is_marker : list N -> bool) (text nav_yaml : list N)
    : list N :=
  match first_line_offset is_marker 0 (lines_of text) with
  | Some k => take k text ++ nav_yaml
  | None =>
      text ++ (if endswith [Chr.LF] text then [] else [Chr.LF])
      ++ [Chr.LF] ++ nav_yaml
  end.

(** ** Paths apart

    Two paths are apart when neither is a prefix of the other: what is
    done at one of them is not seen at the other. *)
Definition apart (p q : list (list N)) : Prop :=
  ~ p `prefix_of` q /\ ~ q `prefix_of` p.

(** The file system [t'] has at [q] what [t] has there. *)
Definition unchanged_at (q : list (list N)) : relation node :=
  fun t t' => lookup q t' = lookup q t.

(** ** The fallback title, in the words of the specification

    Underscores and hyphens of the base name become spaces, the name is
    split into words, the first letter of each non-empty word is
    capitalized, and the words are joined by single spaces. *)
Definition spec_fallback_title `{Host} (base : list N) : list N :=
  let spaced :=
    replace_char Chr.minus Chr.SP (replace_char Chr.underscore Chr.SP base) in
  let words :=
    List.filter (fun w => negb (Nat.eqb (length w) 0))
      (split_runs isspace spaced) in
  join (u " ") (map (fun w => str_upper (take 1 w) ++ drop 1 w) words).

(** ** The selection, token by token

    What one token of a selection expression stands for: a number, or
    the integers between the two numbers of a range, in either order. *)
Definition token_covers (part : list N) (i : Z) : Prop :=
  if existsb (N.eqb Chr.minus) part then
    match split_once Chr.minus part with
    | Some (start_s, end_s) =>
        match py_int start_s, py_int end_s with
        | Some a, Some c => (Z.min a c <= i <= Z.max a c)%Z
        | _, _ => False
        end
    | None => False
    end
  else py_int part = Some i.

(** The numbered list that the prompt prints, one chunk per item. *)
Definition numbered (items : list (list N)) : list (list N) :=
  map (fun '(idx, item) => (rjust2 (str_of_N idx) ++ u ". " ++ item) ++ [Chr.LF])
    (enumerate 1 items).

(** [raises P m]: every exception that [m] raises satisfies [P]. *)
Definition raises {S A} (P : exn -> Prop) (m : M S A) : Prop :=
  forall s e s', m s = (Raise e, s') -> P e.

(** The lines that [--list] prints for one store. *)
Definition article_lines `{Host} (l : list Article) : list (list N) :=
  match l with
  | [] => [u "  (none)" ++ [Chr.LF]]
  | _ => map (fun a => (u "  - " ++ as_posix (relpath a)) ++ [Chr.LF]) l
  end.

(** The length of a text cut into the lines [ls], with one line feed
    after each line. *)
Definition total_length (ls : list (list N)) : nat :=
  list_sum (map (fun l => S (length l)) ls).

(** ** How a run ends

    The exceptions that a run lets through: an error of the operating
    system, the end of the input, the exit asked for at the selection
    prompt, and text that cannot be decoded or encoded. *)
Definition run_error (e : exn) : Prop :=
  is_OSError e = true \/ e = EOFError \/ e = SystemExit 0
  \/ e = UnicodeDecodeError \/ e = UnicodeEncodeError.

(** The exceptions of the first part of a run, down to the selection. *)
Definition menu_error (e : exn) : Prop :=
  is_OSError e = true \/ e = EOFError \/ e = SystemExit 0.

(** The first part of a run ends with the code 0 or 2, or with indices
    that are positions in the list shown. *)
Definition well_picked (c : choice) : Prop :=
  match c with
  | Done code => code = 0%Z \/ code = 2%Z
  | Picked _ _ src_items _ picked =>
      Forall (fun i => (1 <= i <= Z.of_nat (length src_items))%Z) picked
  end.

(** ** Eligible articles, in the words of the specification

    A file is eligible when its extension is the markup extension,
    compared without case; a directory holds an eligible article when
    such a regular file lies below it, at any depth.  A section appears
    in the rendered manifest when its header is a line of the text. *)
Definition eligible `{Host} (nm : list N) : bool :=
  bool_decide (str_lower (suffix nm) = u ".md").

Definition holds_eligible_article `{Host} (t : fs) (dir : list (list N))
    : Prop :=
  exists q : list (list N),
    q <> [] /\ is_file t (dir ++ q) = true /\ eligible (name q) = true.

Definition section_appears (header text : list N) : Prop :=
  In header (lines_of text).

(** ** Concrete hosts and file systems, for the examples *)

(** File contents written as text. *)
Definition b (s : string) : bytes := list_byte_of_string s.

(** A POSIX host and a Windows host, with the ASCII case maps, running
    the script from the directory [/site] with its input piped; and the
    POSIX host on a terminal, [readline] not loaded. *)
Definition posix : Host := {|
  case_sensitive := true;
  os_sep := 47;
  os_linesep := [Chr.LF];
  str_lower := ascii_lower;
  str_upper := ascii_upper;
  REPO_ROOT := [u "site"];
  prompt_on_stderr := false;
|}.

Definition windows : Host := {|
  case_sensitive := false;
  os_sep := 92;
  os_linesep := [Chr.CR; Chr.LF];
  str_lower := ascii_lower;
  str_upper := ascii_upper;
  REPO_ROOT := [u "site"];
  prompt_on_stderr := false;
|}.

Definition posix_terminal : Host := {|
  case_sensitive := true;
  os_sep := 47;
  os_linesep := [Chr.LF];
  str_lower := ascii_lower;
  str_upper := ascii_upper;
  REPO_ROOT := [u "site"];
  prompt_on_stderr := true;
|}.

(** A site with one published article and one draft. *)
Definition site (docs drafts : list (list N * node)) (yml : bytes) : fs :=
  Dir [(u "site",
        Dir [(u "docs", Dir docs);
             (u "drafts", Dir drafts);
             (u "mkdocs.yml", File yml)])].

Definition old_yml : bytes :=
  b "site_name: Notes
nav:
  - Home: index.md
  - Old: old.md
".

Definition small_site : fs :=
  site
    [(u "index.md", File (b "# Home"));
     (u "about.md", File (b "# About"));
     (u "llm", Dir [(u "a.md", File (b "# Hello World
text"))])]
    [(u "agents", Dir [(u "b_plan-one.md", File (b "no heading"))])]
    old_yml.

(** A site where the draft store already has a directory under the name
    of a published article. *)
Definition clash_site : fs :=
  site [(u "x.md", File (b "# X"))] [(u "x.md", Dir [])] old_yml.

Definition site_docs : list (list N) := [u "site"; u "docs"].
Definition site_drafts : list (list N) := [u "site"; u "drafts"].

(** A site whose only published article has its extension in capitals. *)
Definition capitals_site : fs :=
  site [(u "llm", Dir [(u "X.MD", File (b "# Shout"))])] [] old_yml.

(** A site with a published article that is not UTF-8: the byte [0xFF]
    starts no character. *)
Definition latin1_site : fs :=
  site [(u "llm", Dir [(u "bad.md", File [xff])])]
       [(u "note.md", File (b "# Note"))] old_yml.

(** The small site without its [mkdocs.yml]. *)
Definition no_yml_site : fs :=
  Dir [(u "site",
        Dir [(u "docs", Dir []);
             (u "drafts", Dir [(u "note.md", File (b "# Note"))])])].

(** A site with two drafts, the second of which is published already
    under the same name. *)
Definition two_drafts_site : fs :=
  site [(u "b.md", File (b "# Published B"))]
       [(u "a.md", File (b "# Draft A")); (u "b.md", File (b "# Draft B"))]
       old_yml.

(** A site whose only file below [docs/llm] is named [.md]: a hidden
    file without extension. *)
Definition dotfile_site : fs :=
  site [(u "llm", Dir [(u ".md", File (b "# Hidden"))])] [] old_yml.

(** The configuration document with Windows line ends. *)
Definition crlf_site : fs :=
  site [] [] [x73; x3a; x20; x78; x0d; x0a; x6e; x61; x76; x3a; x0d; x0a].

(** A site with one published article and no draft. *)
Definition published_site : fs :=
  site [(u "x.md", File (b "# X"))] [] old_yml.

(** A site with a published article whose file name is not UTF-8: the
    byte [0xFF] of the name is read as the lone surrogate [U+DCFF]. *)
Definition surrogate_site : fs :=
  site [(u "llm", Dir [(56575%N :: u ".md", File (b "# Title"))])] [] old_yml.

(** A site where [drafts] is a regular file. *)
Definition drafts_file_site : fs :=
  Dir [(u "site",
        Dir [(u "docs", Dir [(u "x.md", File (b "# X"))]);
             (u "drafts", File (b "notes"));
             (u "mkdocs.yml", File old_yml)])].

(** * Properties *)

(** ** The monad *)

Lemma bind_inv {S A B} (m : M S A) (k : A -> M S B) s r s' :
  bind m k s = (r, s') ->
  (exists a s1, m s = (Ret a, s1) /\ k a s1 = (r, s'))
  \/ (exists e, m s = (Raise e, s') /\ r = Raise e).
Proof.
  unfold bind. destruct (m s) as [[a|e] s1]; intros Hk.
  - left. eauto.
  - right. inversion Hk; subst. eauto.
Qed.

Lemma bind_ret_inv {S A B} (m : M S A) (k : A -> M S B) s b s' :
  bind m k s = (Ret b, s') ->
  exists a s1, m s = (Ret a, s1) /\ k a s1 = (Ret b, s').
Proof.
  intros Hb. destruct (bind_inv _ _ _ _ _ Hb) as [?|(e & _ & ?)]; [done|discriminate].
Qed.

(** ** Directory entries *)

Section Entries.
Implicit Types (x y : list N) (n : node) (es : list (list N * node)).

Lemma assoc_set_entry_eq x n es : assoc x (set_entry x n es) = Some n.
Proof.
  induction es as [|[y m] es IH]; simpl.
  - by rewrite decide_True.
  - destruct (decide (x = y)) as [->|Hne]; simpl.
    + by rewrite decide_True.
    + by rewrite decide_False.
Qed.

Lemma assoc_set_entry_ne x y n es :
  x <> y -> assoc y (set_entry x n es) = assoc y es.
Proof.
  intros Hne. induction es as [|[z m] es IH]; simpl.
  - by rewrite decide_False.
  - destruct (decide (x = z)) as [->|Hxz]; simpl.
    + by rewrite !decide_False.
    + destruct (decide (y = z)); [done|apply IH].
Qed.

Lemma assoc_del_entry_eq x es : assoc x (del_entry x es) = None.
Proof.
  induction es as [|[y m] es IH]; simpl; [done|].
  destruct (decide (x = y)); simpl; [done|]. by rewrite decide_False.
Qed.

Lemma assoc_del_entry_ne x y es :
  x <> y -> assoc y (del_entry x es) = assoc y es.
Proof.
  intros Hne. induction es as [|[z m] es IH]; simpl; [done|].
  destruct (decide (x = z)) as [->|Hxz]; simpl.
  - by rewrite decide_False.
  - by rewrite IH.
Qed.

Lemma set_entry_same x n es : assoc x es = Some n -> set_entry x n es = es.
Proof.
  induction es as [|[y m] es IH]; simpl; [done|].
  destruct (decide (x = y)) as [->|Hne]; intros Hn.
  - by inversion Hn.
  - by rewrite IH.
Qed.
End Entries.

(** ** Path resolution *)

Lemma lookup_nil (t : fs) : lookup [] t = Some t.
Proof. done. Qed.

Lemma lookup_cons_dir x (p : list (list N)) es :
  lookup (x :: p) (Dir es) =
  match assoc x es with Some c => lookup p c | None => None end.
Proof. unfold lookup; simpl. by destruct (assoc x es). Qed.

Lemma lookup_cons_file x (p : list (list N)) d : lookup (x :: p) (File d) = None.
Proof. done. Qed.

Lemma lookup_resolve (p : list (list N)) (t : fs) n :
  lookup p t = Some n <-> resolve p t = inr n.
Proof.
  unfold lookup. destruct (resolve p t); split; intros Heq; by inversion Heq.
Qed.

Lemma lookup_app (p q : list (list N)) (t : fs) :
  lookup (p ++ q) t =
  match lookup p t with Some n => lookup q n | None => None end.
Proof.
  revert t. induction p as [|x p IH]; intros t; simpl; [done|].
  destruct t as [d|es]; [done|].
  rewrite !lookup_cons_dir. destruct (assoc x es); [apply IH|done].
Qed.

(** Nothing lies below a regular file. *)
Lemma lookup_below_file (p q : list (list N)) (t : fs) d :
  lookup p t = Some (File d) -> q <> [] -> lookup (p ++ q) t = None.
Proof.
  intros Hp Hq. rewrite lookup_app, Hp. by destruct q.
Qed.

(** Two paths that exist and are not equal, the first being a regular
    file: the first is not a prefix of the second. *)
Lemma file_not_prefix (p q : list (list N)) (t : fs) d :
  lookup p t = Some (File d) -> is_Some (lookup q t) -> p <> q ->
  ~ p `prefix_of` q.
Proof.
  intros Hp [n Hq] Hne [r ->].
  destruct r as [|x r]; [by rewrite app_nil_r in Hne|].
  by rewrite (lookup_below_file _ _ _ _ Hp) in Hq.
Qed.

Lemma lookup_fresh_dirs (p q : list (list N)) :
  ~ q `prefix_of` p -> lookup q (fresh_dirs p) = None.
Proof.
  revert q. induction p as [|x p IH]; intros q Hq.
  - destruct q as [|y q]; [by destruct Hq; apply prefix_nil|done].
  - destruct q as [|y q]; [by destruct Hq; apply prefix_nil|].
    simpl. rewrite lookup_cons_dir. simpl.
    destruct (decide (y = x)) as [->|]; [|done].
    apply IH. intros Hp. apply Hq. by apply prefix_cons.
  Qed.

(** ** Creating directories *)

Lemma mkdir_p_dir (p : list (list N)) (t : fs) es :
  lookup p t = Some (Dir es) -> mkdir_p p t = inr t.
Proof.
  revert t. induction p as [|x p IH]; intros t.
  - rewrite lookup_nil. by intros [= ->].
  - destruct t as [d|es0]; [done|].
    rewrite lookup_cons_dir. simpl.
    destruct (assoc x es0) as [c|] eqn:Hc; [|done].
    intros Hp. rewrite (IH _ Hp). by rewrite (set_entry_same _ _ _ Hc).
Qed.

(** [mkdir_p] leaves alone every path that is not on the way to the
    directory it creates. *)
Lemma mkdir_p_frame (p q : list (list N)) (t t' : fs) :
  mkdir_p p t = inr t' -> ~ q `prefix_of` p -> lookup q t' = lookup q t.
Proof.
  revert q t t'. induction p as [|x p IH]; intros q t t'.
  - simpl. destruct t; [done|]. by intros [= <-].
  - destruct t as [d|es]; [done|]. simpl.
    destruct q as [|y q]; [by intros _ []; apply prefix_nil|].
    intros Hmk Hq. rewrite (lookup_cons_dir y q es).
    destruct (assoc x es) as [c|] eqn:Hc.
    + destruct (mkdir_p p c) as [e|c'] eqn:Hmk'; [done|].
      injection Hmk as <-. rewrite lookup_cons_dir.
      destruct (decide (x = y)) as [->|Hne].
      * rewrite assoc_set_entry_eq, Hc. apply (IH _ _ _ Hmk').
        intros Hp. apply Hq. by apply prefix_cons.
      * by rewrite assoc_set_entry_ne.
    + injection Hmk as <-. rewrite lookup_cons_dir.
      destruct (decide (x = y)) as [->|Hne].
      * rewrite assoc_set_entry_eq, Hc. apply lookup_fresh_dirs.
        intros Hp. apply Hq. by apply prefix_cons.
      * by rewrite assoc_set_entry_ne.
Qed.

(** [mkdir_p] does not go through a regular file. *)
Lemma mkdir_p_not_through_file (p q : list (list N)) (t t' : fs) d :
  mkdir_p p t = inr t' -> lookup q t = Some (File d) -> ~ q `prefix_of` p.
Proof.
  revert q t t'. induction p as [|x p IH]; intros q t t' Hmk Hq Hpre.
  - apply prefix_nil_inv in Hpre as ->. rewrite lookup_nil in Hq.
    injection Hq as ->. done.
  - destruct t as [d0|es]; [done|]. simpl in Hmk.
    destruct q as [|y q]; [done|].
    pose proof (prefix_cons_inv_1 _ _ _ _ Hpre) as ->.
    apply prefix_cons_inv_2 in Hpre.
    rewrite lookup_cons_dir in Hq.
    destruct (assoc x es) as [c|]; [|done].
    destruct (mkdir_p p c) as [e|c'] eqn:Hmk'; [done|].
    by apply (IH _ _ _ Hmk' Hq).
Qed.

Lemma mkdir_p_keeps_file (p q : list (list N)) (t t' : fs) d :
  mkdir_p p t = inr t' -> lookup q t = Some (File d) ->
  lookup q t' = Some (File d).
Proof.
  intros Hmk Hq. rewrite <- Hq. apply (mkdir_p_frame _ _ _ _ Hmk).
  by apply (mkdir_p_not_through_file _ _ _ _ _ Hmk Hq).
Qed.

(** When the directory made by [mkdir_p] has an entry, it was there
    before, and nothing was created. *)
Lemma mkdir_p_nonempty (p : list (list N)) x (t t' : fs) :
  mkdir_p p t = inr t' -> is_Some (lookup (p ++ [x]) t') -> t' = t.
Proof.
  revert t t'. induction p as [|y p IH]; intros t t'.
  - simpl. destruct t; [done|]. by intros [= <-].
  - destruct t as [d|es]; [done|]. simpl.
    destruct (assoc y es) as [c|] eqn:Hc.
    + destruct (mkdir_p p c) as [e|c'] eqn:Hmk'; [done|].
      intros [= <-]. rewrite lookup_cons_dir, assoc_set_entry_eq.
      intros Hx. rewrite (IH _ _ Hmk' Hx).
      by rewrite (set_entry_same _ _ _ Hc).
    + intros [= <-]. rewrite lookup_cons_dir, assoc_set_entry_eq.
      rewrite lookup_fresh_dirs; [by intros []|].
      intros Hpre. by apply prefix_snoc_not in Hpre.
Qed.

Lemma os_mkdir_frame (p q : list (list N)) (t t' : fs) :
  os_mkdir p t = inr t' -> ~ q `prefix_of` p -> ~ p `prefix_of` q ->
  lookup q t' = lookup q t.
Proof.
  revert q t t'. induction p as [|x p IH]; intros q t t'; [done|].
  destruct t as [d|es]; [done|]. simpl.
  destruct q as [|y q]; [by intros _ []; apply prefix_nil|].
  intros Hmk Hq Hp. rewrite (lookup_cons_dir y q es).
  destruct (assoc x es) as [c|] eqn:Hc.
  - destruct (os_mkdir p c) as [e|c'] eqn:Hmk'; [done|].
    injection Hmk as <-. rewrite lookup_cons_dir.
    destruct (decide (x = y)) as [->|Hne].
    + rewrite assoc_set_entry_eq, Hc. apply (IH _ _ _ Hmk').
      * intros ?. apply Hq. by apply prefix_cons.
      * intros ?. apply Hp. by apply prefix_cons.
    + by rewrite assoc_set_entry_ne.
  - destruct p; [|done]. injection Hmk as <-. rewrite lookup_cons_dir.
    destruct (decide (x = y)) as [->|Hne].
    + destruct Hp. apply prefix_cons, prefix_nil.
    + by rewrite assoc_set_entry_ne.
Qed.

(** ** Removing and placing nodes *)

Lemma remove_at_frame (p q : list (list N)) (t : fs) :
  ~ p `prefix_of` q -> ~ q `prefix_of` p ->
  lookup q (remove_at p t) = lookup q t.
Proof.
  revert q t. induction p as [|x p IH]; intros q t Hp Hq; [done|].
  destruct t as [d|es]; [done|].
  destruct q as [|y q]; [by destruct Hq; apply prefix_nil|].
  simpl. destruct p as [|x' p].
  - rewrite !lookup_cons_dir.
    destruct (decide (x = y)) as [->|Hne].
    + destruct Hp. apply prefix_cons, prefix_nil.
    + by rewrite assoc_del_entry_ne.
  - destruct (assoc x es) as [c|] eqn:Hc; [|done].
    rewrite !lookup_cons_dir.
    destruct (decide (x = y)) as [->|Hne].
    + rewrite assoc_set_entry_eq, Hc. apply IH.
      * intros ?. apply Hp. by apply prefix_cons.
      * intros ?. apply Hq. by apply prefix_cons.
    + by rewrite assoc_set_entry_ne.
Qed.

Lemma remove_at_gone (p : list (list N)) (t : fs) :
  p <> [] -> lookup p (remove_at p t) = None.
Proof.
  revert t. induction p as [|x p IH]; intros t Hne; [done|].
  destruct t as [d|es]; [done|]. simpl. destruct p as [|x' p].
  - by rewrite lookup_cons_dir, assoc_del_entry_eq.
  - destruct (assoc x es) as [c|] eqn:Hc.
    + rewrite lookup_cons_dir, assoc_set_entry_eq. by apply IH.
    + by rewrite lookup_cons_dir, Hc.
Qed.

Lemma put_at_lookup (p : list (list N)) new (t t' : fs) :
  put_at p new t = Some t' -> lookup p t' = Some new.
Proof.
  revert t t'. induction p as [|x p IH]; intros t t'; [done|].
  destruct t as [d|es]; [done|]. simpl. destruct p as [|x' p].
  - intros [= <-]. by rewrite lookup_cons_dir, assoc_set_entry_eq.
  - destruct (assoc x es) as [c|]; [|done].
    destruct (put_at (x' :: p) new c) as [c'|] eqn:Hput; [|done].
    intros [= <-]. rewrite lookup_cons_dir, assoc_set_entry_eq.
    by apply (IH _ _ Hput).
Qed.

Lemma put_at_frame (p q : list (list N)) new (t t' : fs) :
  put_at p new t = Some t' -> ~ p `prefix_of` q -> ~ q `prefix_of` p ->
  lookup q t' = lookup q t.
Proof.
  revert q t t'. induction p as [|x p IH]; intros q t t'; [done|].
  destruct t as [d|es]; [done|].
  destruct q as [|y q]; [by intros _ _ []; apply prefix_nil|].
  simpl. destruct p as [|x' p].
  - intros [= <-] Hp Hq. rewrite !lookup_cons_dir.
    destruct (decide (x = y)) as [->|Hne].
    + destruct Hp. apply prefix_cons, prefix_nil.
    + by rewrite assoc_set_entry_ne.
  - destruct (assoc x es) as [c|] eqn:Hc; [|done].
    destruct (put_at (x' :: p) new c) as [c'|] eqn:Hput; [|done].
    intros [= <-] Hp Hq. rewrite !lookup_cons_dir.
    destruct (decide (x = y)) as [->|Hne].
    + rewrite assoc_set_entry_eq, Hc. apply (IH _ _ _ Hput).
      * intros ?. apply Hp. by apply prefix_cons.
      * intros ?. apply Hq. by apply prefix_cons.
    + by rewrite assoc_set_entry_ne.
Qed.

(** ** What a computation keeps *)

Section Keeps.
Context {S : Type} (R : relation S) `{!PreOrder R}.

Lemma keeps_ret {A} (a : A) : keeps R (ret a).
Proof. intros s r s' [= <- <-]. reflexivity. Qed.

Lemma keeps_raise {A} e : keeps R (@raise S A e).
Proof. intros s r s' [= <- <-]. reflexivity. Qed.

Lemma keeps_gets {A} (f : S -> A) : keeps R (gets f).
Proof. intros s r s' [= <- <-]. reflexivity. Qed.

Lemma keeps_bind {A B} (m : M S A) (k : A -> M S B) :
  keeps R m -> (forall a, keeps R (k a)) -> keeps R (bind m k).
Proof.
  intros Hm Hk s r s' Hb.
  destruct (bind_inv _ _ _ _ _ Hb) as [(a & s1 & Hms & Hks)|(e & Hms & _)].
  - transitivity s1; [by eapply Hm|by eapply Hk].
  - by eapply Hm.
Qed.

Lemma keeps_try_except {A} (m : M S A) h :
  keeps R m -> (forall e k, h e = Some k -> keeps R k) ->
  keeps R (try_except m h).
Proof.
  intros Hm Hh s r s'. unfold try_except.
  destruct (m s) as [[a|e] s1] eqn:Hms.
  - intros [= <- <-]. by eapply Hm.
  - destruct (h e) as [k|] eqn:Hhe.
    + intros Hk. transitivity s1; [by eapply Hm|by eapply (Hh e k)].
    + intros [= <- <-]. by eapply Hm.
Qed.

Lemma keeps_for_each {A} (l : list A) (body : A -> M S unit) :
  (forall x, keeps R (body x)) -> keeps R (for_each l body).
Proof.
  intros Hbody. induction l as [|x l IH]; simpl.
  - apply keeps_ret.
  - apply keeps_bind; [apply Hbody|intros _; apply IH].
Qed.

Lemma keeps_map_M {A B} (f : A -> M S B) (l : list A) :
  (forall x, keeps R (f x)) -> keeps R (map_M f l).
Proof.
  intros Hf. induction l as [|x l IH]; simpl.
  - apply keeps_ret.
  - apply keeps_bind; [apply Hf|intros y].
    apply keeps_bind; [apply IH|intros ys; apply keeps_ret].
Qed.
End Keeps.

(** Applying these lemmas: the preorder is found by instance search. *)
Tactic Notation "kapply" uconstr(lem) :=
  apply lem; try typeclasses eauto.
Ltac keeps_leaf :=
  first [kapply keeps_ret | kapply keeps_raise | kapply keeps_gets].

Section Returns.
Context {S A : Type} (Q : A -> Prop).

Lemma returns_ret (a : A) : Q a -> returns Q (@ret S A a).
Proof. by intros Ha s a' s' [= <- _]. Qed.

Lemma returns_raise e : returns Q (@raise S A e).
Proof. by intros s a s'. Qed.

Lemma returns_bind {B} (m : M S B) (k : B -> M S A) :
  (forall x, returns Q (k x)) -> returns Q (bind m k).
Proof.
  intros Hk s a s' Hb.
  destruct (bind_ret_inv _ _ _ _ _ Hb) as (x & s1 & _ & Hks).
  by eapply Hk.
Qed.

Lemma returns_try_except (m : M S A) h :
  returns Q m -> (forall e k, h e = Some k -> returns Q k) ->
  returns Q (try_except m h).
Proof.
  intros Hm Hh s a s'. unfold try_except.
  destruct (m s) as [[a'|e] s1] eqn:Hms.
  - intros [= <- <-]. by eapply Hm.
  - destruct (h e) as [k|] eqn:Hhe; [|done].
    intros Hk. by eapply (Hh e k).
Qed.
End Returns.

Global Instance on_fs_preorder (R : relation node) `{!PreOrder R} :
  PreOrder (on_fs R).
Proof.
  split.
  - intros w. unfold on_fs. reflexivity.
  - intros w1 w2 w3. unfold on_fs. intros H12 H23. by transitivity (w_fs w2).
Qed.

Section World.
Context (R : relation node) `{!PreOrder R}.

Lemma keeps_print s : keeps (on_fs R) (print s).
Proof. intros w r w' [= <- <-]. unfold on_fs. simpl. reflexivity. Qed.

Lemma keeps_print_err s : keeps (on_fs R) (print_err s).
Proof. intros w r w' [= <- <-]. unfold on_fs. simpl. reflexivity. Qed.

Lemma keeps_input `{Host} s : keeps (on_fs R) (input s).
Proof.
  intros w r w'. unfold input, on_fs.
  destruct prompt_on_stderr, (w_stdin w); intros [= <- <-]; simpl;
    reflexivity.
Qed.

Lemma keeps_lift_fs {A} (m : M node A) :
  keeps R m -> keeps (on_fs R) (lift_fs m).
Proof.
  intros Hm w r w'. unfold lift_fs, on_fs.
  destruct (m (w_fs w)) as [r0 t] eqn:Hmt. intros [= <- <-]. simpl.
  by eapply Hm.
Qed.
End World.

(** ** The mover *)

Lemma resolve_error (p : list (list N)) (t : fs) e :
  resolve p t = inl e -> e = FileNotFoundError \/ e = NotADirectoryError.
Proof.
  revert t. induction p as [|x p IH]; intros t; [done|].
  destruct t as [d|es]; simpl; [intros [= <-]; by right|].
  destruct (assoc x es); [apply IH|intros [= <-]; by left].
Qed.

Lemma is_dir_lookup (t : fs) (p : list (list N)) :
  is_dir t p = true <-> exists es, lookup p t = Some (Dir es).
Proof.
  unfold is_dir. destruct (lookup p t) as [[d|es]|]; split;
    try done; try (intros [? [=]]); eauto.
Qed.

Lemma path_exists_lookup (t : fs) (p : list (list N)) :
  path_exists t p = true <-> is_Some (lookup p t).
Proof.
  unfold path_exists. destruct (lookup p t); split; try done; eauto.
Qed.

Lemma is_dir_exists (t : fs) (p : list (list N)) :
  is_dir t p = true -> path_exists t p = true.
Proof. unfold is_dir, path_exists. by destruct (lookup p t). Qed.

(** The parent of what exists is a directory. *)
Lemma parent_is_dir (p : list (list N)) (t : fs) :
  p <> [] -> is_Some (lookup p t) ->
  exists es, lookup (parent p) t = Some (Dir es).
Proof.
  intros Hne [n Hn]. unfold parent.
  rewrite (app_removelast_last [] Hne), lookup_app in Hn.
  destruct (lookup (removelast p) t) as [[d|es]|]; [done|eauto|done].
Qed.

Lemma mkdir_p_parent_of_dir (p : list (list N)) (t : fs) :
  is_dir t p = true -> mkdir_p (parent p) t = inr t.
Proof.
  intros Hd. destruct (decide (p = [])) as [->|Hne].
  - apply is_dir_lookup in Hd as [es Hes]. by apply (mkdir_p_dir _ _ es).
  - destruct (parent_is_dir p t Hne) as [es Hes].
    + by apply path_exists_lookup, is_dir_exists.
    + by apply (mkdir_p_dir _ _ es).
Qed.

(** After [mkdir_p] of its parent, a path that exists existed before. *)
Lemma mkdir_p_parent_exists (p : list (list N)) (t t' : fs) :
  mkdir_p (parent p) t = inr t' -> path_exists t' p = true -> t' = t.
Proof.
  intros Hmk He. apply path_exists_lookup in He.
  destruct (decide (p = [])) as [->|Hne].
  - simpl in Hmk. destruct t; [done|]. by injection Hmk.
  - unfold parent in Hmk.
    rewrite (app_removelast_last [] Hne) in He.
    by apply (mkdir_p_nonempty _ _ _ _ Hmk He).
Qed.

(** [_move_article], step by step on the file system. *)
Lemma move_article_unfold (src_root dst_root relpath : list (list N)) force (t : fs) :
  _move_article src_root dst_root relpath force t =
  let src := src_root ++ relpath in
  let dst := dst_root ++ relpath in
  match mkdir_p (parent dst) t with
  | inl e => (Raise e, t)
  | inr t1 =>
      if path_exists t1 dst then
        if negb force then (Raise FileExistsError, t1)
        else if is_dir t1 dst then (Raise IsADirectoryError, t1)
        else
          match Path_unlink dst t1 with
          | (Ret _, t2) => shutil_move src dst t2
          | (Raise e, t2) => (Raise e, t2)
          end
      else shutil_move src dst t1
  end.
Proof.
  unfold _move_article, bind, Path_mkdir_parents, lift_result, gets, raise, ret.
  simpl. destruct (mkdir_p _ t) as [e|t1]; [done|].
  destruct (path_exists t1 _); [|done].
  destruct force; simpl; [|done].
  destruct (is_dir t1 _); [done|].
  by destruct (Path_unlink _ t1) as [[[]|e] t2].
Qed.

Lemma unlink_file (p : list (list N)) (t : fs) :
  path_exists t p = true -> is_dir t p = false ->
  Path_unlink p t = (Ret tt, remove_at p t)
  /\ exists d, lookup p t = Some (File d).
Proof.
  unfold path_exists, is_dir, Path_unlink, lookup.
  destruct (resolve p t) as [e|[d|es]]; try done. eauto.
Qed.

(** A successful [os.rename] carries the node over. *)
Lemma os_rename_lookup (src dst : list (list N)) (t t' : fs) n :
  os_rename src dst t = (Ret tt, t') -> lookup src t = Some n ->
  lookup dst t' = Some n.
Proof.
  unfold os_rename. intros Hmv Hn. apply lookup_resolve in Hn as Hr.
  rewrite Hr in Hmv.
  destruct (decide (src = dst)) as [->|Hne]; [by injection Hmv as <-|].
  destruct (resolve (parent dst) t) as [e|[d|es]]; try done.
  assert (forall r, (if decide (src `prefix_of` dst) then (Raise OSError, t)
             else match put_at dst n (remove_at src t) with
                  | Some t'0 => (Ret tt, t'0)
                  | None => (Raise OSError, t)
                  end) = r -> r = (Ret tt, t') -> lookup dst t' = Some n) as Hput.
  { intros r <-. destruct (decide _); [done|].
    destruct (put_at dst n (remove_at src t)) as [t2|] eqn:Hp; [|done].
    intros [= <-]. by apply (put_at_lookup _ _ _ _ Hp). }
  destruct n as [d|es']; destruct (lookup dst t) as [[d'|[|e' es'']]|];
    try done; by eapply Hput.
Qed.

(** [os.rename] and [shutil.move], as the script calls them, do not
    raise the two errors of the overwrite policy. *)
Lemma os_rename_error (src dst : list (list N)) (t t' : fs) e :
  os_rename src dst t = (Raise e, t') ->
  (match lookup src t, lookup dst t with
   | Some (File _), Some (Dir _) => False
   | _, _ => True
   end) ->
  e <> FileExistsError /\ e <> IsADirectoryError.
Proof.
  unfold os_rename. destruct (resolve src t) as [e0|n] eqn:Hr.
  - intros [= <- <-] _. by destruct (resolve_error _ _ _ Hr) as [->| ->].
  - apply lookup_resolve in Hr. rewrite Hr.
    destruct (decide (src = dst)); [done|].
    destruct (resolve (parent dst) t) as [e0|[d|es]] eqn:Hpar.
    + intros [= <- <-] _. by destruct (resolve_error _ _ _ Hpar) as [->| ->].
    + by intros [= <- <-] _.
    + destruct n as [d|es']; destruct (lookup dst t) as [[d'|[|e' es'']]|];
        try done; try (by intros [= <- <-] _);
        destruct (decide _); try (by intros [= <- <-] _);
        destruct (put_at _ _ _); try done; by intros [= <- <-] _.
Qed.

Lemma shutil_move_error (src dst : list (list N)) (t t' : fs) e :
  shutil_move src dst t = (Raise e, t') ->
  e <> FileExistsError /\ e <> IsADirectoryError.
Proof.
  unfold shutil_move, bind, gets, raise.
  destruct (is_dir t dst) eqn:Hd.
  - destruct (decide (src = dst)) as [->|Hne].
    + intros Hmv. apply (os_rename_error _ _ _ _ _ Hmv).
      by destruct (lookup dst t) as [[]|].
    + destruct (path_exists t (dst ++ [name src])) eqn:He.
      * by intros [= <- <-].
      * intros Hmv. apply (os_rename_error _ _ _ _ _ Hmv).
        unfold path_exists in He.
        destruct (lookup src t) as [[]|]; try done.
        by destruct (lookup (dst ++ [name src]) t).
  - intros Hmv. apply (os_rename_error _ _ _ _ _ Hmv).
    unfold is_dir in Hd.
    destruct (lookup src t) as [[]|]; try done.
    by destruct (lookup dst t) as [[]|].
Qed.

(** A successful move carries the content of the source file to the
    destination. *)
Lemma move_article_content (src_root dst_root relpath : list (list N)) force
    (t t' : fs) data :
  lookup (src_root ++ relpath) t = Some (File data) ->
  _move_article src_root dst_root relpath force t = (Ret tt, t') ->
  lookup (dst_root ++ relpath) t' = Some (File data).
Proof.
  rewrite move_article_unfold. cbv zeta.
  generalize (src_root ++ relpath) (dst_root ++ relpath). intros src dst.
  intros Hsrc. destruct (mkdir_p (parent dst) t) as [e|t1] eqn:Hmk; [done|].
  pose proof (mkdir_p_keeps_file _ _ _ _ _ Hmk Hsrc) as Hsrc1.
  assert (forall t2, lookup src t2 = Some (File data) -> is_dir t2 dst = false ->
            shutil_move src dst t2 = (Ret tt, t') ->
            lookup dst t' = Some (File data)) as Hmove.
  { intros t2 Hs Hd. unfold shutil_move, bind, gets. rewrite Hd.
    intros Hmv. by apply (os_rename_lookup _ _ _ _ _ Hmv). }
  destruct (path_exists t1 dst) eqn:He.
  - destruct force; simpl; [|done].
    destruct (is_dir t1 dst) eqn:Hd; [done|].
    destruct (unlink_file _ _ He Hd) as [-> [d' Hdst]].
    destruct (decide (dst = [])) as [Hnil|Hnil].
    + (* the root itself: only when it is a file, and the source too *)
      subst dst. simpl. by apply Hmove.
    + destruct (decide (src = dst)) as [Heq|Hne].
      * unfold shutil_move, bind, gets, is_dir.
        rewrite (remove_at_gone _ t1 Hnil).
        unfold os_rename. rewrite Heq.
        pose proof (remove_at_gone dst t1 Hnil) as Hgone.
        unfold lookup in Hgone.
        by destruct (resolve dst (remove_at dst t1)).
      * apply Hmove.
        -- rewrite remove_at_frame; [done| |].
           ++ apply (file_not_prefix _ _ _ _ Hdst); [by rewrite Hsrc1|done].
           ++ apply (file_not_prefix _ _ _ _ Hsrc1); [by rewrite Hdst|done].
        -- unfold is_dir. by rewrite (remove_at_gone _ t1 Hnil).
  - apply Hmove; [done|].
    unfold is_dir. unfold path_exists in He. by destruct (lookup dst t1).
Qed.

(** ** Sorting *)

Lemma insert_by_perm {A} (key : A -> list N) x (l : list A) :
  Permutation (insert_by key x l) (x :: l).
Proof.
  induction l as [|y l IH]; simpl; [done|].
  destruct (str_ltb (key y) (key x)); [|done].
  rewrite IH. apply perm_swap.
Qed.

Lemma sorted_by_perm {A} (key : A -> list N) (l : list A) :
  Permutation (sorted_by key l) l.
Proof.
  induction l as [|x l IH]; simpl; [done|].
  unfold sorted_by in *. simpl. by rewrite insert_by_perm, IH.
Qed.

(** ** The recursive walk *)

Lemma assoc_In (x : list N) (es : list (list N * node)) c :
  assoc x es = Some c -> In (x, c) es.
Proof.
  induction es as [|[y m] es IH]; simpl; [done|].
  destruct (decide (x = y)) as [->|Hne].
  - intros [= ->]. by left.
  - intros Hc. right. by apply IH.
Qed.

Lemma directories_cons x c es :
  directories (Dir ((x, c) :: es)) =
  ([], (x, c) :: es)
  :: map (fun de => (x :: fst de, snd de)) (directories c)
  ++ tail (directories (Dir es)).
Proof. done. Qed.

(** The walk visits every directory that path resolution reaches. *)
Lemma directories_complete (d : list (list N)) n es :
  lookup d n = Some (Dir es) -> In (d, es) (directories n).
Proof.
  revert n. induction d as [|x d IH]; intros n.
  - rewrite lookup_nil. intros [= ->]. by left.
  - destruct n as [data|es0]; [done|]. rewrite lookup_cons_dir.
    induction es0 as [|[y c] es0 IHes]; [done|].
    rewrite directories_cons. simpl assoc.
    destruct (decide (x = y)) as [->|Hxy]; intros Hd; right; apply in_or_app.
    + left. apply in_map_iff. exists (d, es). split; [done|]. by apply IH.
    + right. destruct (IHes Hd) as [[=]|Hin]. done.
Qed.

Section Scan.
Context `{Host}.

(** The scan lists the regular files below [root] whose name matches
    the pattern on the host, and nothing else. *)
Lemma iter_md_files_spec (t : fs) (root p : list (list N)) :
  In p (_iter_md_files t root) <->
  exists q, q <> [] /\ p = root ++ q /\ is_file t p = true
            /\ fnmatch_md (name q) = true.
Proof.
  unfold _iter_md_files, rglob_md, path_exists.
  destruct (lookup root t) as [n|] eqn:Hroot; simpl.
  - rewrite sorted_by_perm, filter_In, in_flat_map.
    split.
    + intros [([d es] & _ & Hin) Hf]. simpl in Hin.
      apply in_map_iff in Hin as ([x c] & <- & [_ Hm]%filter_In).
      simpl in *. exists (d ++ [x]). unfold name.
      rewrite last_last. split_and!; try done. by destruct d.
    + intros (q & Hne & -> & Hf & Hm). split; [|done].
      unfold is_file in Hf. rewrite lookup_app, Hroot in Hf.
      rewrite (app_removelast_last [] Hne) in Hf |- *.
      fold (name q) in Hf |- *.
      rewrite lookup_app in Hf.
      destruct (lookup (removelast q) n) as [[data|es]|] eqn:Hd; try done.
      rewrite lookup_cons_dir in Hf.
      destruct (assoc (name q) es) as [c|] eqn:Hc; [|done].
      exists (removelast q, es). split; [by apply directories_complete|].
      simpl. apply in_map_iff. exists (name q, c). split; [done|].
      apply filter_In. split; [by apply assoc_In|done].
  - split; [done|]. intros (q & _ & -> & Hf & _).
    unfold is_file in Hf. by rewrite lookup_app, Hroot in Hf.
Qed.

Lemma iter_md_files_nonempty (t : fs) (dir : list (list N)) :
  _iter_md_files t dir <> [] <-> contains_article t dir.
Proof.
  unfold contains_article. split.
  - destruct (_iter_md_files t dir) as [|p l] eqn:Hl; [done|]. intros _.
    assert (In p (_iter_md_files t dir)) as Hin by (rewrite Hl; by left).
    apply iter_md_files_spec in Hin as (q & Hne & -> & Hf & Hm). eauto.
  - intros (q & Hne & Hf & Hm) Hnil.
    assert (In (dir ++ q) (_iter_md_files t dir)) as Hin.
    { apply iter_md_files_spec. eauto 10. }
    by rewrite Hnil in Hin.
Qed.
End Scan.

(** ** Reading titles and rendering only read the file system *)

Lemma keeps_read_bytes p : keeps eq (read_bytes p).
Proof.
  intros t r t'. unfold read_bytes.
  by destruct (resolve p t) as [e|[d|es]]; intros [= <- <-].
Qed.

Lemma map_M_length {S A B} (f : A -> M S B) (l : list A) s ys s' :
  map_M f l s = (Ret ys, s') -> length ys = length l.
Proof.
  revert s ys s'. induction l as [|x l IH]; intros s ys s'; simpl.
  - by intros [= <- _].
  - intros Hb. apply bind_ret_inv in Hb as (y & s1 & _ & Hb).
    apply bind_ret_inv in Hb as (ys' & s2 & Hl & [= <- _]).
    simpl. by rewrite (IH _ _ _ Hl).
Qed.

Section Render.
Context `{Host}.

Lemma keeps_read_text p : keeps eq (read_text p).
Proof.
  kapply keeps_bind; [apply keeps_read_bytes|intros data].
  destruct (decode_utf8 data); [keeps_leaf|keeps_leaf].
Qed.

Lemma keeps_read_title p : keeps eq (_read_title p).
Proof.
  kapply keeps_bind; [|].
  - kapply keeps_try_except; [|].
    + kapply keeps_bind; [apply keeps_read_text|].
      intros text. keeps_leaf.
    + intros e k. destruct (is_OSError e); [|done].
      intros [= <-]. keeps_leaf.
  - intros [title|]; keeps_leaf.
Qed.

Lemma keeps_section_items dir : keeps eq (section_items dir).
Proof.
  kapply keeps_bind; [keeps_leaf|intros e].
  destruct e; simpl; [|keeps_leaf].
  kapply keeps_bind; [keeps_leaf|intros mds].
  kapply keeps_map_M. intros md.
  kapply keeps_bind; [apply keeps_read_title|].
  intros title. keeps_leaf.
Qed.

Lemma keeps_render_nav_lines : keeps eq _render_nav_lines.
Proof.
  repeat (kapply keeps_bind; [apply keeps_section_items|intros ?]).
  keeps_leaf.
Qed.

Lemma keeps_render_nav_yaml : keeps eq _render_nav_yaml.
Proof.
  kapply keeps_bind; [apply keeps_render_nav_lines|intros ?].
  keeps_leaf.
Qed.

(** A section has items exactly when the scan of its directory finds
    a file. *)
Lemma section_items_nil dir (t t' : fs) items :
  section_items dir t = (Ret items, t') ->
  items <> [] <-> contains_article t dir.
Proof.
  rewrite <- iter_md_files_nonempty.
  unfold section_items, bind, gets.
  destruct (path_exists t dir) eqn:He; simpl.
  - intros Hmap%map_M_length.
    by destruct items, (_iter_md_files t dir).
  - intros [= <- _]. unfold _iter_md_files. by rewrite He.
Qed.

Lemma in_section_lines h header items :
  In h (section_lines header items) ->
  items <> []
  /\ (h = header
      \/ exists title rel, h = u "      - " ++ title ++ u ": " ++ rel).
Proof.
  destruct items as [|i items]; simpl; [done|].
  intros [<-|[Heq|Hin]]; split; try done; eauto.
  - right. destruct i as [title rel]. eauto.
  - right. apply in_map_iff in Hin as [[title rel] [<- _]]. eauto.
Qed.

Lemma header_in_section_lines header items :
  items <> [] -> In header (section_lines header items).
Proof. destruct items; [done|]. intros _. by left. Qed.

(** No entry line and no fixed line is a section header, and the
    headers differ. *)
Lemma header_in_nav_lines h sub a b c :
  In (h, sub) sections ->
  In h ([u "nav:"; u "  - Home: index.md"]
        ++ section_lines LLM_HEADER a
        ++ section_lines AGENT_HEADER b
        ++ section_lines SCIENCE_HEADER c
        ++ [u "  - About: about.md"]) <->
  (sub = u "llm" /\ a <> []) \/ (sub = u "agents" /\ b <> [])
  \/ (sub = u "ai_for_science" /\ c <> []).
Proof.
  intros Hsec. simpl in Hsec. rewrite !in_app_iff.
  destruct Hsec as [[= <- <-]|[[= <- <-]|[[= <- <-]|[]]]]; split.
  all: try (intros [[Hs Hne]|[[Hs Hne]|[Hs Hne]]];
            try (by vm_compute in Hs);
            right; first [left; by apply header_in_section_lines
                         |right; left; by apply header_in_section_lines
                         |right; right; left;
                          by apply header_in_section_lines]).
  all: intros [Hfix|[Hin|[Hin|[Hin|Hfix]]]];
    try (destruct Hfix as [Hfix|[Hfix|[]]]; by vm_compute in Hfix);
    try (destruct Hfix as [Hfix|[]]; by vm_compute in Hfix);
    apply in_section_lines in Hin as [Hne [Heq|(title & rel & Heq)]];
    try (by vm_compute in Heq); eauto.
Qed.

(** A directory that is missing, is a file or is empty holds no
    article. *)
Lemma no_article_in_empty (t : fs) dir :
  is_dir t dir = false \/ lookup dir t = Some (Dir []) ->
  ~ contains_article t dir.
Proof.
  intros Hdir (q & Hne & Hf & _). unfold is_file, is_dir in *.
  rewrite lookup_app in Hf.
  destruct Hdir as [Hdir|Hdir].
  - destruct (lookup dir t) as [[d|es]|]; try done. by destruct q.
  - rewrite Hdir in Hf. by destruct q.
Qed.

(** The only exception that [_read_title] lets through is the
    decoding error. *)
Lemma read_title_raises_only_decode p (t t' : fs) e :
  _read_title p t = (Raise e, t') -> e = UnicodeDecodeError.
Proof.
  unfold _read_title, read_text, read_bytes, try_except, bind, ret, raise.
  cbv beta.
  destruct (resolve p t) as [e0|[d|es]] eqn:Hr; simpl.
  - by destruct (resolve_error _ _ _ Hr) as [->| ->]; simpl.
  - destruct (decode_utf8 d); simpl.
    + by destruct (first_heading _).
    + by intros [= <- _].
  - done.
Qed.
End Render.

(** ** The search for the marker line *)

Lemma startswith_first_line (pre s : list N) :
  ~ In Chr.LF pre ->
  startswith pre (fst (split_lf s)) = startswith pre s.
Proof.
  revert s. induction pre as [|a pre IH]; intros s Hlf; [done|].
  destruct s as [|c s]; [done|]. simpl.
  destruct (split_lf s) as [l ls] eqn:Hs.
  destruct (c =? Chr.LF) eqn:Hc; simpl.
  - apply N.eqb_eq in Hc as ->.
    destruct (a =? Chr.LF) eqn:Ha; [|done].
    apply N.eqb_eq in Ha as ->. destruct Hlf. by left.
  - rewrite <- (IH s); [by rewrite Hs|]. intros Hin. apply Hlf. by right.
Qed.

Lemma drop_first_line (pre s : list N) :
  ~ In Chr.LF pre -> startswith pre s = true ->
  drop (length pre) (fst (split_lf s)) = fst (split_lf (drop (length pre) s)).
Proof.
  revert s. induction pre as [|a pre IH]; intros s Hlf; [done|].
  destruct s as [|c s]; [done|]. simpl.
  intros [Hac Hpre]%andb_prop. apply N.eqb_eq in Hac as <-.
  destruct (split_lf s) as [l ls] eqn:Hs.
  destruct (a =? Chr.LF) eqn:Ha.
  - apply N.eqb_eq in Ha as ->. destruct Hlf. by left.
  - simpl. rewrite <- (IH s); [by rewrite Hs| |done].
    intros Hin. apply Hlf. by right.
Qed.

Lemma ws_to_eol_first_line (s : list N) :
  ws_to_eol s = forallb isspace (fst (split_lf s)).
Proof.
  induction s as [|c s IH]; [done|]. simpl.
  destruct (split_lf s) as [l ls]. destruct (c =? Chr.LF); simpl; [done|].
  by rewrite IH.
Qed.

(** The regular expression matches at the start of a line exactly when
    the line is a header token followed by white space. *)
Lemma nav_match_here_first_line (s : list N) :
  nav_match_here s = loose_marker (fst (split_lf s)).
Proof.
  unfold nav_match_here, loose_marker.
  assert (~ In Chr.LF (u "nav:")) as Hlf.
  { vm_compute. intros [?|[?|[?|[?|[]]]]]; discriminate. }
  rewrite (startswith_first_line _ s Hlf).
  destruct (startswith (u "nav:") s) eqn:Hpre; [|done]. simpl.
  rewrite ws_to_eol_first_line.
  pose proof (drop_first_line (u "nav:") s Hlf Hpre) as Hdrop.
  change (length (u "nav:")) with 4%nat in Hdrop. by rewrite Hdrop.
Qed.

Lemma nav_search_from_lines (s : list N) (pos : nat) :
  nav_search_from true pos s
  = first_line_offset loose_marker pos (lines_of s)
  /\ nav_search_from false pos s
     = first_line_offset loose_marker
         (pos + S (length (fst (split_lf s)))) (snd (split_lf s)).
Proof.
  revert pos. induction s as [|c s IH]; intros pos; [done|].
  pose proof (nav_match_here_first_line (c :: s)) as Hhere.
  unfold lines_of in *. simpl in *.
  destruct (IH (S pos)) as [IHt IHf].
  destruct (split_lf s) as [l ls] eqn:Hs.
  destruct (c =? Chr.LF) eqn:Hc; simpl in *.
  - rewrite Hhere.
    replace (pos + 1)%nat with (S pos) by lia.
    rewrite IHt. by cbn.
  - rewrite Hhere, IHf.
    replace (pos + S (S (length l)))%nat with (S pos + S (length l))%nat by lia.
    done.
Qed.

Lemma nav_search_lines (text : list N) :
  nav_search text = first_line_offset loose_marker 0 (lines_of text).
Proof. apply nav_search_from_lines. Qed.

(** ** The selection parser *)

Lemma sorted_le_nodup_lt (l : list Z) :
  StronglySorted Z.le l -> NoDup l -> StronglySorted Z.lt l.
Proof.
  induction 1 as [|a l Hs IH Hle]; intros Hnd; constructor.
  - apply IH. by apply NoDup_cons_1_2 in Hnd.
  - apply NoDup_cons_1_1 in Hnd.
    apply Forall_forall. intros x Hx.
    pose proof (proj1 (Forall_forall _ _) Hle x Hx) as Hax.
    assert (a <> x) by (intros ->; done). lia.
Qed.

Lemma range_spec (lo hi i : Z) : In i (range lo hi) <-> (lo <= i < hi)%Z.
Proof.
  unfold range. rewrite in_map_iff. split.
  - intros (k & <- & Hk%in_seq). lia.
  - intros Hi. exists (Z.to_nat (i - lo)). split; [lia|].
    apply in_seq. lia.
Qed.

Lemma foldl_add_spec (l : list Z) (X : gset Z) (i : Z) :
  i ∈ foldl (fun s j => s ∪ {[ j ]}) X l <-> i ∈ X \/ In i l.
Proof.
  revert X. induction l as [|j l IH]; intros X; simpl.
  - split; [by left|by intros [?|[]]].
  - rewrite IH, elem_of_union, elem_of_singleton. intuition congruence.
Qed.

Lemma split_once_from_app (c : N) (cur pre post : list N) :
  ~ In c pre ->
  split_once_from c cur (pre ++ c :: post) = Some (rev cur ++ pre, post).
Proof.
  revert cur. induction pre as [|d pre IH]; intros cur Hc; simpl.
  - by rewrite N.eqb_refl, app_nil_r.
  - destruct (d =? c) eqn:Hd.
    + apply N.eqb_eq in Hd as ->. destruct Hc. by left.
    + rewrite IH; [|intros ?; apply Hc; by right].
      simpl. by rewrite <- app_assoc.
Qed.

(** A range token adds the integers between its two numbers, whichever
    comes first. *)
Lemma add_part_range (start_s end_s : list N) (a b : Z)
    (indices : gset Z) (w : world) :
  ~ In Chr.minus start_s ->
  py_int start_s = Some a -> py_int end_s = Some b ->
  exists X : gset Z,
    add_part (start_s ++ Chr.minus :: end_s) indices w = (Ret X, w)
    /\ forall i : Z,
         i ∈ X <-> i ∈ indices \/ (Z.min a b <= i <= Z.max a b)%Z.
Proof.
  intros Hminus Ha Hb. unfold add_part.
  rewrite existsb_app. simpl. rewrite orb_true_r.
  unfold split_once. rewrite (split_once_from_app _ [] _ _ Hminus). simpl.
  unfold int, bind, ret. rewrite Ha, Hb.
  pose proof (Zgt_cases a b) as Hcmp.
  destruct (a >? b)%Z; eexists; (split; [done|]); intros i;
    rewrite foldl_add_spec, range_spec; intuition lia.
Qed.

Section Select.
Context `{Host}.

(** What [_prompt_indices] returns: nothing, or the sorted indices in
    range of a set. *)
Lemma prompt_indices_returns (items : list (list N)) prompt w w' l :
  _prompt_indices items prompt w = (Ret l, w') ->
  l = []
  \/ exists indices : gset Z,
       l = merge_sort Z.le
             (List.filter
                (fun i => (1 <=? i)%Z && (i <=? Z.of_nat (length items))%Z)
                (elements indices)).
Proof.
  unfold _prompt_indices. destruct items as [|item items].
  { intros [= <- _]. by left. }
  intros Hrun.
  apply bind_ret_inv in Hrun as ([] & w1 & _ & Hrun).
  apply bind_ret_inv in Hrun as (line & w2 & _ & Hrun).
  destruct (strip line) as [|c raw].
  { injection Hrun as <- _. by left. }
  destruct (bool_decide _); [done|].
  apply bind_ret_inv in Hrun as (indices & w3 & _ & Hrun).
  right. exists indices.
  destruct (merge_sort _ _); [done|]. by injection Hrun as <- _.
Qed.
End Select.

(** ** What the moves leave alone *)

Global Instance unchanged_at_preorder q : PreOrder (unchanged_at q).
Proof.
  split.
  - by intros t.
  - intros t1 t2 t3 H12 H23. unfold unchanged_at in *. congruence.
Qed.

Lemma apart_sym (p q : list (list N)) : apart p q -> apart q p.
Proof. by intros [? ?]. Qed.

Lemma apart_app_r (p q : list (list N)) x : apart p q -> apart (p ++ [x]) q.
Proof.
  intros [Hpq Hqp]. split.
  - intros Hpre. apply Hpq. by apply (prefix_app_l _ _ [x]).
  - intros [r Hr]. destruct (decide (r = [])) as [->|Hne].
    + rewrite app_nil_r in Hr. apply Hpq. by exists [x].
    + apply Hqp. exists (removelast r).
      rewrite (app_removelast_last [] Hne), app_assoc in Hr.
      by apply app_inj_tail in Hr as [-> _].
Qed.

(** Two different names in one directory, and what is below them. *)
Lemma apart_siblings (dir : list (list N)) (a c : list N) (p q : list (list N)) :
  a <> c -> apart (dir ++ a :: p) (dir ++ c :: q).
Proof.
  intros Hne. split; intros Hpre%prefix_app_inv;
    by apply prefix_cons_inv_1 in Hpre.
Qed.

Lemma not_prefix_parent (p q : list (list N)) :
  ~ q `prefix_of` p -> ~ q `prefix_of` parent p.
Proof.
  intros Hq Hpre. apply Hq. destruct (decide (p = [])) as [->|Hne]; [done|].
  rewrite (app_removelast_last [] Hne). by apply prefix_app_r.
Qed.

Section Frame.
Context (q : list (list N)).

Lemma keeps_mkdir_parents p :
  ~ q `prefix_of` p -> keeps (unchanged_at q) (Path_mkdir_parents p).
Proof.
  intros Hq t r t'. unfold Path_mkdir_parents, lift_result.
  destruct (mkdir_p p t) as [e|t1] eqn:Hmk; intros [= <- <-]; [done|].
  by apply (mkdir_p_frame _ _ _ _ Hmk).
Qed.

Lemma keeps_mkdir_exist_ok p :
  apart p q -> keeps (unchanged_at q) (Path_mkdir_exist_ok p).
Proof.
  intros [Hpq Hqp]. kapply keeps_try_except; [|].
  - intros t r t'. unfold lift_result.
    destruct (os_mkdir p t) as [e|t1] eqn:Hmk; intros [= <- <-]; [done|].
    by apply (os_mkdir_frame _ _ _ _ Hmk).
  - intros e k. destruct (_ && _); [|done]. intros [= <-].
    kapply keeps_bind; [keeps_leaf|].
    intros []; keeps_leaf.
Qed.

Lemma keeps_unlink p : apart p q -> keeps (unchanged_at q) (Path_unlink p).
Proof.
  intros [Hpq Hqp] t r t'. unfold Path_unlink.
  destruct (resolve p t) as [e|[d|es]]; intros [= <- <-]; try done.
  by apply remove_at_frame.
Qed.

Lemma keeps_os_rename src dst :
  apart src q -> apart dst q -> keeps (unchanged_at q) (os_rename src dst).
Proof.
  intros [Hsq Hqs] [Hdq Hqd] t r t'. unfold os_rename.
  destruct (resolve src t) as [e|n]; [by intros [= <- <-]|].
  destruct (decide (src = dst)); [by intros [= <- <-]|].
  destruct (resolve (parent dst) t) as [e|[d|es]]; try by intros [= <- <-].
  assert ((if decide (src `prefix_of` dst) then (Raise OSError, t)
           else match put_at dst n (remove_at src t) with
                | Some t'0 => (Ret (), t'0)
                | None => (Raise OSError, t)
                end) = (r, t') -> unchanged_at q t t') as Hput.
  { destruct (decide _); [by intros [= <- <-]|].
    destruct (put_at dst n (remove_at src t)) as [t2|] eqn:Hp;
      intros [= <- <-]; [|done].
    unfold unchanged_at.
    rewrite (put_at_frame _ _ _ _ _ Hp Hdq Hqd). by apply remove_at_frame. }
  destruct n as [d|es']; destruct (lookup dst t) as [[d'|[|e' es'']]|];
    try done; by intros [= <- <-].
Qed.

Lemma keeps_shutil_move src dst :
  apart src q -> apart dst q -> keeps (unchanged_at q) (shutil_move src dst).
Proof.
  intros Hs Hd. kapply keeps_bind; [keeps_leaf|].
  intros []; [|by apply keeps_os_rename].
  destruct (decide _); [by apply keeps_os_rename|].
  kapply keeps_bind; [keeps_leaf|].
  intros []; [keeps_leaf|]. apply keeps_os_rename; [done|].
  by apply apart_app_r.
Qed.

(** A move touches its source and its destination only. *)
Lemma keeps_move_article src_root dst_root relpath force :
  apart (src_root ++ relpath) q -> apart (dst_root ++ relpath) q ->
  keeps (unchanged_at q) (_move_article src_root dst_root relpath force).
Proof.
  intros Hs Hd. unfold _move_article.
  kapply keeps_bind; [|intros _].
  { apply keeps_mkdir_parents, not_prefix_parent, Hd. }
  kapply keeps_bind; [|intros _].
  - kapply keeps_bind; [keeps_leaf|].
    intros []; [|keeps_leaf].
    destruct (negb force); [keeps_leaf|].
    kapply keeps_bind; [keeps_leaf|].
    intros []; [keeps_leaf|by apply keeps_unlink].
  - by apply keeps_shutil_move.
Qed.
End Frame.

(** ** The interactive run *)

Section Interactive.
Context `{Host}.

(** The configuration document is apart from both stores. *)
Lemma docs_apart_yml relpath : apart (DOCS_DIR ++ relpath) MKDOCS_YML.
Proof.
  unfold DOCS_DIR, MKDOCS_YML. rewrite <- app_assoc. simpl.
  apply apart_siblings. by vm_compute.
Qed.

Lemma drafts_apart_yml relpath : apart (DRAFTS_DIR ++ relpath) MKDOCS_YML.
Proof.
  unfold DRAFTS_DIR, MKDOCS_YML. rewrite <- app_assoc. simpl.
  apply apart_siblings. by vm_compute.
Qed.

Section OnFs.
Context (R : relation node) `{!PreOrder R}.

Lemma keeps_int {S} (Q : relation S) `{!PreOrder Q} s : keeps Q (@int S s).
Proof. unfold int. destruct (py_int s); keeps_leaf. Qed.

Lemma keeps_add_part part indices : keeps (on_fs R) (add_part part indices).
Proof.
  unfold add_part. destruct (existsb _ _).
  - destruct (split_once _ _) as [[start_s end_s]|]; [|keeps_leaf].
    kapply keeps_bind; [kapply keeps_int|intros a].
    kapply keeps_bind; [kapply keeps_int|intros b'].
    destruct (a >? b')%Z; keeps_leaf.
  - kapply keeps_bind; [kapply keeps_int|intros a].
    keeps_leaf.
Qed.

Lemma keeps_add_parts parts indices :
  keeps (on_fs R) (add_parts parts indices).
Proof.
  revert indices. induction parts as [|part parts IH]; intros indices.
  - simpl. keeps_leaf.
  - simpl. destruct part; [apply IH|].
    kapply keeps_bind; [apply keeps_add_part|].
    intros ?. apply IH.
Qed.

(** The prompt only uses the terminal. *)
Lemma keeps_prompt_indices items prompt :
  keeps (on_fs R) (_prompt_indices items prompt).
Proof.
  unfold _prompt_indices. destruct items as [|item items]; [keeps_leaf|].
  kapply keeps_bind; [|intros _].
  { kapply keeps_for_each. intros [idx it].
    kapply keeps_print. }
  kapply keeps_bind; [kapply keeps_input|intros line].
  destruct (strip line); [keeps_leaf|].
  destruct (bool_decide _); [keeps_leaf|].
  kapply keeps_bind; [apply keeps_add_parts|].
  intros indices. destruct (merge_sort _ _); keeps_leaf.
Qed.

Lemma keeps_print_articles l : keeps (on_fs R) (print_articles l).
Proof.
  destruct l as [|a0 l]; [kapply keeps_print|].
  kapply keeps_for_each. intros a.
  kapply keeps_print.
Qed.

Lemma keeps_list : keeps (on_fs R) _list.
Proof.
  unfold _list.
  kapply keeps_bind; [kapply keeps_print|intros _].
  kapply keeps_bind; [|intros published].
  { kapply keeps_lift_fs; [keeps_leaf]. }
  kapply keeps_bind; [apply keeps_print_articles|intros _].
  kapply keeps_bind; [kapply keeps_print|intros _].
  kapply keeps_bind; [|intros drafts].
  { kapply keeps_lift_fs; [keeps_leaf]. }
  kapply keeps_bind; [apply keeps_print_articles|intros _].
  keeps_leaf.
Qed.
End OnFs.

(** Down to the selection, the run leaves the configuration document
    as it is. *)
Lemma keeps_choose_and_pick :
  keeps (on_fs (unchanged_at MKDOCS_YML)) choose_and_pick.
Proof.
  unfold choose_and_pick.
  kapply keeps_bind; [|intros _].
  { kapply keeps_lift_fs.
    apply keeps_mkdir_exist_ok.
    rewrite <- (app_nil_r DRAFTS_DIR). apply drafts_apart_yml. }
  do 4 (kapply keeps_bind; [kapply keeps_print|intros _]).
  kapply keeps_bind; [kapply keeps_input|intros line].
  destruct (bool_decide _); [keeps_leaf|].
  destruct (bool_decide _).
  { kapply keeps_bind; [kapply keeps_list|intros code].
    keeps_leaf. }
  assert (forall src_root dst_root (articles : node -> list Article) label,
    keeps (on_fs (unchanged_at MKDOCS_YML))
      (let* src_items := lift_fs (gets articles) in
       match src_items with
       | [] =>
           print (u "No articles available to " ++ str_lower label ++ u ".") ;;
           ret (Done 0)
       | _ =>
           let display := map (fun a => as_posix (relpath a)) src_items in
           try_except
             (let* picked :=
                _prompt_indices display
                  (u "Select items (e.g. 1 2 5-7), Enter to cancel: ") in
              ret (Picked src_root dst_root src_items label picked))
             (fun e =>
                match as_ValueError e with
                | Some msg => Some (print_err msg ;; ret (Done 2))
                | None => None
                end)
       end)) as Hrest.
  { intros src_root dst_root articles label.
    kapply keeps_bind; [|intros src_items].
    { kapply keeps_lift_fs; [keeps_leaf]. }
    destruct src_items as [|a src_items].
    - kapply keeps_bind; [kapply keeps_print|intros _].
      keeps_leaf.
    - kapply keeps_try_except; [|].
      + apply keeps_bind;
          [typeclasses eauto
          |kapply keeps_prompt_indices|intros picked].
        keeps_leaf.
      + intros e k. destruct (as_ValueError e); [|done]. intros [= <-].
        kapply keeps_bind; [kapply keeps_print_err
          |intros _].
        keeps_leaf. }
  destruct (bool_decide _); [apply Hrest|].
  destruct (bool_decide _); [apply Hrest|].
  kapply keeps_bind; [kapply keeps_print_err|intros _].
  keeps_leaf.
Qed.

(** The stores picked are the two stores of the site. *)
Lemma returns_choose_and_pick : returns stores_of choose_and_pick.
Proof.
  unfold choose_and_pick.
  do 6 (apply returns_bind; intros ?).
  destruct (bool_decide _); [by apply returns_ret|].
  destruct (bool_decide _).
  { apply returns_bind. intros code. by apply returns_ret. }
  assert (forall src_root dst_root (articles : node -> list Article) label,
    (src_root = DOCS_DIR /\ dst_root = DRAFTS_DIR)
    \/ (src_root = DRAFTS_DIR /\ dst_root = DOCS_DIR) ->
    returns stores_of
      (let* src_items := lift_fs (gets articles) in
       match src_items with
       | [] =>
           print (u "No articles available to " ++ str_lower label ++ u ".") ;;
           ret (Done 0)
       | _ =>
           let display := map (fun a => as_posix (relpath a)) src_items in
           try_except
             (let* picked :=
                _prompt_indices display
                  (u "Select items (e.g. 1 2 5-7), Enter to cancel: ") in
              ret (Picked src_root dst_root src_items label picked))
             (fun e =>
                match as_ValueError e with
                | Some msg => Some (print_err msg ;; ret (Done 2))
                | None => None
                end)
       end)) as Hrest.
  { intros src_root dst_root articles label Hstores.
    apply returns_bind. intros src_items.
    destruct src_items as [|a src_items].
    - apply returns_bind. intros _. by apply returns_ret.
    - apply returns_try_except.
      + apply returns_bind. intros picked. by apply returns_ret.
      + intros e k. destruct (as_ValueError e); [|done]. intros [= <-].
        apply returns_bind. intros _. by apply returns_ret. }
  destruct (bool_decide _); [apply Hrest; by left|].
  destruct (bool_decide _); [apply Hrest; by right|].
  apply returns_bind. intros _. by apply returns_ret.
Qed.

(** The moves of the batch leave the configuration document as it
    is. *)
Lemma keeps_move_picked src_root dst_root src_items label force picked :
  (src_root = DOCS_DIR /\ dst_root = DRAFTS_DIR)
  \/ (src_root = DRAFTS_DIR /\ dst_root = DOCS_DIR) ->
  keeps (on_fs (unchanged_at MKDOCS_YML))
    (move_picked src_root dst_root src_items label force picked).
Proof.
  intros Hstores. kapply keeps_for_each. intros idx.
  kapply keeps_bind; [|intros article].
  { unfold index. destruct (_ <? 0)%Z; [keeps_leaf|].
    destruct (_ !! _); keeps_leaf. }
  kapply keeps_bind; [|intros _].
  - kapply keeps_lift_fs.
    destruct Hstores as [[-> ->]|[-> ->]]; apply keeps_move_article;
      first [apply docs_apart_yml|apply drafts_apart_yml].
  - kapply keeps_print.
Qed.
End Interactive.

(** ** Titles *)

Lemma filter_filter_same {A} (f : A -> bool) (l : list A) :
  List.filter f (List.filter f l) = List.filter f l.
Proof.
  induction l as [|x l IH]; simpl; [done|].
  destruct (f x) eqn:Hx; simpl; [|done]. by rewrite Hx, IH.
Qed.

(** The words of a text do not depend on the white space around it. *)
Lemma words_lstrip (s : list N) (in_sep in_sep' : bool) :
  List.filter (fun w => negb (Nat.eqb (length w) 0))
    (split_runs_from isspace [] in_sep s)
  = List.filter (fun w => negb (Nat.eqb (length w) 0))
      (split_runs_from isspace [] in_sep' (lstrip s)).
Proof.
  revert in_sep. induction s as [|c s IH]; intros in_sep; [done|]. simpl.
  destruct (isspace c) eqn:Hc; [|by simpl; rewrite Hc].
  destruct in_sep; simpl; apply IH.
Qed.

Lemma words_all_space (ws cur : list N) (in_sep : bool) :
  forallb isspace ws = true -> (in_sep = true -> cur = []) ->
  List.filter (fun w => negb (Nat.eqb (length w) 0))
    (split_runs_from isspace cur in_sep ws)
  = List.filter (fun w => negb (Nat.eqb (length w) 0)) [rev cur].
Proof.
  revert cur in_sep. induction ws as [|c ws IH]; intros cur in_sep; [done|].
  simpl. intros [Hc Hws]%andb_prop Hinv. rewrite Hc.
  destruct in_sep.
  - rewrite (Hinv eq_refl). by apply IH.
  - simpl. rewrite (IH [] true Hws (fun _ => eq_refl)). simpl.
    by destruct (negb _).
Qed.

Lemma words_trailing_space (s ws cur : list N) (in_sep : bool) :
  forallb isspace ws = true -> (in_sep = true -> cur = []) ->
  List.filter (fun w => negb (Nat.eqb (length w) 0))
    (split_runs_from isspace cur in_sep (s ++ ws))
  = List.filter (fun w => negb (Nat.eqb (length w) 0))
      (split_runs_from isspace cur in_sep s).
Proof.
  intros Hws. revert cur in_sep.
  induction s as [|c s IH]; intros cur in_sep Hinv.
  - simpl. by apply words_all_space.
  - simpl. destruct (isspace c).
    + destruct in_sep; simpl; by rewrite IH.
    + by apply IH.
Qed.

Lemma lstrip_decompose (s : list N) :
  exists ws, s = ws ++ lstrip s /\ forallb isspace ws = true.
Proof.
  induction s as [|c s (ws & Hs & Hws)]; [by exists []|]. simpl.
  destruct (isspace c) eqn:Hc.
  - exists (c :: ws). simpl. rewrite Hc, Hws. split; [by f_equal|done].
  - by exists [].
Qed.

Lemma rstrip_decompose (s : list N) :
  exists ws, s = rstrip s ++ ws /\ forallb isspace ws = true.
Proof.
  destruct (lstrip_decompose (rev s)) as (ws & Hs & Hws).
  exists (rev ws). unfold rstrip. split.
  - rewrite <- rev_app_distr, <- Hs. by rewrite rev_involutive.
  - rewrite forallb_forall in *. intros c Hin. apply Hws. by apply in_rev.
Qed.

Lemma split_ws_strip (s : list N) : split_ws (strip s) = split_ws s.
Proof.
  unfold split_ws, split_runs, strip.
  rewrite <- (words_lstrip (rstrip s) false false).
  destruct (rstrip_decompose s) as (ws & Hs & Hws).
  rewrite Hs at 2. by rewrite words_trailing_space.
Qed.

Section Title.
Context `{Host}.

(** [_read_title] in all its cases: a file that is not UTF-8 raises;
    anything else gives the first heading, or the fallback title of the
    specification when there is no heading or no readable file. *)
Lemma read_title_cases (p : list (list N)) (t : fs) :
  _read_title p t =
  match lookup p t with
  | Some (File data) =>
      match decode_utf8 data with
      | None => (Raise UnicodeDecodeError, t)
      | Some s =>
          (Ret (match first_heading (splitlines (universal_newlines s)) with
                | Some title => title
                | None => spec_fallback_title (stem (name p))
                end), t)
      end
  | _ => (Ret (spec_fallback_title (stem (name p))), t)
  end.
Proof.
  assert (forall base,
    join (u " ")
      (map (fun w => str_upper (take 1 w) ++ drop 1 w)
         (List.filter (fun w => negb (Nat.eqb (length w) 0))
            (split_ws
               (strip (replace_char Chr.minus Chr.SP
                         (replace_char Chr.underscore Chr.SP base))))))
    = spec_fallback_title base) as Hfallback.
  { intros base. unfold spec_fallback_title.
    rewrite split_ws_strip. unfold split_ws. by rewrite filter_filter_same. }
  unfold _read_title, read_text, read_bytes, try_except, bind, ret, raise, lookup.
  cbv beta.
  destruct (resolve p t) as [e|[data|es]] eqn:Hr; simpl.
  - destruct (resolve_error _ _ _ Hr) as [->| ->]; simpl; by rewrite Hfallback.
  - destruct (decode_utf8 data); simpl; [|done].
    destruct (first_heading _); [done|]. by rewrite Hfallback.
  - by rewrite Hfallback.
Qed.
End Title.

(** ** Successful moves *)

Lemma lookup_prefix_exists (p r : list (list N)) (t : fs) :
  is_Some (lookup (p ++ r) t) -> is_Some (lookup p t).
Proof.
  rewrite lookup_app. destruct (lookup p t); [eauto|by intros [? [=]]].
Qed.

Lemma parent_not_nil_prefix (p q : list (list N)) :
  p `prefix_of` q -> p <> q -> p `prefix_of` parent q.
Proof.
  intros [r ->] Hne. destruct (decide (r = [])) as [->|Hr].
  - by rewrite app_nil_r in Hne.
  - exists (removelast r). unfold parent. by rewrite removelast_app.
Qed.

Lemma not_prefix_of_parent (p : list (list N)) :
  p <> [] -> ~ p `prefix_of` parent p.
Proof.
  intros Hne Hpre. unfold parent in Hpre.
  rewrite (app_removelast_last [] Hne) in Hpre at 1.
  by apply prefix_snoc_not in Hpre.
Qed.

Lemma put_at_cons x x' (p : list (list N)) new es :
  put_at (x :: x' :: p) new (Dir es) =
  match assoc x es with
  | None => None
  | Some c =>
      match put_at (x' :: p) new c with
      | None => None
      | Some c' => Some (Dir (set_entry x c' es))
      end
  end.
Proof. done. Qed.

(** Something can be placed wherever the parent is a directory. *)
Lemma put_at_succeeds (p : list (list N)) new (t : fs) es :
  p <> [] -> lookup (parent p) t = Some (Dir es) ->
  is_Some (put_at p new t).
Proof.
  revert t. induction p as [|x p IH]; intros t Hne; [done|].
  destruct t as [d|es0].
  { unfold parent. destruct p; [done|]. simpl removelast.
    by rewrite lookup_cons_file. }
  destruct p as [|x' p]; [by eexists|].
  change (parent (x :: x' :: p)) with (x :: parent (x' :: p)).
  rewrite lookup_cons_dir, put_at_cons.
  destruct (assoc x es0) as [c|]; [|done].
  intros Hpar. destruct (IH c) as [c' Hc']; [done|done|].
  rewrite Hc'. by eexists.
Qed.

(** Removing what is not above a directory leaves a directory there. *)
Lemma remove_at_keeps_dir (p q : list (list N)) (t : fs) es :
  lookup q t = Some (Dir es) -> ~ p `prefix_of` q ->
  exists es', lookup q (remove_at p t) = Some (Dir es').
Proof.
  revert q t es. induction p as [|x p IH]; intros q t es Hq Hpre.
  { destruct Hpre. apply prefix_nil. }
  destruct t as [d|es0]; [by eauto|].
  destruct q as [|y q].
  { simpl. destruct p; [by eauto|]. destruct (assoc x es0); by eauto. }
  rewrite lookup_cons_dir in Hq. simpl. destruct p as [|x' p].
  - rewrite lookup_cons_dir. destruct (decide (x = y)) as [->|Hne].
    + destruct Hpre. apply prefix_cons, prefix_nil.
    + rewrite assoc_del_entry_ne; [|done].
      destruct (assoc y es0); [by eauto|done].
  - destruct (assoc x es0) as [c|] eqn:Hc.
    + rewrite lookup_cons_dir. destruct (decide (x = y)) as [->|Hne].
      * rewrite assoc_set_entry_eq. rewrite Hc in Hq.
        apply (IH _ _ _ Hq). intros ?. apply Hpre. by apply prefix_cons.
      * rewrite assoc_set_entry_ne; [|done].
        destruct (assoc y es0); [by eauto|done].
    + rewrite lookup_cons_dir. destruct (assoc y es0); [by eauto|done].
Qed.

Lemma mkdir_p_makes_dir (p : list (list N)) (t t' : fs) :
  mkdir_p p t = inr t' -> exists es, lookup p t' = Some (Dir es).
Proof.
  revert t t'. induction p as [|x p IH]; intros t t'.
  - simpl. destruct t; [done|]. intros [= <-]. by eauto.
  - destruct t as [d|es0]; [done|]. simpl.
    destruct (assoc x es0) as [c|].
    + destruct (mkdir_p p c) as [e|c'] eqn:Hmk; [done|].
      intros [= <-]. rewrite lookup_cons_dir, assoc_set_entry_eq.
      by apply (IH _ _ Hmk).
    + intros [= <-]. rewrite lookup_cons_dir, assoc_set_entry_eq.
      clear. induction p as [|y p IHp]; simpl; [by eauto|].
      rewrite lookup_cons_dir. simpl. by rewrite decide_True.
Qed.

(** [mkdir_p] succeeds when no regular file is on the way. *)
Lemma mkdir_p_succeeds (p : list (list N)) (t : fs) :
  (forall q, q `prefix_of` p -> is_file t q = false) ->
  exists t', mkdir_p p t = inr t'.
Proof.
  revert t. induction p as [|x p IH]; intros t Hfiles.
  - specialize (Hfiles [] (prefix_nil _)). destruct t; [done|]. by eexists.
  - pose proof (Hfiles [] (prefix_nil _)) as Hroot.
    destruct t as [d|es]; [done|]. simpl.
    destruct (assoc x es) as [c|] eqn:Hc; [|by eexists].
    destruct (IH c) as [c' Hc'].
    + intros q Hq. specialize (Hfiles (x :: q) (prefix_cons _ _ _ Hq)).
      unfold is_file in *. by rewrite lookup_cons_dir, Hc in Hfiles.
    + rewrite Hc'. by eexists.
Qed.

(** [shutil.move] of a regular file to a free path in a directory. *)
Lemma shutil_move_fresh (src dst : list (list N)) (t : fs) data es :
  lookup src t = Some (File data) ->
  lookup dst t = None ->
  lookup (parent dst) t = Some (Dir es) ->
  ~ src `prefix_of` dst ->
  exists t', shutil_move src dst t = (Ret tt, t')
             /\ lookup dst t' = Some (File data)
             /\ lookup src t' = None.
Proof.
  intros Hsrc Hdst Hpar Hpre.
  assert (src <> dst) as Hne by (intros ->; by destruct Hpre).
  assert (src <> []) as Hsnil by (intros ->; destruct Hpre; apply prefix_nil).
  assert (dst <> []) as Hdnil by (intros ->; by rewrite lookup_nil in Hdst).
  assert (~ src `prefix_of` parent dst) as Hpre'.
  { intros H. apply Hpre. unfold parent in H.
    rewrite (app_removelast_last [] Hdnil). by apply prefix_app_r. }
  destruct (remove_at_keeps_dir src _ t es Hpar Hpre') as [es' Hpar'].
  destruct (put_at_succeeds dst (File data) (remove_at src t) es' Hdnil Hpar')
    as [t' Hput].
  exists t'. split; [|split].
  - unfold shutil_move, bind, gets, is_dir. rewrite Hdst.
    unfold os_rename.
    apply lookup_resolve in Hsrc as ->. apply lookup_resolve in Hpar as ->.
    rewrite decide_False by done. rewrite Hdst.
    rewrite decide_False by done. by rewrite Hput.
  - by apply (put_at_lookup _ _ _ _ Hput).
  - rewrite (put_at_frame _ _ _ _ _ Hput).
    + by apply remove_at_gone.
    + intros [r ->]. rewrite lookup_app, Hdst in Hsrc. done.
    + done.
Qed.

(** ** The order of the scan *)

Lemma str_ltb_asym (a c : list N) : str_ltb a c = true -> str_ltb c a = false.
Proof.
  revert c. induction a as [|x a IH]; intros [|y c]; simpl; try done.
  intros [Hlt|[Heq Hrec]%andb_prop]%orb_prop.
  - apply N.ltb_lt in Hlt.
    rewrite (proj2 (N.ltb_ge y x)) by lia. simpl.
    rewrite (proj2 (N.eqb_neq y x)) by lia. done.
  - apply N.eqb_eq in Heq as ->. rewrite N.ltb_irrefl, N.eqb_refl. simpl.
    by apply IH.
Qed.

(** [a <= c] and [c <= d] give [a <= d], where [a <= c] reads
    [str_ltb c a = false]. *)
Lemma str_le_trans (a c d : list N) :
  str_ltb c a = false -> str_ltb d c = false -> str_ltb d a = false.
Proof.
  revert c d. induction a as [|x a IH]; intros c d; [by destruct d|].
  destruct c as [|y c]; [done|]. destruct d as [|z d]; [done|]. simpl.
  intros [Hyx Hca]%orb_false_elim [Hzy Hdc]%orb_false_elim.
  apply N.ltb_ge in Hyx, Hzy.
  apply orb_false_intro; [apply N.ltb_ge; lia|].
  destruct (z =? x) eqn:Hzx; [|done]. apply N.eqb_eq in Hzx as ->.
  assert (y = x) as -> by lia.
  rewrite N.eqb_refl in Hca, Hdc. simpl in *. by apply (IH c d).
Qed.

Lemma insert_by_sorted {A} (key : A -> list N) x (l : list A) :
  StronglySorted (fun a c => str_ltb (key c) (key a) = false) l ->
  StronglySorted (fun a c => str_ltb (key c) (key a) = false)
    (insert_by key x l).
Proof.
  induction 1 as [|y l Hs IH Hall]; simpl; [by repeat constructor|].
  destruct (str_ltb (key y) (key x)) eqn:Hyx.
  - constructor; [done|].
    apply Forall_forall. intros z Hz. apply list_elem_of_In in Hz.
    apply (Permutation_in _ (insert_by_perm key x l)) in Hz as [<-|Hz].
    + by apply str_ltb_asym.
    + apply (proj1 (Forall_forall _ _) Hall). by apply list_elem_of_In.
  - constructor; [by constructor|]. constructor; [done|].
    apply Forall_forall. intros z Hz.
    apply (str_le_trans _ (key y)); [done|].
    by apply (proj1 (Forall_forall _ _) Hall).
Qed.

Lemma sorted_by_sorted {A} (key : A -> list N) (l : list A) :
  StronglySorted (fun a c => str_ltb (key c) (key a) = false)
    (sorted_by key l).
Proof.
  induction l as [|x l IH]; [constructor|]. by apply insert_by_sorted.
Qed.

(** ** The two stores *)

Section Articles.
Context `{Host}.

Lemma relative_to_app (base q : list (list N)) :
  relative_to base (base ++ q) = q.
Proof. unfold relative_to. by rewrite drop_app_length. Qed.

Lemma path_eqb_refl (q : list (list N)) : path_eqb q q = true.
Proof.
  unfold path_eqb. destruct case_sensitive; by apply bool_decide_eq_true.
Qed.

Lemma articles_in_docs_spec (t : fs) (r q : list (list N)) :
  In (mkArticle r q) (_articles_in_docs t) <->
  r = DOCS_DIR /\ q <> [] /\ is_file t (DOCS_DIR ++ q) = true
  /\ fnmatch_md (name q) = true
  /\ existsb (path_eqb q) reserved = false.
Proof.
  unfold _articles_in_docs.
  destruct (path_exists t DOCS_DIR) eqn:Hex; cbn [negb].
  - rewrite in_flat_map. split.
    + intros (md & Hmd & Hin).
      apply iter_md_files_spec in Hmd as (q' & Hne & -> & Hf & Hm).
      rewrite relative_to_app in Hin.
      destruct (existsb (path_eqb q') reserved) eqn:Hres; [done|].
      destruct Hin as [[= <- <-]|[]]. by split_and!.
    + intros (-> & Hne & Hf & Hm & Hres). exists (DOCS_DIR ++ q). split.
      * apply iter_md_files_spec. eauto 10.
      * rewrite relative_to_app, Hres. by left.
  - split; [done|]. intros (_ & _ & Hf & _).
    unfold is_file in Hf. rewrite lookup_app in Hf.
    unfold path_exists in Hex. by destruct (lookup DOCS_DIR t).
Qed.

Lemma articles_in_drafts_spec (t : fs) (r q : list (list N)) :
  In (mkArticle r q) (_articles_in_drafts t) <->
  r = DRAFTS_DIR /\ q <> [] /\ is_file t (DRAFTS_DIR ++ q) = true
  /\ fnmatch_md (name q) = true.
Proof.
  unfold _articles_in_drafts.
  destruct (path_exists t DRAFTS_DIR) eqn:Hex; cbn [negb].
  - rewrite in_map_iff. split.
    + intros (md & [= <- <-] & Hmd).
      apply iter_md_files_spec in Hmd as (q' & Hne & -> & Hf & Hm).
      rewrite relative_to_app. by split_and!.
    + intros (-> & Hne & Hf & Hm). exists (DRAFTS_DIR ++ q). split.
      * by rewrite relative_to_app.
      * apply iter_md_files_spec. eauto 10.
  - split; [done|]. intros (_ & _ & Hf & _).
    unfold is_file in Hf. rewrite lookup_app in Hf.
    unfold path_exists in Hex. by destruct (lookup DRAFTS_DIR t).
Qed.
End Articles.

(** ** The prompt, step by step *)

Lemma for_each_prints {A} (body : A -> M world unit) (f : A -> list N)
    (l : list A) (w : world) :
  (forall x, body x = print (f x)) ->
  for_each l body w
  = (Ret tt,
     World (w_fs w) (w_stdin w)
       (w_stdout w ++ map (fun x => f x ++ [Chr.LF]) l) (w_stderr w)).
Proof.
  intros Hbody. revert w. induction l as [|x l IH]; intros w; simpl.
  - rewrite app_nil_r. by destruct w.
  - unfold bind. rewrite Hbody. unfold print, modify. rewrite IH. simpl.
    by rewrite <- app_assoc.
Qed.

(** Parsing the tokens does not touch the world. *)
Lemma add_part_spec (part : list N) (indices : gset Z) (w : world) :
  match add_part part indices w with
  | (Ret X, w') =>
      w' = w /\ forall i, i ∈ X <-> i ∈ indices \/ token_covers part i
  | (Raise e, w') => w' = w /\ exists msg, e = ValueError msg
  end.
Proof.
  unfold add_part, token_covers, int, bind, ret, raise.
  destruct (existsb _ part).
  - destruct (split_once Chr.minus part) as [[start_s end_s]|].
    + destruct (py_int start_s) as [a|]; [|by eauto].
      destruct (py_int end_s) as [c|]; [|by eauto].
      pose proof (Zgt_cases a c) as Hcmp.
      destruct (a >? c)%Z; (split; [done|]); intros i;
        rewrite foldl_add_spec, range_spec; intuition lia.
    + split; [done|]. tauto.
  - destruct (py_int part) as [a|]; [|by eauto].
    split; [done|]. intros i. rewrite elem_of_union, elem_of_singleton.
    split.
    + intros [?| ->]; by eauto.
    + intros [?|[= ->]]; by eauto.
Qed.

Lemma add_parts_spec (parts : list (list N)) (indices : gset Z) (w : world) :
  match add_parts parts indices w with
  | (Ret X, w') =>
      w' = w
      /\ forall i, i ∈ X <->
                   i ∈ indices \/ exists part, In part parts /\ token_covers part i
  | (Raise e, w') => w' = w /\ exists msg, e = ValueError msg
  end.
Proof.
  revert indices. induction parts as [|part parts IH]; intros indices; simpl.
  - split; [done|]. intros i. split; [by left|]. by intros [?|(? & [] & _)].
  - destruct part as [|c part].
    + specialize (IH indices).
      destruct (add_parts parts indices w) as [[X|e] w']; [|done].
      destruct IH as [-> IH]. split; [done|]. intros i. rewrite IH.
      split.
      * intros [?|(p & ? & ?)]; by eauto.
      * intros [?|(p & [<-|?] & Hc)]; [by left| |by eauto].
        by vm_compute in Hc.
    + unfold bind. pose proof (add_part_spec (c :: part) indices w) as Hp.
      destruct (add_part (c :: part) indices w) as [[X1|e] w1]; [|done].
      destruct Hp as [-> Hp]. specialize (IH X1).
      destruct (add_parts parts X1 w) as [[X|e] w']; [|done].
      destruct IH as [-> IH]. split; [done|]. intros i. rewrite IH, Hp.
      split.
      * intros [[?|?]|(p & ? & ?)]; by eauto 6.
      * intros [?|(p & [<-|?] & Hc)]; by eauto 6.
Qed.

Section Prompt.
Context `{Host}.

(** [_prompt_indices] on a list that is not empty, as one case
    analysis. *)
Lemma prompt_indices_unfold (items : list (list N)) (prompt : list N)
    (w : world) :
  items <> [] ->
  _prompt_indices items prompt w =
  let prompted stdin :=
    if prompt_on_stderr
    then World (w_fs w) stdin (w_stdout w ++ numbered items)
           (w_stderr w ++ [prompt])
    else World (w_fs w) stdin ((w_stdout w ++ numbered items) ++ [prompt])
           (w_stderr w) in
  match w_stdin w with
  | [] => (Raise EOFError, prompted [])
  | line :: rest =>
      let w2 := prompted rest in
      match strip line with
      | [] => (Ret [], w2)
      | c :: raw =>
          if bool_decide (str_lower (c :: raw) ∈ quit_words)
          then (Raise (SystemExit 0), w2)
          else
            match
              add_parts
                (split_runs (fun c => (c =? Chr.comma) || isspace c) (c :: raw))
                ∅ w2
            with
            | (Ret indices, _) =>
                match
                  merge_sort Z.le
                    (List.filter
                       (fun i =>
                          (1 <=? i)%Z && (i <=? Z.of_nat (length items))%Z)
                       (elements indices))
                with
                | [] => (Raise (ValueError (u "No valid selections.")), w2)
                | i :: l => (Ret (i :: l), w2)
                end
            | (Raise e, _) => (Raise e, w2)
            end
      end
  end.
Proof.
  intros Hne. unfold _prompt_indices.
  destruct items as [|item items]; [done|].
  unfold bind at 1.
  rewrite (for_each_prints _
             (fun p => rjust2 (str_of_N (fst p)) ++ u ". " ++ snd p));
    [|by intros [idx it]].
  replace (map _ (enumerate 1 (item :: items))) with (numbered (item :: items)).
  2:{ unfold numbered. apply map_ext. by intros [idx it]. }
  unfold bind, input. simpl w_stdin. simpl w_stdout. simpl w_fs. simpl w_stderr.
  cbv beta zeta.
  destruct (w_stdin w) as [|line rest]; [by destruct prompt_on_stderr|].
  replace (World (w_fs w) rest
             (w_stdout
                (if prompt_on_stderr
                 then World (w_fs w) (line :: rest)
                        (w_stdout w ++ numbered (item :: items))
                        (w_stderr w ++ [prompt])
                 else World (w_fs w) (line :: rest)
                        ((w_stdout w ++ numbered (item :: items)) ++ [prompt])
                        (w_stderr w)))
             (w_stderr
                (if prompt_on_stderr
                 then World (w_fs w) (line :: rest)
                        (w_stdout w ++ numbered (item :: items))
                        (w_stderr w ++ [prompt])
                 else World (w_fs w) (line :: rest)
                        ((w_stdout w ++ numbered (item :: items)) ++ [prompt])
                        (w_stderr w))))
    with (if prompt_on_stderr
          then World (w_fs w) rest (w_stdout w ++ numbered (item :: items))
                 (w_stderr w ++ [prompt])
          else World (w_fs w) rest
                 ((w_stdout w ++ numbered (item :: items)) ++ [prompt])
                 (w_stderr w))
    by (by destruct prompt_on_stderr).
  destruct (strip line) as [|c raw]; [done|].
  destruct (bool_decide _); [done|].
  match goal with |- context [add_parts ?ps ∅ ?w2] =>
    pose proof (add_parts_spec ps ∅ w2) as Hparts;
    destruct (add_parts ps ∅ w2) as [[X|e] w3] end.
  - destruct Hparts as [-> _]. by destruct (merge_sort _ _).
  - by destruct Hparts as [-> _].
Qed.
End Prompt.

(** ** What a computation raises *)

Section Raises.
Context {S : Type} (P : exn -> Prop).

Lemma raises_ret {A} (a : A) : raises P (@ret S A a).
Proof. by intros s e s'. Qed.

Lemma raises_raise {A} e : P e -> raises P (@raise S A e).
Proof. by intros He s e' s' [= <- _]. Qed.

Lemma raises_gets {A} (f : S -> A) : raises P (gets f).
Proof. by intros s e s'. Qed.

Lemma raises_bind {A B} (m : M S A) (k : A -> M S B) :
  raises P m -> (forall a, raises P (k a)) -> raises P (bind m k).
Proof.
  intros Hm Hk s e s' Hb.
  destruct (bind_inv _ _ _ _ _ Hb) as [(a & s1 & _ & Hks)|(e' & Hms & [= ->])].
  - by eapply Hk.
  - by eapply Hm.
Qed.

(** The continuation only has to behave on the values the first part
    can return. *)
Lemma raises_bind_returns {A B} (Q : A -> Prop) (m : M S A) (k : A -> M S B) :
  returns Q m -> raises P m -> (forall a, Q a -> raises P (k a)) ->
  raises P (bind m k).
Proof.
  intros HQ Hm Hk s e s' Hb.
  destruct (bind_inv _ _ _ _ _ Hb) as [(a & s1 & Hms & Hks)|(e' & Hms & [= ->])].
  - eapply Hk; [|done]. by eapply HQ.
  - by eapply Hm.
Qed.

Lemma raises_try_except {A} (m : M S A) h :
  (forall e k, h e = Some k -> raises P k) ->
  (forall s e s', m s = (Raise e, s') -> h e = None -> P e) ->
  raises P (try_except m h).
Proof.
  intros Hh Hm s e s'. unfold try_except.
  destruct (m s) as [[a|e0] s1] eqn:Hms; [done|].
  destruct (h e0) as [k|] eqn:Hhe.
  - intros Hk. by eapply (Hh e0 k).
  - intros [= <- <-]. by eapply Hm.
Qed.

Lemma raises_for_each {A} (l : list A) (body : A -> M S unit) :
  (forall x, In x l -> raises P (body x)) -> raises P (for_each l body).
Proof.
  induction l as [|x l IH]; intros Hbody; simpl.
  - apply raises_ret.
  - apply raises_bind; [apply Hbody; by left|intros _].
    apply IH. intros y Hy. apply Hbody. by right.
Qed.

Lemma raises_map_M {A B} (f : A -> M S B) (l : list A) :
  (forall x, raises P (f x)) -> raises P (map_M f l).
Proof.
  intros Hf. induction l as [|x l IH]; simpl.
  - apply raises_ret.
  - apply raises_bind; [apply Hf|intros y].
    apply raises_bind; [apply IH|intros ys; apply raises_ret].
Qed.
End Raises.

Lemma raises_weaken {S A} (P Q : exn -> Prop) (m : M S A) :
  (forall e, P e -> Q e) -> raises P m -> raises Q m.
Proof. intros HPQ Hm s e s' Hr. apply HPQ. by eapply Hm. Qed.

Lemma raises_lift_fs {A} (P : exn -> Prop) (m : M node A) :
  raises P m -> raises P (lift_fs m).
Proof.
  intros Hm w e w'. unfold lift_fs.
  destruct (m (w_fs w)) as [r t] eqn:Hmt. intros [= -> _]. by eapply Hm.
Qed.

Lemma raises_print (P : exn -> Prop) s : raises P (print s).
Proof. by intros w e w'. Qed.

Lemma raises_print_err (P : exn -> Prop) s : raises P (print_err s).
Proof. by intros w e w'. Qed.

Lemma raises_input `{Host} s : raises (fun e => e = EOFError) (input s).
Proof.
  intros w e w'. unfold input. destruct (w_stdin w); [|done].
  by intros [= <- _].
Qed.

(** The calls on the file system raise [OSError]s only. *)
Lemma resolve_OSError (p : list (list N)) (t : fs) e :
  resolve p t = inl e -> is_OSError e = true.
Proof. intros Hr. by destruct (resolve_error _ _ _ Hr) as [->| ->]. Qed.

Lemma mkdir_p_OSError (p : list (list N)) (t : fs) e :
  mkdir_p p t = inl e -> is_OSError e = true.
Proof.
  revert t. induction p as [|x p IH]; intros t.
  - destruct t; [by intros [= <-]|done].
  - destruct t as [d|es]; [by intros [= <-]|]. simpl.
    destruct (assoc x es) as [c|]; [|done].
    destruct (mkdir_p p c) as [e'|c'] eqn:Hmk; [|done].
    intros [= <-]. by apply (IH c).
Qed.

Lemma os_mkdir_OSError (p : list (list N)) (t : fs) e :
  os_mkdir p t = inl e -> is_OSError e = true.
Proof.
  revert t. induction p as [|x p IH]; intros t; [by intros [= <-]|].
  destruct t as [d|es]; [by intros [= <-]|]. simpl.
  destruct (assoc x es) as [c|].
  - destruct (os_mkdir p c) as [e'|c'] eqn:Hmk; [|done].
    intros [= <-]. by apply (IH c).
  - destruct p; [done|]. by intros [= <-].
Qed.

Lemma raises_mkdir_parents p :
  raises (fun e => is_OSError e = true) (Path_mkdir_parents p).
Proof.
  intros t e t'. unfold Path_mkdir_parents, lift_result.
  destruct (mkdir_p p t) as [e'|t1] eqn:Hmk; [|done].
  intros [= <- _]. by apply (mkdir_p_OSError _ _ _ Hmk).
Qed.

Lemma raises_mkdir_exist_ok p :
  raises (fun e => is_OSError e = true) (Path_mkdir_exist_ok p).
Proof.
  apply raises_try_except.
  - intros e k. destruct (_ && _) eqn:He; [|done]. intros [= <-].
    apply raises_bind; [apply raises_gets|].
    intros []; [apply raises_ret|apply raises_raise].
    by apply andb_prop in He as [? _].
  - intros t e t'. unfold lift_result.
    destruct (os_mkdir p t) as [e''|t1] eqn:Hmk; [|done].
    intros [= <- _] _. by apply (os_mkdir_OSError _ _ _ Hmk).
Qed.

Lemma raises_unlink p : raises (fun e => is_OSError e = true) (Path_unlink p).
Proof.
  intros t e t'. unfold Path_unlink.
  destruct (resolve p t) as [e'|[d|es]] eqn:Hr; try done.
  - intros [= <- _]. by apply (resolve_OSError _ _ _ Hr).
  - by intros [= <- _].
Qed.

Lemma raises_read_bytes p : raises (fun e => is_OSError e = true) (read_bytes p).
Proof.
  intros t e t'. unfold read_bytes.
  destruct (resolve p t) as [e'|[d|es]] eqn:Hr; try done.
  - intros [= <- _]. by apply (resolve_OSError _ _ _ Hr).
  - by intros [= <- _].
Qed.

Lemma raises_open_w p : raises (fun e => is_OSError e = true) (open_w p).
Proof.
  intros t e t'. unfold open_w.
  assert (forall r : outcome unit * node,
            match resolve (parent p) t with
            | inl e0 => (Raise e0, t)
            | inr (File _) => (Raise NotADirectoryError, t)
            | inr (Dir _) =>
                match put_at p (File []) t with
                | Some t'0 => (Ret tt, t'0)
                | None => (Raise IsADirectoryError, t)
                end
            end = r -> r = (Raise e, t') -> is_OSError e = true) as Hrest.
  { intros r <-. destruct (resolve (parent p) t) as [e'|[d|es]] eqn:Hr.
    - intros [= <- _]. by apply (resolve_OSError _ _ _ Hr).
    - by intros [= <- _].
    - destruct (put_at _ _ _); [done|]. by intros [= <- _]. }
  destruct (resolve p t) as [e'|[d|es]]; try by eapply Hrest.
  by intros [= <- _].
Qed.

Lemma raises_write_bytes p data :
  raises (fun e => is_OSError e = true) (write_bytes p data).
Proof.
  intros t e t'. unfold write_bytes. destruct (put_at _ _ _); [done|].
  by intros [= <- _].
Qed.

Lemma raises_os_rename src dst :
  raises (fun e => is_OSError e = true) (os_rename src dst).
Proof.
  intros t e t'. unfold os_rename.
  destruct (resolve src t) as [e'|n] eqn:Hr.
  { intros [= <- _]. by apply (resolve_OSError _ _ _ Hr). }
  destruct (decide (src = dst)); [done|].
  destruct (resolve (parent dst) t) as [e'|[d|es]] eqn:Hpar.
  - intros [= <- _]. by apply (resolve_OSError _ _ _ Hpar).
  - by intros [= <- _].
  - destruct n as [d|es']; destruct (lookup dst t) as [[d'|[|e' es'']]|];
      try (by intros [= <- _]);
      destruct (decide _); try (by intros [= <- _]);
      destruct (put_at _ _ _); try done; by intros [= <- _].
Qed.

Lemma raises_shutil_move src dst :
  raises (fun e => is_OSError e = true) (shutil_move src dst).
Proof.
  apply raises_bind; [apply raises_gets|].
  intros []; [|apply raises_os_rename].
  destruct (decide _); [apply raises_os_rename|].
  apply raises_bind; [apply raises_gets|].
  intros []; [by apply raises_raise|apply raises_os_rename].
Qed.

Lemma raises_move_article src_root dst_root relpath force :
  raises (fun e => is_OSError e = true)
    (_move_article src_root dst_root relpath force).
Proof.
  unfold _move_article.
  apply raises_bind; [apply raises_mkdir_parents|intros _].
  apply raises_bind; [|intros _; apply raises_shutil_move].
  apply raises_bind; [apply raises_gets|].
  intros []; [|apply raises_ret].
  destruct (negb force); [by apply raises_raise|].
  apply raises_bind; [apply raises_gets|].
  intros []; [by apply raises_raise|apply raises_unlink].
Qed.

(** ** Rendering and updating, in more detail *)

Lemma keeps_weaken {S A} (R R' : relation S) (m : M S A) :
  (forall s s', R s s' -> R' s s') -> keeps R m -> keeps R' m.
Proof. intros HR Hm s r s' Hrun. apply HR. by eapply Hm. Qed.

(** A loop of reads collects, element by element, what each read
    returns. *)
Lemma map_M_reads {S A B} (f : A -> M S B) (l : list A) s ys s' :
  (forall x, keeps eq (f x)) ->
  map_M f l s = (Ret ys, s') ->
  Forall2 (fun x y => f x s = (Ret y, s)) l ys.
Proof.
  intros Hf. revert ys s'. induction l as [|x l IH]; intros ys s'; simpl.
  - intros [= <- _]. constructor.
  - intros Hb. apply bind_ret_inv in Hb as (y & s1 & Hx & Hb).
    pose proof (Hf x _ _ _ Hx) as <-.
    apply bind_ret_inv in Hb as (ys' & s2 & Hl & [= <- _]).
    constructor; [done|]. by apply (IH _ _ Hl).
Qed.

Lemma keeps_open_w q p : apart p q -> keeps (unchanged_at q) (open_w p).
Proof.
  intros [Hpq Hqp] t r t'. unfold open_w.
  assert (forall x : outcome unit * node,
            match resolve (parent p) t with
            | inl e0 => (Raise e0, t)
            | inr (File _) => (Raise NotADirectoryError, t)
            | inr (Dir _) =>
                match put_at p (File []) t with
                | Some t'0 => (Ret tt, t'0)
                | None => (Raise IsADirectoryError, t)
                end
            end = x -> x = (r, t') -> unchanged_at q t t') as Hrest.
  { intros x <-. destruct (resolve (parent p) t) as [e'|[d|es]];
      try by intros [= <- <-].
    destruct (put_at _ _ _) as [t1|] eqn:Hput; intros [= <- <-]; [|done].
    by apply (put_at_frame _ _ _ _ _ Hput). }
  destruct (resolve p t) as [e'|[d|es]]; try by eapply Hrest.
  by intros [= <- <-].
Qed.

Lemma keeps_write_bytes q p data :
  apart p q -> keeps (unchanged_at q) (write_bytes p data).
Proof.
  intros [Hpq Hqp] t r t'. unfold write_bytes.
  destruct (put_at _ _ _) as [t1|] eqn:Hput; intros [= <- <-]; [|done].
  by apply (put_at_frame _ _ _ _ _ Hput).
Qed.

Section RenderMore.
Context `{Host}.

Lemma raises_read_text p :
  raises (fun e => is_OSError e = true \/ e = UnicodeDecodeError) (read_text p).
Proof.
  apply raises_bind.
  - apply (raises_weaken (fun e => is_OSError e = true)); [by left|].
    apply raises_read_bytes.
  - intros data. destruct (decode_utf8 data);
      [apply raises_ret|apply raises_raise; by right].
Qed.

Lemma raises_read_title p :
  raises (fun e => e = UnicodeDecodeError) (_read_title p).
Proof. intros t e t'. apply read_title_raises_only_decode. Qed.

Lemma raises_section_items dir :
  raises (fun e => e = UnicodeDecodeError) (section_items dir).
Proof.
  apply raises_bind; [apply raises_gets|intros e].
  destruct (negb e); [apply raises_ret|].
  apply raises_bind; [apply raises_gets|intros mds].
  apply raises_map_M. intros md.
  apply raises_bind; [apply raises_read_title|intros ?; apply raises_ret].
Qed.

Lemma raises_render_nav_lines :
  raises (fun e => e = UnicodeDecodeError) _render_nav_lines.
Proof.
  repeat (apply raises_bind; [apply raises_section_items|intros ?]).
  apply raises_ret.
Qed.

Lemma raises_render_nav_yaml :
  raises (fun e => e = UnicodeDecodeError) _render_nav_yaml.
Proof.
  apply raises_bind; [apply raises_render_nav_lines|intros ?].
  apply raises_ret.
Qed.

Lemma raises_write_text p data :
  raises (fun e => is_OSError e = true \/ e = UnicodeEncodeError)
    (write_text p data).
Proof.
  apply raises_bind.
  - apply (raises_weaken (fun e => is_OSError e = true)); [by left|].
    apply raises_open_w.
  - intros _. destruct (encode_utf8 _).
    + apply (raises_weaken (fun e => is_OSError e = true)); [by left|].
      apply raises_write_bytes.
    + apply raises_raise. by right.
Qed.

Lemma raises_update_mkdocs_nav :
  raises (fun e => is_OSError e = true \/ e = UnicodeDecodeError
                   \/ e = UnicodeEncodeError) _update_mkdocs_nav.
Proof.
  apply raises_bind; [apply raises_gets|intros e].
  destruct (negb e); [apply raises_raise; by left|].
  apply raises_bind.
  { eapply raises_weaken; [|apply raises_read_text].
    intros ? [?|?]; by eauto. }
  intros text. apply raises_bind.
  { eapply raises_weaken; [|apply raises_render_nav_yaml].
    intros ? ->. by eauto. }
  intros nav. eapply raises_weaken; [|apply raises_write_text].
  intros ? [?|?]; by eauto.
Qed.

(** The update writes at [mkdocs.yml] and nowhere else. *)
Lemma keeps_update_mkdocs_nav q :
  apart MKDOCS_YML q -> keeps (unchanged_at q) _update_mkdocs_nav.
Proof.
  intros Hq. unfold _update_mkdocs_nav.
  assert (forall s s' : node, s = s' -> unchanged_at q s s') as Heq
    by (by intros s s' ->).
  kapply keeps_bind; [keeps_leaf|intros e].
  destruct (negb e); [keeps_leaf|].
  kapply keeps_bind; [apply (keeps_weaken eq _ _ Heq), keeps_read_text|].
  intros text.
  kapply keeps_bind;
    [apply (keeps_weaken eq _ _ Heq), keeps_render_nav_yaml|].
  intros nav. unfold write_text.
  kapply keeps_bind; [by apply keeps_open_w|intros _].
  destruct (encode_utf8 _); [by apply keeps_write_bytes|keeps_leaf].
Qed.

(** The items of a section: one per scanned file, with its title and
    its path from [docs/]. *)
Lemma section_items_entries dir (t t' : fs) items :
  section_items dir t = (Ret items, t') ->
  forall title rel,
    In (title, rel) items <->
    exists md, In md (_iter_md_files t dir)
               /\ _read_title md t = (Ret title, t)
               /\ rel = as_posix (relative_to DOCS_DIR md).
Proof.
  unfold section_items, bind, gets.
  destruct (path_exists t dir) eqn:He; simpl.
  - intros Hmap title rel.
    apply map_M_reads in Hmap.
    2:{ intros md. kapply keeps_bind; [apply keeps_read_title|].
        intros ?. keeps_leaf. }
    induction Hmap as [|md [title' rel'] mds items' Hmd _ IH]; simpl.
    + split; [done|]. by intros (? & [] & _).
    + rewrite IH. unfold bind in Hmd.
      destruct (_read_title md t) as [[title0|e] t0] eqn:Htitle; [|done].
      pose proof (keeps_read_title _ _ _ _ Htitle) as <-.
      injection Hmd as -> <-. split.
      * intros [[= <- <-]|(md' & ? & ? & ?)]; [by eauto|by eauto 6].
      * intros (md' & [<-|?] & Ht & ->); [|by eauto 6].
        left. rewrite Htitle in Ht. by injection Ht as ->.
  - intros [= <- _] title rel. split; [done|].
    unfold _iter_md_files. rewrite He. by intros (? & [] & _).
Qed.
End RenderMore.

(** ** The lines of the manifest *)

Lemma join_snoc (sep : list N) (l : list (list N)) (x : list N) :
  l <> [] -> join sep (l ++ [x]) = join sep l ++ sep ++ x.
Proof.
  induction l as [|y l IH]; [done|]. intros _.
  destruct l as [|z l]; [done|].
  change (join sep ((y :: z :: l) ++ [x]))
    with (y ++ sep ++ join sep ((z :: l) ++ [x])).
  rewrite IH by done.
  change (join sep (y :: z :: l)) with (y ++ sep ++ join sep (z :: l)).
  by rewrite <- !app_assoc.
Qed.

Section Lines.
Context `{Host}.

Lemma in_section_lines_iff line header items :
  In line (section_lines header items) <->
  items <> []
  /\ (line = header
      \/ exists title rel,
           In (title, rel) items
           /\ line = u "      - " ++ title ++ u ": " ++ rel).
Proof.
  destruct items as [|i items]; [by split; [|intros []]|].
  unfold section_lines. split.
  - intros [<-|Hin]; (split; [done|]); [by left|].
    apply in_map_iff in Hin as ([title rel] & <- & Hin). right. by eauto.
  - intros [_ [->|(title & rel & Hin & ->)]]; [by left|].
    right. apply in_map_iff. by exists (title, rel).
Qed.

(** What [_render_nav_lines] returns, taken apart. *)
Lemma render_nav_lines_inv (t t' : fs) lines :
  _render_nav_lines t = (Ret lines, t') ->
  exists a c d,
    section_items (DOCS_DIR ++ [u "llm"]) t = (Ret a, t)
    /\ section_items (DOCS_DIR ++ [u "agents"]) t = (Ret c, t)
    /\ section_items (DOCS_DIR ++ [u "ai_for_science"]) t = (Ret d, t)
    /\ lines = [u "nav:"; u "  - Home: index.md"]
               ++ section_lines LLM_HEADER a
               ++ section_lines AGENT_HEADER c
               ++ section_lines SCIENCE_HEADER d
               ++ [u "  - About: about.md"].
Proof.
  unfold _render_nav_lines. intros Hrender.
  apply bind_ret_inv in Hrender as (a & t1 & Ha & Hrender).
  apply bind_ret_inv in Hrender as (c & t2 & Hc & Hrender).
  apply bind_ret_inv in Hrender as (d & t3 & Hd & Hrender).
  pose proof (keeps_section_items _ _ _ _ Ha) as <-.
  pose proof (keeps_section_items _ _ _ _ Hc) as <-.
  pose proof (keeps_section_items _ _ _ _ Hd) as <-.
  injection Hrender as <-. by exists a, c, d.
Qed.

(** The paths of the items of a section are the paths of the scanned
    files, in the order of the scan. *)
Lemma section_items_paths dir (t t' : fs) items :
  section_items dir t = (Ret items, t') ->
  map snd items
  = map (fun md => as_posix (relative_to DOCS_DIR md)) (_iter_md_files t dir).
Proof.
  unfold section_items, bind, gets.
  destruct (path_exists t dir) eqn:He; simpl.
  - intros Hmap. apply map_M_reads in Hmap.
    2:{ intros md. kapply keeps_bind; [apply keeps_read_title|].
        intros ?. keeps_leaf. }
    induction Hmap as [|md [title rel] mds items' Hmd _ IH]; [done|].
    simpl. rewrite IH. f_equal. unfold bind in Hmd.
    destruct (_read_title md t) as [[title0|e] t0]; [|done].
    by injection Hmd as _ <-.
  - intros [= <- _]. unfold _iter_md_files. by rewrite He.
Qed.
End Lines.

(** ** What the update writes *)

Section Update.
Context `{Host}.

Lemma mkdocs_yml_not_root : MKDOCS_YML <> [].
Proof. unfold MKDOCS_YML. by intros [? ?]%app_eq_nil. Qed.

(** [write_text] on a regular file: the file is emptied first; the text
    is written when it can be encoded. *)
Lemma write_text_existing (p : list (list N)) (data : list N)
    (old : list byte) (t : fs) :
  p <> [] -> lookup p t = Some (File old) ->
  exists t1,
    put_at p (File []) t = Some t1
    /\ match encode_utf8 (write_newlines os_linesep data) with
       | None => write_text p data t = (Raise UnicodeEncodeError, t1)
       | Some bs =>
           exists t2,
             put_at p (File bs) t1 = Some t2
             /\ write_text p data t = (Ret tt, t2)
       end.
Proof.
  intros Hne Hfile.
  destruct (parent_is_dir p t Hne) as [es Hparent]; [by eauto|].
  destruct (put_at_succeeds p (File []) t es Hne Hparent) as [t1 Ht1].
  exists t1. split; [done|].
  assert (open_w p t = (Ret tt, t1)) as Hopen.
  { unfold open_w. apply lookup_resolve in Hfile, Hparent.
    by rewrite Hfile, Hparent, Ht1. }
  unfold write_text, bind. rewrite Hopen.
  destruct (encode_utf8 _) as [bs|]; [|done].
  destruct (parent_is_dir p t1 Hne) as [es1 Hparent1].
  { rewrite (put_at_lookup _ _ _ _ Ht1). by eauto. }
  destruct (put_at_succeeds p (File bs) t1 es1 Hne Hparent1) as [t2 Ht2].
  exists t2. split; [done|]. unfold write_bytes. by rewrite Ht2.
Qed.

(** [read_text], case by case. *)
Lemma read_text_cases (p : list (list N)) (t : fs) :
  read_text p t =
  match resolve p t with
  | inl e => (Raise e, t)
  | inr (Dir _) => (Raise IsADirectoryError, t)
  | inr (File data) =>
      match decode_utf8 data with
      | Some s => (Ret (universal_newlines s), t)
      | None => (Raise UnicodeDecodeError, t)
      end
  end.
Proof.
  unfold read_text, bind, read_bytes.
  destruct (resolve p t) as [e|[data|es]]; [done| |done].
  by destruct (decode_utf8 data).
Qed.

(** [_update_mkdocs_nav], step by step: the two reads leave the file
    system as it is. *)
Lemma update_mkdocs_nav_unfold (t : fs) :
  _update_mkdocs_nav t =
  if negb (path_exists t MKDOCS_YML) then (Raise FileNotFoundError, t)
  else
    match read_text MKDOCS_YML t with
    | (Raise e, _) => (Raise e, t)
    | (Ret text, _) =>
        match _render_nav_yaml t with
        | (Raise e, _) => (Raise e, t)
        | (Ret nav_yaml, _) =>
            write_text MKDOCS_YML (spliced text nav_yaml) t
        end
    end.
Proof.
  unfold _update_mkdocs_nav, bind at 1. unfold gets at 1.
  destruct (negb (path_exists t MKDOCS_YML)); [done|].
  unfold bind at 1.
  destruct (read_text MKDOCS_YML t) as [[text|e] t1] eqn:Hread;
    pose proof (keeps_read_text _ _ _ _ Hread) as <-; [|done].
  unfold bind at 1.
  destruct (_render_nav_yaml t) as [[nav_yaml|e] t2] eqn:Hrender;
    pose proof (keeps_render_nav_yaml _ _ _ Hrender) as <-; done.
Qed.

(** A failed update has changed nothing, or it has emptied the
    configuration document on a text that cannot be encoded. *)
Lemma update_mkdocs_nav_failure (t t' : fs) (e : exn) :
  _update_mkdocs_nav t = (Raise e, t') ->
  t' = t
  \/ (e = UnicodeEncodeError /\ lookup MKDOCS_YML t' = Some (File [])).
Proof.
  rewrite update_mkdocs_nav_unfold.
  destruct (negb (path_exists t MKDOCS_YML)); [intros [= _ <-]; by left|].
  rewrite read_text_cases.
  destruct (resolve MKDOCS_YML t) as [e0|[data|es]] eqn:Hres;
    [intros [= _ <-]; by left| |intros [= _ <-]; by left].
  destruct (decode_utf8 data) as [s|]; [|intros [= _ <-]; by left].
  destruct (_render_nav_yaml t) as [[nav_yaml|e1] t2];
    [|intros [= _ <-]; by left].
  apply lookup_resolve in Hres.
  destruct (write_text_existing MKDOCS_YML
              (spliced (universal_newlines s) nav_yaml) data t
              mkdocs_yml_not_root Hres) as (t1 & Ht1 & Hwrite).
  destruct (encode_utf8 _) as [bs|].
  - destruct Hwrite as (t3 & _ & ->). done.
  - rewrite Hwrite. intros [= <- <-]. right.
    by rewrite (put_at_lookup _ _ _ _ Ht1).
Qed.

(** A successful update: the document held text, and now holds the
    encoding of the splice of that text with the block rendered from the
    file system as it was. *)
Lemma update_mkdocs_nav_success (t t' : fs) :
  _update_mkdocs_nav t = (Ret tt, t') ->
  exists data s nav_yaml bs,
    lookup MKDOCS_YML t = Some (File data)
    /\ decode_utf8 data = Some s
    /\ _render_nav_yaml t = (Ret nav_yaml, t)
    /\ encode_utf8
         (write_newlines os_linesep (spliced (universal_newlines s) nav_yaml))
       = Some bs
    /\ lookup MKDOCS_YML t' = Some (File bs).
Proof.
  rewrite update_mkdocs_nav_unfold.
  destruct (negb (path_exists t MKDOCS_YML)); [done|].
  rewrite read_text_cases.
  destruct (resolve MKDOCS_YML t) as [e0|[data|es]] eqn:Hres; [done| |done].
  destruct (decode_utf8 data) as [s|] eqn:Hdec; [|done].
  destruct (_render_nav_yaml t) as [[nav_yaml|e1] t2] eqn:Hrender; [|done].
  pose proof (keeps_render_nav_yaml _ _ _ Hrender) as <-.
  apply lookup_resolve in Hres.
  destruct (write_text_existing MKDOCS_YML
              (spliced (universal_newlines s) nav_yaml) data t
              mkdocs_yml_not_root Hres) as (t1 & Ht1 & Hwrite).
  destruct (encode_utf8 _) as [bs|] eqn:Henc; [|by rewrite Hwrite].
  destruct Hwrite as (t2 & Ht2 & ->). intros [= <-].
  exists data, s, nav_yaml, bs. split_and!; try done.
  by rewrite (put_at_lookup _ _ _ _ Ht2).
Qed.
End Update.

(** ** Splicing twice *)

Lemma split_lf_app_lf (s1 s2 : list N) :
  split_lf (s1 ++ Chr.LF :: s2)
  = (fst (split_lf s1), snd (split_lf s1) ++ lines_of s2).
Proof.
  induction s1 as [|c s1 IH].
  - unfold lines_of. simpl. by destruct (split_lf s2).
  - simpl. rewrite IH. destruct (split_lf s1) as [l ls]. simpl.
    by destruct (c =? Chr.LF).
Qed.

Lemma lines_of_app_lf (s1 s2 : list N) :
  lines_of (s1 ++ Chr.LF :: s2) = lines_of s1 ++ lines_of s2.
Proof.
  unfold lines_of at 1 2. rewrite split_lf_app_lf.
  by destruct (split_lf s1).
Qed.

Lemma total_length_lines_of (s : list N) :
  total_length (lines_of s) = S (length s).
Proof.
  unfold lines_of, total_length. induction s as [|c s IH]; [done|].
  simpl. destruct (split_lf s) as [l ls].
  destruct (c =? Chr.LF); simpl in *; lia.
Qed.

Lemma first_line_offset_app (m : list N -> bool) (pos : nat)
    (l1 l2 : list (list N)) :
  first_line_offset m pos (l1 ++ l2) =
  match first_line_offset m pos l1 with
  | Some k => Some k
  | None => first_line_offset m (pos + total_length l1)%nat l2
  end.
Proof.
  revert pos. induction l1 as [|l l1 IH]; intros pos; simpl.
  - unfold total_length. simpl. by rewrite Nat.add_0_r.
  - destruct (m l); [done|]. rewrite IH.
    destruct (first_line_offset m _ l1); [done|].
    f_equal. unfold total_length. simpl. lia.
Qed.

(** A text is its first line alone, or its first line, a line feed and
    the rest. *)
Lemma split_lf_decompose (s : list N) :
  (s = fst (split_lf s) /\ snd (split_lf s) = [])
  \/ exists rest,
       s = fst (split_lf s) ++ Chr.LF :: rest
       /\ snd (split_lf s) = lines_of rest.
Proof.
  induction s as [|c s IH]; [by left|].
  simpl. destruct (split_lf s) as [l ls] eqn:Hsplit.
  destruct (c =? Chr.LF) eqn:Hc.
  - right. exists s. apply N.eqb_eq in Hc as ->. simpl.
    unfold lines_of. by rewrite Hsplit.
  - simpl in *. destruct IH as [[Hs Hls]|(rest & Hs & Hls)].
    + left. by rewrite <- Hs.
    + right. exists rest. by rewrite Hs at 1.
Qed.

Lemma lines_of_first_line (s : list N) :
  lines_of (fst (split_lf s)) = [fst (split_lf s)].
Proof.
  unfold lines_of. induction s as [|c s IH]; [done|].
  simpl. destruct (split_lf s) as [l ls].
  destruct (c =? Chr.LF) eqn:Hc; [done|].
  simpl in *. rewrite Hc. by destruct (split_lf l) as [l' ls']; simplify_eq.
Qed.

(** Where the first marker line starts: at the start of the text, or
    after a line feed that ends a text without marker line. *)
Lemma first_line_offset_Some (m : list N -> bool) (s : list N) (pos k : nat) :
  first_line_offset m pos (lines_of s) = Some k ->
  (k = pos /\ m (fst (split_lf s)) = true)
  \/ exists A B,
       s = A ++ Chr.LF :: B
       /\ k = (pos + S (length A))%nat
       /\ first_line_offset m pos (lines_of A) = None
       /\ m (fst (split_lf B)) = true.
Proof.
  remember (length s) as n eqn:Hn. revert s pos k Hn.
  induction n as [n IH] using lt_wf_ind. intros s pos k -> Hfirst.
  unfold lines_of in Hfirst.
  destruct (split_lf s) as [l ls] eqn:Hsplit. simpl in Hfirst.
  destruct (m l) eqn:Hm; [left; by simplify_eq|]. right.
  pose proof (split_lf_decompose s) as Hdec. rewrite Hsplit in Hdec.
  simpl in Hdec. destruct Hdec as [[_ ->]|(rest & Hs & ->)]; [done|].
  assert (lines_of l = [l]) as Hl.
  { pose proof (lines_of_first_line s) as Hfl. by rewrite Hsplit in Hfl. }
  assert (length rest < length s)%nat as Hlt.
  { rewrite Hs, length_app. simpl. lia. }
  destruct (IH _ Hlt rest _ k eq_refl Hfirst)
    as [[-> Hrest]|(A & B & -> & -> & Hnone & HB)].
  - exists l, rest. split_and!; try done.
    rewrite Hl. simpl. by rewrite Hm.
  - exists (l ++ Chr.LF :: A), B. split_and!; try done.
    + by rewrite Hs, <- app_assoc.
    + rewrite length_app. simpl. lia.
    + rewrite lines_of_app_lf, Hl. simpl. by rewrite Hm.
Qed.

Lemma endswith_lf (s : list N) :
  endswith [Chr.LF] s = true -> exists s0, s = s0 ++ [Chr.LF].
Proof.
  unfold endswith. destruct (rev s) as [|c r] eqn:Hrev; [done|].
  change (startswith (rev [Chr.LF]) (c :: r))
    with ((Chr.LF =? c) && true).
  rewrite andb_true_r. intros Hc%N.eqb_eq. subst c.
  exists (rev r). by rewrite <- (rev_involutive s), Hrev.
Qed.

(** A block that starts with a marker line, put after a text without
    marker line that ends a line: the search finds the block. *)
Lemma nav_search_block (T nav_yaml : list N) :
  nav_match_here nav_yaml = true ->
  first_line_offset loose_marker 0 (lines_of T) = None ->
  nav_search (T ++ Chr.LF :: nav_yaml) = Some (S (length T)).
Proof.
  intros Hnav HT. rewrite nav_match_here_first_line in Hnav.
  rewrite nav_search_lines, lines_of_app_lf, first_line_offset_app, HT.
  rewrite total_length_lines_of. unfold lines_of.
  destruct (split_lf nav_yaml) as [l ls]. simpl in *. by rewrite Hnav.
Qed.

Lemma take_block (T nav_yaml : list N) :
  take (S (length T)) (T ++ Chr.LF :: nav_yaml) = T ++ [Chr.LF].
Proof.
  replace (T ++ Chr.LF :: nav_yaml) with ((T ++ [Chr.LF]) ++ nav_yaml)
    by by rewrite <- app_assoc.
  rewrite take_app_length'; [done|]. rewrite length_app. simpl. lia.
Qed.

Lemma spliced_block (T nav_yaml : list N) :
  nav_match_here nav_yaml = true ->
  first_line_offset loose_marker 0 (lines_of T) = None ->
  spliced (T ++ Chr.LF :: nav_yaml) nav_yaml = T ++ Chr.LF :: nav_yaml.
Proof.
  intros Hnav HT. unfold spliced.
  rewrite (nav_search_block _ _ Hnav HT), take_block.
  by rewrite <- app_assoc.
Qed.

Lemma spliced_idempotent (text nav_yaml : list N) :
  nav_match_here nav_yaml = true ->
  spliced (spliced text nav_yaml) nav_yaml = spliced text nav_yaml.
Proof.
  intros Hnav. unfold spliced at 2 3.
  destruct (nav_search text) as [k|] eqn:Hsearch.
  - rewrite nav_search_lines in Hsearch.
    apply first_line_offset_Some in Hsearch
      as [[-> Hfirst]|(A & B & -> & -> & HA & _)].
    + rewrite take_0. simpl. unfold spliced, nav_search.
      destruct nav_yaml as [|c nav']; [done|].
      simpl nav_search_from. by rewrite Hnav.
    + simpl Nat.add. rewrite take_block, <- app_assoc. simpl.
      by apply spliced_block.
  - rewrite nav_search_lines in Hsearch. simpl app.
    destruct (endswith [Chr.LF] text) eqn:Hend; simpl negb; cbv iota.
    + by apply spliced_block.
    + apply spliced_block; [done|].
      rewrite lines_of_app_lf, first_line_offset_app, Hsearch. done.
Qed.

(** ** How a run ends *)

Lemma returns_bind_with {S A B} (Q' : B -> Prop) (Q : A -> Prop)
    (m : M S B) (k : B -> M S A) :
  returns Q' m -> (forall x, Q' x -> returns Q (k x)) -> returns Q (bind m k).
Proof.
  intros Hm Hk s a s' Hb.
  destruct (bind_ret_inv _ _ _ _ _ Hb) as (x & s1 & Hms & Hks).
  eapply Hk; [|exact Hks]. by eapply Hm.
Qed.

Lemma lift_fs_inv {A} (m : M node A) (w w' : world) (r : outcome A) :
  lift_fs m w = (r, w') ->
  m (w_fs w) = (r, w_fs w')
  /\ w' = World (w_fs w') (w_stdin w) (w_stdout w) (w_stderr w).
Proof.
  unfold lift_fs. destruct (m (w_fs w)) as [r0 t]. by intros [= <- <-].
Qed.

Section Outcomes.
Context `{Host}.

Lemma prompt_indices_in_range (items : list (list N)) (prompt : list N) :
  returns (Forall (fun i => (1 <= i <= Z.of_nat (length items))%Z))
    (_prompt_indices items prompt).
Proof.
  intros w l w' Hrun.
  destruct (prompt_indices_returns _ _ _ _ _ Hrun) as [->|[indices ->]];
    [done|].
  apply Forall_forall. intros i Hi.
  rewrite merge_sort_Permutation in Hi.
  apply list_elem_of_In, filter_In in Hi as [_ Hi].
  apply andb_true_iff in Hi as [?%Z.leb_le ?%Z.leb_le]. lia.
Qed.

Lemma raises_add_parts (parts : list (list N)) (indices : gset Z) :
  raises (fun e => exists msg, e = ValueError msg) (add_parts parts indices).
Proof.
  intros w e w' Hrun. pose proof (add_parts_spec parts indices w) as Hspec.
  rewrite Hrun in Hspec. by destruct Hspec.
Qed.

Lemma raises_prompt_indices (items : list (list N)) (prompt : list N) :
  raises (fun e => e = EOFError \/ e = SystemExit 0
                   \/ exists msg, e = ValueError msg)
    (_prompt_indices items prompt).
Proof.
  intros w e w'. destruct items as [|item items]; [done|].
  rewrite prompt_indices_unfold by done. cbv zeta.
  destruct (w_stdin w) as [|line rest]; [intros [= <- _]; by left|].
  destruct (strip line) as [|c raw]; [done|].
  destruct (bool_decide _); [intros [= <- _]; by eauto|].
  match goal with |- context [add_parts ?ps ∅ ?w2] =>
    pose proof (raises_add_parts ps ∅ w2) as Hparts;
    destruct (add_parts ps ∅ w2) as [[X|e'] w3] end.
  - destruct (merge_sort _ _); [|done]. intros [= <- _]. by eauto.
  - intros [= <- _]. right. right. by eapply Hparts.
Qed.

Lemma raises_print_articles (P : exn -> Prop) l :
  raises P (print_articles l).
Proof.
  destruct l as [|a l]; [apply raises_print|].
  apply raises_for_each. intros x _. apply raises_print.
Qed.

Lemma returns_list : returns (fun code => code = 0%Z) _list.
Proof.
  unfold _list. do 6 (apply returns_bind; intros ?). by apply returns_ret.
Qed.

Lemma raises_list (P : exn -> Prop) : raises P _list.
Proof.
  unfold _list.
  apply raises_bind; [apply raises_print|intros _].
  apply raises_bind; [apply raises_lift_fs, raises_gets|intros published].
  apply raises_bind; [apply raises_print_articles|intros _].
  apply raises_bind; [apply raises_print|intros _].
  apply raises_bind; [apply raises_lift_fs, raises_gets|intros drafts].
  apply raises_bind; [apply raises_print_articles|intros _].
  apply raises_ret.
Qed.

(** The part of [choose_and_pick] that follows the choice of a store. *)
Lemma pick_spec (src_root dst_root : list (list N))
    (articles : node -> list Article) (label : list N) :
  let m :=
    (let* src_items := lift_fs (gets articles) in
     match src_items with
     | [] =>
         print (u "No articles available to " ++ str_lower label ++ u ".") ;;
         ret (Done 0)
     | _ =>
         let display := map (fun a => as_posix (relpath a)) src_items in
         try_except
           (let* picked :=
              _prompt_indices display
                (u "Select items (e.g. 1 2 5-7), Enter to cancel: ") in
            ret (Picked src_root dst_root src_items label picked))
           (fun e =>
              match as_ValueError e with
              | Some msg => Some (print_err msg ;; ret (Done 2))
              | None => None
              end)
     end) in
  keeps (on_fs eq) m /\ returns well_picked m
  /\ raises (fun e => e = EOFError \/ e = SystemExit 0) m.
Proof.
  intros m. unfold m. split_and!.
  - kapply keeps_bind; [|intros src_items].
    { kapply keeps_lift_fs. keeps_leaf. }
    destruct src_items as [|a src_items].
    + kapply keeps_bind; [kapply keeps_print|intros _]. keeps_leaf.
    + kapply keeps_try_except.
      * kapply keeps_bind; [kapply keeps_prompt_indices|intros picked].
        keeps_leaf.
      * intros e k. destruct (as_ValueError e); [|done]. intros [= <-].
        kapply keeps_bind; [kapply keeps_print_err|intros _]. keeps_leaf.
  - apply returns_bind. intros src_items.
    destruct src_items as [|a src_items].
    + apply returns_bind. intros _. apply returns_ret. by left.
    + apply returns_try_except.
      * eapply returns_bind_with; [apply prompt_indices_in_range|].
        intros picked Hpicked. apply returns_ret. simpl.
        by rewrite length_map in Hpicked.
      * intros e k. destruct (as_ValueError e); [|done]. intros [= <-].
        apply returns_bind. intros _. apply returns_ret. by right.
  - apply raises_bind; [apply raises_lift_fs, raises_gets|intros src_items].
    destruct src_items as [|a src_items].
    + apply raises_bind; [apply raises_print|intros _]. apply raises_ret.
    + apply raises_try_except.
      * intros e k. destruct (as_ValueError e); [|done]. intros [= <-].
        apply raises_bind; [apply raises_print_err|intros _].
        apply raises_ret.
      * intros w e w' Hrun Hnone.
        apply bind_inv in Hrun as [(picked & w1 & _ & [=])|(e' & Hrun & [= <-])].
        destruct (raises_prompt_indices _ _ _ _ _ Hrun) as [->|[->|[msg ->]]];
          [by left|by right|done].
Qed.

(** [choose_and_pick] after the call of [mkdir]. *)
Lemma menu_spec :
  let m :=
    (print (u "Choose an action:") ;;
     print (u "  1) Unpublish (move docs/ -> drafts/)") ;;
     print (u "  2) Publish   (move drafts/ -> docs/)") ;;
     print (u "  3) List") ;;
     let* line := input (u "Enter 1/2/3 (or q): ") in
     let choice := str_lower (strip line) in
     if bool_decide (choice ∈ quit_words) then ret (Done 0)
     else if bool_decide (choice = u "3") then
       let* code := _list in ret (Done code)
     else
       let chosen :=
         if bool_decide (choice = u "1")
         then Some (DOCS_DIR, DRAFTS_DIR, _articles_in_docs, u "Unpublish")
         else if bool_decide (choice = u "2")
         then Some (DRAFTS_DIR, DOCS_DIR, _articles_in_drafts, u "Publish")
         else None in
       match chosen with
       | None => print_err (u "Invalid choice.") ;; ret (Done 2)
       | Some (src_root, dst_root, articles, label) =>
           let* src_items := lift_fs (gets articles) in
           match src_items with
           | [] =>
               print (u "No articles available to " ++ str_lower label
                      ++ u ".") ;;
               ret (Done 0)
           | _ =>
               let display := map (fun a => as_posix (relpath a)) src_items in
               try_except
                 (let* picked :=
                    _prompt_indices display
                      (u "Select items (e.g. 1 2 5-7), Enter to cancel: ") in
                  ret (Picked src_root dst_root src_items label picked))
                 (fun e =>
                    match as_ValueError e with
                    | Some msg => Some (print_err msg ;; ret (Done 2))
                    | None => None
                    end)
           end
       end) in
  keeps (on_fs eq) m /\ returns well_picked m
  /\ raises (fun e => e = EOFError \/ e = SystemExit 0) m.
Proof.
  intros m. unfold m.
  pose proof (pick_spec DOCS_DIR DRAFTS_DIR _articles_in_docs (u "Unpublish"))
    as (Hk1 & Hr1 & He1).
  pose proof (pick_spec DRAFTS_DIR DOCS_DIR _articles_in_drafts (u "Publish"))
    as (Hk2 & Hr2 & He2).
  split_and!.
  - do 4 (kapply keeps_bind; [kapply keeps_print|intros _]).
    kapply keeps_bind; [kapply keeps_input|intros line].
    destruct (bool_decide _); [keeps_leaf|].
    destruct (bool_decide _).
    { kapply keeps_bind; [kapply keeps_list|intros code]. keeps_leaf. }
    destruct (bool_decide _); [exact Hk1|].
    destruct (bool_decide _); [exact Hk2|].
    kapply keeps_bind; [kapply keeps_print_err|intros _]. keeps_leaf.
  - do 5 (apply returns_bind; intros ?).
    destruct (bool_decide _); [apply returns_ret; by left|].
    destruct (bool_decide _).
    { eapply returns_bind_with; [apply returns_list|].
      intros code ->. apply returns_ret. by left. }
    destruct (bool_decide _); [exact Hr1|].
    destruct (bool_decide _); [exact Hr2|].
    apply returns_bind. intros _. apply returns_ret. by right.
  - do 4 (apply raises_bind; [apply raises_print|intros _]).
    apply raises_bind; [|intros line].
    { eapply raises_weaken; [|apply raises_input]. intros e ->. by left. }
    destruct (bool_decide _); [apply raises_ret|].
    destruct (bool_decide _).
    { apply raises_bind; [apply raises_list|intros code]. apply raises_ret. }
    destruct (bool_decide _); [exact He1|].
    destruct (bool_decide _); [exact He2|].
    apply raises_bind; [apply raises_print_err|intros _]. apply raises_ret.
Qed.

Lemma returns_well_picked : returns well_picked choose_and_pick.
Proof.
  destruct menu_spec as (_ & Hr & _).
  unfold choose_and_pick. apply returns_bind. intros _. exact Hr.
Qed.

Lemma raises_choose_and_pick : raises menu_error choose_and_pick.
Proof.
  destruct menu_spec as (_ & _ & He).
  unfold choose_and_pick. apply raises_bind; [|intros _].
  - apply raises_lift_fs. eapply raises_weaken; [|apply raises_mkdir_exist_ok].
    intros e He'. by left.
  - eapply raises_weaken; [|exact He].
    intros e [->| ->]; unfold menu_error; by eauto.
Qed.

(** Whatever its outcome, [choose_and_pick] leaves the file system as
    the call of [mkdir] made it; the call has returned unless an error
    of the operating system is raised. *)
Lemma choose_and_pick_fs (w w' : world) (r : outcome choice) :
  choose_and_pick w = (r, w') ->
  (forall e, r = Raise e -> is_OSError e = false) ->
  Path_mkdir_exist_ok DRAFTS_DIR (w_fs w) = (Ret tt, w_fs w').
Proof.
  destruct menu_spec as (Hk & _ & _).
  unfold choose_and_pick. intros Hrun Hr.
  apply bind_inv in Hrun as [([] & w1 & Hmk & Hrun)|(e & Hmk & ->)].
  - apply lift_fs_inv in Hmk as [Hmk _]. rewrite Hmk.
    by rewrite (Hk _ _ _ Hrun).
  - specialize (Hr e eq_refl).
    apply lift_fs_inv in Hmk as [Hmk _].
    by rewrite (raises_mkdir_exist_ok _ _ _ _ Hmk) in Hr.
Qed.

Lemma raises_move_picked src_root dst_root src_items label force picked :
  Forall (fun i => (1 <= i <= Z.of_nat (length src_items))%Z) picked ->
  raises (fun e => is_OSError e = true)
    (move_picked src_root dst_root src_items label force picked).
Proof.
  intros Hpicked. apply raises_for_each. intros idx Hidx.
  rewrite Forall_forall in Hpicked.
  apply list_elem_of_In in Hidx. specialize (Hpicked idx Hidx).
  apply raises_bind; [|intros article].
  - unfold index. destruct (idx - 1 <? 0)%Z eqn:Hneg; [lia|].
    rewrite Hneg.
    destruct (src_items !! Z.to_nat (idx - 1)) as [a|] eqn:Hlook;
      [apply raises_ret|].
    apply lookup_ge_None in Hlook. lia.
  - apply raises_bind; [|intros _; apply raises_print].
    apply raises_lift_fs, raises_move_article.
Qed.

(** The second part of a run: the moves, the update and the last
    message. *)
Lemma raises_after_pick src_root dst_root src_items label force picked :
  Forall (fun i => (1 <= i <= Z.of_nat (length src_items))%Z) picked ->
  raises (fun e => is_OSError e = true \/ e = UnicodeDecodeError
                   \/ e = UnicodeEncodeError)
    (move_picked src_root dst_root src_items label force picked ;;
     lift_fs _update_mkdocs_nav ;;
     print (u "Updated mkdocs nav.") ;;
     ret 0%Z).
Proof.
  intros Hpicked. apply raises_bind; [|intros _].
  { eapply raises_weaken; [|by apply raises_move_picked]. intros e ?. by left. }
  apply raises_bind; [apply raises_lift_fs, raises_update_mkdocs_nav|intros _].
  apply raises_bind; [apply raises_print|intros _]. apply raises_ret.
Qed.

Lemma raises_interactive force : raises run_error (_interactive force).
Proof.
  unfold _interactive.
  apply (raises_bind_returns _ well_picked).
  - apply returns_well_picked.
  - eapply raises_weaken; [|apply raises_choose_and_pick].
    intros e [?|[?|?]]; unfold run_error; by eauto.
  - intros [code|src_root dst_root src_items label picked] Hc;
      [apply raises_ret|].
    eapply raises_weaken; [|by apply raises_after_pick].
    intros e [?|[?|?]]; unfold run_error; by eauto.
Qed.

Lemma returns_interactive force :
  returns (fun code => code = 0%Z \/ code = 2%Z) (_interactive force).
Proof.
  unfold _interactive.
  eapply returns_bind_with; [apply returns_well_picked|].
  intros [code|src_root dst_root src_items label picked] Hc.
  - by apply returns_ret.
  - do 3 (apply returns_bind; intros ?). apply returns_ret. by left.
Qed.

(** A run that ends with the code 2, with the end of the input or with
    an exit has done nothing to the file system but the call of
    [mkdir]. *)
Lemma interactive_stopped (force : bool) (w w' : world) (r : outcome Z) :
  _interactive force w = (r, w') ->
  r = Ret 2%Z \/ r = Raise EOFError \/ r = Raise (SystemExit 0) ->
  Path_mkdir_exist_ok DRAFTS_DIR (w_fs w) = (Ret tt, w_fs w').
Proof.
  unfold _interactive. intros Hrun Hr.
  apply bind_inv in Hrun as [(c & w1 & Hmenu & Hrun)|(e & Hmenu & ->)].
  - pose proof (returns_well_picked _ _ _ Hmenu) as Hc.
    destruct c as [code|src_root dst_root src_items label picked].
    + injection Hrun as <- <-. by apply (choose_and_pick_fs _ _ _ Hmenu).
    + exfalso. destruct r as [code|e].
      * apply bind_ret_inv in Hrun as (? & ? & _ & Hrun).
        apply bind_ret_inv in Hrun as (? & ? & _ & Hrun).
        apply bind_ret_inv in Hrun as (? & ? & _ & Hrun).
        injection Hrun as <- _. by destruct Hr as [[=]|[[=]|[=]]].
      * pose proof (raises_after_pick _ _ _ _ force _ Hc _ _ _ Hrun) as He.
        destruct Hr as [[=]|[[= ->]|[= ->]]];
          by destruct He as [[=]|[[=]|[=]]].
  - apply (choose_and_pick_fs _ _ _ Hmenu). intros e' [= <-].
    by destruct Hr as [[=]|[[= ->]|[= ->]]].
Qed.
End Outcomes.

(** ** After a move *)

(** A regular file renamed to a path where nothing is: the source is
    gone. *)
Lemma shutil_move_source_gone (src dst : list (list N)) (t t' : fs) data :
  lookup src t = Some (File data) -> lookup dst t = None ->
  shutil_move src dst t = (Ret tt, t') ->
  lookup src t' = None.
Proof.
  intros Hsrc Hdst. unfold shutil_move, bind, gets.
  assert (is_dir t dst = false) as -> by (unfold is_dir; by rewrite Hdst).
  unfold os_rename. rewrite Hdst.
  apply lookup_resolve in Hsrc as Hres. rewrite Hres.
  destruct (decide (src = dst)) as [->|Hne]; [congruence|].
  destruct (resolve (parent dst) t) as [e|[d|es]]; [done|done|].
  destruct (decide (src `prefix_of` dst)) as [|Hsd]; [done|].
  destruct (put_at dst (File data) (remove_at src t)) as [t2|] eqn:Hput;
    [|done].
  intros [= <-].
  assert (src <> []) as Hnil.
  { intros ->. apply Hsd, prefix_nil. }
  rewrite (put_at_frame _ _ _ _ _ Hput); [by apply remove_at_gone| |done].
  intros [r ->]. destruct (lookup_prefix_exists dst r t) as [n Hn]; [by eauto|].
  congruence.
Qed.

(** A move of a regular file that returns has put its bytes at the
    destination and removed the source. *)
Lemma move_article_moves (src_root dst_root relpath : list (list N))
    (force : bool) (t t' : fs) data :
  lookup (src_root ++ relpath) t = Some (File data) ->
  _move_article src_root dst_root relpath force t = (Ret tt, t') ->
  lookup (dst_root ++ relpath) t' = Some (File data)
  /\ lookup (src_root ++ relpath) t' = None.
Proof.
  intros Hsrc Hrun. split; [by apply (move_article_content _ _ _ _ _ _ _ Hsrc Hrun)|].
  revert Hsrc Hrun. rewrite move_article_unfold. cbv zeta.
  generalize (src_root ++ relpath) (dst_root ++ relpath). intros src dst Hsrc.
  destruct (mkdir_p (parent dst) t) as [e|t1] eqn:Hmk; [done|].
  pose proof (mkdir_p_keeps_file _ _ _ _ _ Hmk Hsrc) as Hsrc1.
  destruct (path_exists t1 dst) eqn:Hex.
  - destruct (negb force); [done|].
    destruct (is_dir t1 dst) eqn:Hdir; [done|].
    destruct (unlink_file dst t1 Hex Hdir) as [-> [old Hdst]].
    destruct (decide (src = dst)) as [->|Hne].
    { unfold shutil_move, bind, gets, os_rename.
      assert (dst <> []) as Hnil.
      { intros ->. rewrite lookup_nil in Hdst. injection Hdst as ->.
        simpl in Hmk. by destruct t. }
      pose proof (remove_at_gone dst t1 Hnil) as Hgone.
      assert (is_dir (remove_at dst t1) dst = false) as ->
        by (unfold is_dir; by rewrite Hgone).
      unfold lookup in Hgone.
      by destruct (resolve dst (remove_at dst t1)). }
    intros Hmove. apply (shutil_move_source_gone _ dst _ _ data) in Hmove;
      [done| |].
    + rewrite remove_at_frame; [done| |].
      * apply (file_not_prefix _ _ _ _ Hdst); [by rewrite Hsrc1|done].
      * apply (file_not_prefix _ _ _ _ Hsrc1); [by rewrite Hdst|done].
    + apply remove_at_gone. intros ->. rewrite lookup_nil in Hdst.
      injection Hdst as ->.
      destruct src; [done|]. by rewrite lookup_cons_file in Hsrc1.
  - intros Hmove. apply (shutil_move_source_gone _ dst _ _ data) in Hmove;
      [done|done|].
    unfold path_exists in Hex. by destruct (lookup dst t1).
Qed.

Section Compose.
Context `{Host}.

(** A scanned file that a move has taken from one store to the other
    is found by the scan of the destination store, and no more by the
    scan of the source store. *)
Lemma moved_file_changes_scan (src_root dst_root relpath : list (list N))
    (force : bool) (t t' : fs) :
  In (src_root ++ relpath) (_iter_md_files t src_root) ->
  _move_article src_root dst_root relpath force t = (Ret tt, t') ->
  In (dst_root ++ relpath) (_iter_md_files t' dst_root)
  /\ ~ In (src_root ++ relpath) (_iter_md_files t' src_root).
Proof.
  intros (q & Hq & Heq & Hfile & Hname)%iter_md_files_spec Hrun.
  apply app_inv_head in Heq as ->.
  unfold is_file in Hfile.
  destruct (lookup (src_root ++ q) t) as [[data|es]|] eqn:Hsrc; try done.
  destruct (move_article_moves _ _ _ _ _ _ _ Hsrc Hrun) as [Hdst Hgone].
  split.
  - apply iter_md_files_spec. exists q. split_and!; try done.
    unfold is_file. by rewrite Hdst.
  - intros (q' & _ & _ & Hfile' & _)%iter_md_files_spec.
    unfold is_file in Hfile'. by rewrite Hgone in Hfile'.
Qed.
End Compose.

(** ** The draft store at the start of a run *)

Lemma os_mkdir_exists (p : list (list N)) (t : fs) n :
  lookup p t = Some n -> os_mkdir p t = inl FileExistsError.
Proof.
  revert t. induction p as [|x p IH]; intros t; [done|].
  destruct t as [d|es]; [by rewrite lookup_cons_file|].
  rewrite lookup_cons_dir. simpl.
  destruct (assoc x es) as [c|]; [|done].
  intros Hc. by rewrite (IH _ Hc).
Qed.

Lemma mkdir_exist_ok_file (p : list (list N)) (t : fs) d :
  lookup p t = Some (File d) ->
  Path_mkdir_exist_ok p t = (Raise FileExistsError, t).
Proof.
  intros Hp. unfold Path_mkdir_exist_ok, try_except, lift_result.
  rewrite (os_mkdir_exists _ _ _ Hp). simpl. unfold bind, gets, is_dir.
  by rewrite Hp.
Qed.

Lemma mkdir_exist_ok_dir (p : list (list N)) (t : fs) es :
  lookup p t = Some (Dir es) -> Path_mkdir_exist_ok p t = (Ret tt, t).
Proof.
  intros Hp. unfold Path_mkdir_exist_ok, try_except, lift_result.
  rewrite (os_mkdir_exists _ _ _ Hp). simpl. unfold bind, gets, is_dir.
  by rewrite Hp.
Qed.

(** ** The extension of a scanned file *)

Lemma startswith_app (pre s : list N) :
  startswith pre s = true -> exists r, s = pre ++ r.
Proof.
  revert s. induction pre as [|a pre IH]; intros s; [by exists s|].
  destruct s as [|c s]; [done|]. simpl.
  intros [->%N.eqb_eq Hpre]%andb_true_iff.
  destruct (IH _ Hpre) as [r ->]. by exists r.
Qed.

Lemma endswith_app (suf s : list N) :
  endswith suf s = true -> exists r, s = r ++ suf.
Proof.
  unfold endswith. intros [r Hr]%startswith_app. exists (rev r).
  by rewrite <- (rev_involutive s), Hr, rev_app_distr, rev_involutive.
Qed.

(** A name that ends with [.md] and is more than that has the suffix
    [.md]. *)
Lemma suffix_md (nm : list N) :
  endswith (u ".md") nm = true -> nm <> u ".md" -> suffix nm = u ".md".
Proof.
  intros [pre ->]%endswith_app Hne.
  assert (pre <> []) as Hpre by (by intros ->).
  assert (0 < length pre)%nat as Hlen by (destruct pre; [done|simpl; lia]).
  unfold suffix, cut_point, rfind.
  rewrite rev_app_distr.
  change (rev (u ".md")) with [100%N; 109%N; Chr.dot].
  change (find_char Chr.dot ([100%N; 109%N; Chr.dot] ++ rev pre))
    with (Some 2%nat).
  simpl fmap. rewrite length_app.
  change (length (u ".md")) with 3%nat.
  replace (length pre + 3 - 1 - 2)%nat with (length pre) by lia.
  assert ((0 <? length pre)%nat && (length pre <? length pre + 3 - 1)%nat
          = true) as ->.
  { apply andb_true_iff. split; apply Nat.ltb_lt; lia. }
  by rewrite drop_app_length.
Qed.

Section Listed.
Context `{Host}.

Lemma listed_is_file (t : fs) (a : Article) :
  In a (_articles_in_docs t) \/ In a (_articles_in_drafts t) ->
  is_file t (abspath a) = true /\ fnmatch_md (name (relpath a)) = true.
Proof.
  destruct a as [r q]. unfold abspath. simpl.
  intros [Hin|Hin].
  - apply articles_in_docs_spec in Hin as (-> & _ & Hfile & Hname & _). done.
  - apply articles_in_drafts_spec in Hin as (-> & _ & Hfile & Hname). done.
Qed.
End Listed.

(** * The claims of the specification *)

(** ** The mover *)

(** C1, as the specification states it, does not hold: with
    [overwrite = false] a destination that is a directory is answered
    with [FileExistsError], the first test of the overwrite policy. *)
Lemma C1_counterexample :
  ~ (forall (src_root dst_root relpath : list (list N)) (force : bool) (t : fs),
       is_dir t (dst_root ++ relpath) = true ->
       fst (_move_article src_root dst_root relpath force t)
       = Raise IsADirectoryError).
Proof.
  intros Hclaim.
  specialize (Hclaim site_docs site_drafts [u "x.md"] false clash_site eq_refl).
  vm_compute in Hclaim. discriminate.
Qed.

(** C1, amended: when the destination path exists and is a directory,
    the move fails for either value of [overwrite] and changes nothing;
    it raises [IsADirectoryError] when [overwrite] is set, and
    [FileExistsError] when it is not. *)
Theorem C1_move_onto_directory
    (src_root dst_root relpath : list (list N)) (t : fs) :
  is_dir t (dst_root ++ relpath) = true ->
  _move_article src_root dst_root relpath true t = (Raise IsADirectoryError, t)
  /\ _move_article src_root dst_root relpath false t
     = (Raise FileExistsError, t).
Proof.
  intros Hd. rewrite !move_article_unfold. cbv zeta.
  rewrite (mkdir_p_parent_of_dir _ _ Hd), (is_dir_exists _ _ Hd), Hd. done.
Qed.

Lemma C1_move_onto_directory_witness :
  is_dir clash_site (site_drafts ++ [u "x.md"]) = true
  /\ _move_article site_docs site_drafts [u "x.md"] true clash_site
     = (Raise IsADirectoryError, clash_site)
  /\ _move_article site_docs site_drafts [u "x.md"] false clash_site
     = (Raise FileExistsError, clash_site).
Proof.
  split; [reflexivity|].
  apply (C1_move_onto_directory site_docs site_drafts [u "x.md"] clash_site).
  reflexivity.
Defined.

(** C7: an article moved from store A to store B and back, both moves
    succeeding, has at its original path in A the bytes it had before;
    in between, the same bytes are at that relative path in B. *)
Theorem C7_round_trip (store_a store_b relpath : list (list N))
    (force1 force2 : bool) (t t1 t2 : fs) (data : list byte) :
  lookup (store_a ++ relpath) t = Some (File data) ->
  _move_article store_a store_b relpath force1 t = (Ret tt, t1) ->
  _move_article store_b store_a relpath force2 t1 = (Ret tt, t2) ->
  lookup (store_b ++ relpath) t1 = Some (File data)
  /\ lookup (store_a ++ relpath) t2 = Some (File data).
Proof.
  intros Hsrc Hmv1 Hmv2.
  pose proof (move_article_content _ _ _ _ _ _ _ Hsrc Hmv1) as Hmid.
  split; [done|]. by apply (move_article_content _ _ _ _ _ _ _ Hmid Hmv2).
Qed.

Lemma C7_round_trip_witness :
  let rel := [u "agents"; u "b_plan-one.md"] in
  let t1 := snd (_move_article site_drafts site_docs rel false small_site) in
  let t2 := snd (_move_article site_docs site_drafts rel false t1) in
  lookup (site_drafts ++ rel) small_site = Some (File (b "no heading"))
  /\ lookup (site_docs ++ rel) t1 = Some (File (b "no heading"))
  /\ lookup (site_drafts ++ rel) t2 = Some (File (b "no heading")).
Proof.
  intros rel t1 t2. split; [reflexivity|].
  apply (C7_round_trip site_drafts site_docs rel false false small_site t1 t2);
    reflexivity.
Defined.

(** C8: a move that raises [FileExistsError] or [IsADirectoryError]
    leaves the file system as it was; in particular the source file is
    still there, with the same bytes. *)
Theorem C8_failed_move_keeps_source
    (src_root dst_root relpath : list (list N)) (force : bool)
    (t t' : fs) (e : exn) :
  _move_article src_root dst_root relpath force t = (Raise e, t') ->
  e = FileExistsError \/ e = IsADirectoryError ->
  t' = t
  /\ forall data, lookup (src_root ++ relpath) t = Some (File data) ->
                  lookup (src_root ++ relpath) t' = Some (File data).
Proof.
  rewrite move_article_unfold. cbv zeta.
  generalize (src_root ++ relpath) (dst_root ++ relpath). intros src dst.
  intros Hmv He.
  assert (t' = t) as ->; [|done].
  destruct (mkdir_p (parent dst) t) as [e0|t1] eqn:Hmk.
  { by injection Hmv. }
  destruct (path_exists t1 dst) eqn:Hex.
  - pose proof (mkdir_p_parent_exists _ _ _ Hmk Hex) as ->.
    destruct force; simpl in Hmv; [|by injection Hmv].
    destruct (is_dir t dst) eqn:Hd; [by injection Hmv|].
    destruct (unlink_file _ _ Hex Hd) as [Hun _]. rewrite Hun in Hmv.
    apply shutil_move_error in Hmv. destruct He as [->| ->]; by destruct Hmv.
  - apply shutil_move_error in Hmv. destruct He as [->| ->]; by destruct Hmv.
Qed.

Lemma C8_failed_move_keeps_source_witness :
  _move_article site_docs site_drafts [u "x.md"] false clash_site
  = (Raise FileExistsError, clash_site)
  /\ lookup (site_docs ++ [u "x.md"]) clash_site = Some (File (b "# X")).
Proof.
  split; [reflexivity|].
  apply (C8_failed_move_keeps_source site_docs site_drafts [u "x.md"] false
           clash_site clash_site FileExistsError);
    [reflexivity|by left|reflexivity].
Defined.

(** ** Titles and the scan *)

(** C2 fails on the code: [_read_title] catches [OSError] only, and
    [read_text] raises [UnicodeDecodeError], a [ValueError], on a file
    that is not UTF-8.  The exception leaves [_read_title]; through
    [_render_nav_yaml] it ends the whole update of the navigation. *)
Lemma C2_read_title_raises_on_invalid_utf8 :
  @_read_title posix [u "site"; u "docs"; u "llm"; u "bad.md"] latin1_site
  = (Raise UnicodeDecodeError, latin1_site)
  /\ @_update_mkdocs_nav posix latin1_site
     = (Raise UnicodeDecodeError, latin1_site).
Proof. split; reflexivity. Qed.

(** C3 fails on a POSIX host: [rglob("*.md")] matches names with case
    there, so [X.MD] is not listed, although [Article.is_markdown]
    counts it as Markdown; on a Windows host it is listed.  The other
    way round, the pattern lists the file [.md], which has no extension
    and is no Markdown for [is_markdown]. *)
Lemma C3_scan_skips_capital_extension :
  is_file capitals_site [u "site"; u "docs"; u "llm"; u "X.MD"] = true
  /\ @is_markdown posix (mkArticle site_docs [u "llm"; u "X.MD"]) = true
  /\ @_iter_md_files posix capitals_site (@DOCS_DIR posix) = []
  /\ @_iter_md_files windows capitals_site (@DOCS_DIR windows)
     = [[u "site"; u "docs"; u "llm"; u "X.MD"]]
  /\ @is_markdown posix (mkArticle site_docs [u "llm"; u ".md"]) = false
  /\ @_iter_md_files posix dotfile_site (@DOCS_DIR posix)
     = [[u "site"; u "docs"; u "llm"; u ".md"]].
Proof. repeat split; reflexivity. Qed.

(** What the renderer does: the rendered manifest is made of the lines
    that the renderer emits, and a section header is among them exactly
    when the scan of the section's directory finds a file, at any depth;
    a directory that is missing or empty gives no header. *)
Lemma section_header_iff_scanned `{Host} (t t' : fs) (lines : list (list N))
    (header sub : list N) :
  _render_nav_lines t = (Ret lines, t') ->
  In (header, sub) sections ->
  _render_nav_yaml t = (Ret (join [Chr.LF] lines ++ [Chr.LF]), t)
  /\ (In header lines <-> contains_article t (DOCS_DIR ++ [sub]))
  /\ (is_dir t (DOCS_DIR ++ [sub]) = false
      \/ lookup (DOCS_DIR ++ [sub]) t = Some (Dir []) ->
      ~ In header lines).
Proof.
  intros Hrender Hsec.
  assert (In header lines <-> contains_article t (DOCS_DIR ++ [sub])) as Hiff.
  { unfold _render_nav_lines in Hrender.
    apply bind_ret_inv in Hrender as (a & t1 & Ha & Hrender).
    apply bind_ret_inv in Hrender as (b & t2 & Hb & Hrender).
    apply bind_ret_inv in Hrender as (c & t3 & Hc & Hrender).
    pose proof (keeps_section_items _ _ _ _ Ha) as <-.
    pose proof (keeps_section_items _ _ _ _ Hb) as <-.
    injection Hrender as <- _.
    rewrite (header_in_nav_lines header sub a b c Hsec).
    rewrite (section_items_nil _ _ _ _ Ha), (section_items_nil _ _ _ _ Hb),
      (section_items_nil _ _ _ _ Hc).
    simpl in Hsec.
    destruct Hsec as [[= <- <-]|[[= <- <-]|[[= <- <-]|[]]]]; split;
      try (intros [[Hs Hart]|[[Hs Hart]|[Hs Hart]]];
           try (by vm_compute in Hs); done);
      intros Hart; eauto. }
  split; [|split; [done|]].
  - pose proof (keeps_render_nav_lines _ _ _ Hrender) as <-.
    unfold _render_nav_yaml, bind. by rewrite Hrender.
  - intros Hdir. rewrite Hiff. by apply no_article_in_empty.
Qed.

(** C9: on a POSIX host the section of [docs/llm] does not appear in
    the rendered manifest although the directory holds an eligible
    article, [X.MD], whose extension is the markup extension but for
    the case: the scan behind the renderer matches [*.md] with case.
    On a Windows host the same file system gives the section. *)
Theorem C9_section_omitted_for_capital_extension :
  @holds_eligible_article posix capitals_site (@DOCS_DIR posix ++ [u "llm"])
  /\ (exists text,
        @_render_nav_yaml posix capitals_site = (Ret text, capitals_site)
        /\ ~ section_appears LLM_HEADER text)
  /\ (exists text,
        @_render_nav_yaml windows capitals_site = (Ret text, capitals_site)
        /\ section_appears LLM_HEADER text).
Proof.
  split; [|split].
  - exists [u "X.MD"]. by vm_compute.
  - eexists. split; [reflexivity|].
    unfold section_appears. vm_compute.
    intros [Hl|[Hl|[Hl|[Hl|[]]]]]; discriminate Hl.
  - eexists. split; [reflexivity|].
    unfold section_appears. vm_compute. tauto.
Qed.

(** The other way round: below [docs/llm] a file named [.md], which has
    no extension, is no eligible article, and the section appears. *)
Remark section_emitted_for_dotfile :
  ~ @holds_eligible_article posix dotfile_site (@DOCS_DIR posix ++ [u "llm"])
  /\ exists text,
       @_render_nav_yaml posix dotfile_site = (Ret text, dotfile_site)
       /\ section_appears LLM_HEADER text.
Proof.
  split.
  - intros (q & Hq & Hfile & Hel). unfold is_file in Hfile.
    rewrite lookup_app in Hfile.
    change (lookup (@DOCS_DIR posix ++ [u "llm"]) dotfile_site)
      with (Some (Dir [(u ".md", File (b "# Hidden"))])) in Hfile.
    destruct q as [|x q]; [done|]. rewrite lookup_cons_dir in Hfile.
    simpl in Hfile. destruct (decide (x = u ".md")) as [->|]; [|done].
    destruct q as [|y q]; [by vm_compute in Hel|].
    by rewrite lookup_cons_file in Hfile.
  - eexists. split; [reflexivity|].
    unfold section_appears. vm_compute. tauto.
Qed.

(** ** The splice into the configuration document *)

(** C4, as the specification states it, does not hold: a line [nav: ]
    with a space after the colon is no header token on its own, yet the
    code takes it for the start of the block and drops what follows. *)
Lemma C4_counterexample :
  ~ (forall text nav_yaml : list N,
       spliced text nav_yaml = spec_spliced exact_marker text nav_yaml).
Proof.
  intros Hclaim.
  specialize (Hclaim (u "site_name: Notes
nav: 
theme: readthedocs
") (u "nav:
")).
  vm_compute in Hclaim. discriminate.
Qed.

(** C4, amended: the marker is the first line made of the header token
    followed by white space only.  With such a line the new text is the
    text before that line, unchanged, then the rendered block; without
    one it is the whole text, completed by a line feed when it does not
    end with one, then a blank line, then the rendered block. *)
Theorem C4_splice_at_marker_line (text nav_yaml : list N) :
  spliced text nav_yaml = spec_spliced loose_marker text nav_yaml.
Proof.
  unfold spliced, spec_spliced. rewrite nav_search_lines.
  destruct (first_line_offset _ _ _); [done|].
  destruct (endswith [Chr.LF] text); simpl; [done|].
  by rewrite <- app_assoc.
Qed.

(** On the file itself the text before the marker is kept up to line
    ends: [read_text] turns [\r\n] into [\n], and [write_text] writes
    the host's line separator. *)
Remark update_nav_rewrites_line_ends :
  lookup (@MKDOCS_YML posix) crlf_site
  = Some (File [x73; x3a; x20; x78; x0d; x0a; x6e; x61; x76; x3a; x0d; x0a])
  /\ lookup (@MKDOCS_YML posix) (snd (@_update_mkdocs_nav posix crlf_site))
     = Some (File (b "s: x
nav:
  - Home: index.md
  - About: about.md
")).
Proof. split; reflexivity. Qed.

(** ** The selection parser *)

(** C5: the indices that [_prompt_indices] returns lie between 1 and the
    number of items and are strictly increasing, hence sorted and without
    duplicates; a range token adds the integers between its two numbers
    in either order; and the examples of the specification evaluate as
    stated. *)
Theorem C5_selection_sorted_in_range :
  (forall (H : Host) (items : list (list N)) (prompt : list N)
          (w w' : world) (l : list Z),
     _prompt_indices items prompt w = (Ret l, w') ->
     Forall (fun i => (1 <= i <= Z.of_nat (length items))%Z) l
     /\ StronglySorted Z.lt l)
  /\ (forall (start_s end_s : list N) (a b : Z) (indices : gset Z)
             (w : world),
        ~ In Chr.minus start_s ->
        py_int start_s = Some a -> py_int end_s = Some b ->
        exists X : gset Z,
          add_part (start_s ++ Chr.minus :: end_s) indices w = (Ret X, w)
          /\ forall i : Z,
               i ∈ X <-> i ∈ indices \/ (Z.min a b <= i <= Z.max a b)%Z)
  /\ (let items := [u "a"; u "b"; u "c"; u "d"; u "e"] in
      fst (@_prompt_indices posix items (u "> ")
             (World (Dir []) [u "1,1,2-3,2"] [] []))
      = Ret [1; 2; 3]%Z
      /\ fst (@_prompt_indices posix items (u "> ")
                (World (Dir []) [u "3-1"] [] []))
         = Ret [1; 2; 3]%Z).
Proof.
  split; [|split; [apply add_part_range|by vm_compute]].
  intros H items prompt w w' l Hrun.
  apply prompt_indices_returns in Hrun as [->|[indices ->]].
  { split; constructor. }
  set (keep := fun i => (1 <=? i)%Z && (i <=? Z.of_nat (length items))%Z).
  split.
  - apply Forall_forall. intros i Hi.
    rewrite merge_sort_Permutation in Hi.
    apply list_elem_of_In, filter_In in Hi as [_ Hi]. unfold keep in Hi. lia.
  - apply sorted_le_nodup_lt.
    + apply (StronglySorted_merge_sort Z.le).
    + rewrite merge_sort_Permutation.
      apply NoDup_ListNoDup, List.NoDup_filter, NoDup_ListNoDup, NoDup_elements.
Qed.

Lemma C5_selection_sorted_in_range_witness :
  let items := [u "a"; u "b"; u "c"; u "d"; u "e"] in
  let w := World (Dir []) [u "5 2-3,2"] [] [] in
  @_prompt_indices posix items (u "> ") w
  = (Ret [2; 3; 5]%Z,
     snd (@_prompt_indices posix items (u "> ") w))
  /\ Forall (fun i => (1 <= i <= 5)%Z) [2; 3; 5]%Z
  /\ StronglySorted Z.lt [2; 3; 5]%Z.
Proof.
  intros items w. split; [by vm_compute|].
  apply (proj1 C5_selection_sorted_in_range posix items (u "> ") w
           (snd (@_prompt_indices posix items (u "> ") w))).
  by vm_compute.
Defined.

(** ** The interactive run *)

(** C6 fails on the code: after an empty selection, which the prompt
    calls a cancellation, [_interactive] still goes on to
    [_update_mkdocs_nav].  It rewrites the navigation block and prints
    [Updated mkdocs nav.]; without [mkdocs.yml] it even ends with
    [FileNotFoundError] instead of status 0.  Both stores stay as they
    were. *)
Lemma C6_empty_selection_updates_nav :
  let w := World two_drafts_site [u "2"; u "   "] [] [] in
  let w' := snd (@main posix (mkArgs false false) w) in
  fst (@main posix (mkArgs false false) w) = Ret 0%Z
  /\ List.last (w_stdout w') [] = u "Updated mkdocs nav." ++ [Chr.LF]
  /\ lookup (@MKDOCS_YML posix) (w_fs w) = Some (File old_yml)
  /\ lookup (@MKDOCS_YML posix) (w_fs w')
     = Some (File (b "site_name: Notes
nav:
  - Home: index.md
  - About: about.md
"))
  /\ lookup (@DOCS_DIR posix) (w_fs w') = lookup (@DOCS_DIR posix) (w_fs w)
  /\ lookup (@DRAFTS_DIR posix) (w_fs w')
     = lookup (@DRAFTS_DIR posix) (w_fs w)
  /\ fst (@main posix (mkArgs false false)
            (World no_yml_site [u "2"; u ""] [] []))
     = Raise FileNotFoundError.
Proof. repeat split; by vm_compute. Qed.

(** C10: when a move of the batch raises, the run ends there with that
    exception, and the configuration document is what it was when the
    run started; the moves done before stay done. *)
Theorem C10_failed_batch_leaves_nav `{Host} (force : bool) (w w1 w2 : world)
    (src_root dst_root : list (list N)) (src_items : list Article)
    (label : list N) (picked : list Z) (e : exn) :
  choose_and_pick w
  = (Ret (Picked src_root dst_root src_items label picked), w1) ->
  move_picked src_root dst_root src_items label force picked w1
  = (Raise e, w2) ->
  _interactive force w = (Raise e, w2)
  /\ lookup MKDOCS_YML (w_fs w2) = lookup MKDOCS_YML (w_fs w).
Proof.
  intros Hpick Hmoves. split.
  - unfold _interactive, bind. rewrite Hpick. simpl.
    unfold bind. by rewrite Hmoves.
  - pose proof (keeps_choose_and_pick _ _ _ Hpick) as Hw1.
    pose proof (returns_choose_and_pick _ _ _ Hpick) as Hstores.
    pose proof (keeps_move_picked _ _ _ _ _ _ Hstores _ _ _ Hmoves) as Hw2.
    unfold on_fs, unchanged_at in *. congruence.
Qed.

Lemma C10_failed_batch_leaves_nav_witness :
  let w := World two_drafts_site [u "2"; u "1 2"] [] [] in
  let w2 := snd (@_interactive posix false w) in
  @_interactive posix false w = (Raise FileExistsError, w2)
  /\ lookup (@MKDOCS_YML posix) (w_fs w2) = Some (File old_yml)
  /\ lookup (site_docs ++ [u "a.md"]) (w_fs w) = None
  /\ lookup (site_docs ++ [u "a.md"]) (w_fs w2) = Some (File (b "# Draft A")).
Proof.
  intros w w2.
  pose (items := [@mkArticle site_drafts [u "a.md"];
                  @mkArticle site_drafts [u "b.md"]]).
  destruct (@C10_failed_batch_leaves_nav posix false w
              (snd (@choose_and_pick posix w)) w2
              site_drafts site_docs items (u "Publish") [1; 2]%Z
              FileExistsError) as [Hrun Hyml]; [by vm_compute..|].
  split; [exact Hrun|]. split; [|split; by vm_compute].
  rewrite Hyml. by vm_compute.
Defined.

(** * Further properties of the code *)

(** ** [_move_article] *)

(** X1: a regular file moved to a path that does not exist yet, with no
    regular file on the way to the destination's directory: the move
    returns, the destination holds the bytes of the source, and the
    source is gone.  The missing directories are created. *)
Theorem X1_move_to_free_path (src_root dst_root relpath : list (list N))
    (force : bool) (t : fs) (data : list byte) :
  lookup (src_root ++ relpath) t = Some (File data) ->
  lookup (dst_root ++ relpath) t = None ->
  (forall q, q `prefix_of` parent (dst_root ++ relpath) ->
             is_file t q = false) ->
  exists t',
    _move_article src_root dst_root relpath force t = (Ret tt, t')
    /\ lookup (dst_root ++ relpath) t' = Some (File data)
    /\ lookup (src_root ++ relpath) t' = None.
Proof.
  rewrite move_article_unfold. cbv zeta.
  generalize (src_root ++ relpath) (dst_root ++ relpath). intros src dst.
  intros Hsrc Hdst Hway.
  destruct (mkdir_p_succeeds _ _ Hway) as [t1 Hmk]. rewrite Hmk.
  assert (path_exists t1 dst = false) as Hex.
  { destruct (path_exists t1 dst) eqn:Hex; [|done].
    pose proof (mkdir_p_parent_exists _ _ _ Hmk Hex) as ->.
    unfold path_exists in Hex. by rewrite Hdst in Hex. }
  rewrite Hex. unfold path_exists in Hex.
  destruct (mkdir_p_makes_dir _ _ _ Hmk) as [es Hpar].
  apply (shutil_move_fresh src dst t1 data es); try done.
  - by apply (mkdir_p_keeps_file _ _ _ _ _ Hmk).
  - by destruct (lookup dst t1).
  - intros Hpre. apply (mkdir_p_not_through_file _ _ _ _ _ Hmk Hsrc).
    apply parent_not_nil_prefix; [done|]. intros ->. by rewrite Hsrc in Hdst.
Qed.

Lemma X1_move_to_free_path_witness :
  let rel := [u "agents"; u "b_plan-one.md"] in
  lookup (site_drafts ++ rel) small_site = Some (File (b "no heading"))
  /\ exists t',
       _move_article site_drafts site_docs rel false small_site = (Ret tt, t')
       /\ lookup (site_docs ++ rel) t' = Some (File (b "no heading"))
       /\ lookup (site_drafts ++ rel) t' = None.
Proof.
  intros rel. split; [reflexivity|].
  apply (X1_move_to_free_path site_drafts site_docs rel false small_site);
    [reflexivity|reflexivity|].
  intros q Hq. unfold is_file.
  destruct (lookup q small_site) as [[d|es]|] eqn:Hl; try done.
  destruct Hq as [r Hr]. vm_compute in Hr.
  destruct q as [|x [|y [|z [|? ?]]]]; simplify_eq; by vm_compute in Hl.
Defined.

(** X2: with [force], a regular file at the destination is replaced:
    the move returns, the destination holds the bytes of the source, and
    the source is gone. *)
Theorem X2_forced_move_overwrites (src_root dst_root relpath : list (list N))
    (t : fs) (data old : list byte) :
  lookup (src_root ++ relpath) t = Some (File data) ->
  lookup (dst_root ++ relpath) t = Some (File old) ->
  src_root ++ relpath <> dst_root ++ relpath ->
  exists t',
    _move_article src_root dst_root relpath true t = (Ret tt, t')
    /\ lookup (dst_root ++ relpath) t' = Some (File data)
    /\ lookup (src_root ++ relpath) t' = None.
Proof.
  rewrite move_article_unfold. cbv zeta.
  generalize (src_root ++ relpath) (dst_root ++ relpath). intros src dst.
  intros Hsrc Hdst Hne.
  assert (dst <> []) as Hdnil.
  { intros ->. rewrite lookup_nil in Hdst. injection Hdst as ->.
    destruct src; [done|]. by rewrite lookup_cons_file in Hsrc. }
  destruct (parent_is_dir dst t Hdnil) as [es Hpar]; [by rewrite Hdst|].
  rewrite (mkdir_p_dir _ _ _ Hpar).
  assert (path_exists t dst = true) as -> by (unfold path_exists; by rewrite Hdst).
  assert (is_dir t dst = false) as Hd by (unfold is_dir; by rewrite Hdst).
  simpl. rewrite Hd.
  destruct (unlink_file dst t) as [-> _];
    [unfold path_exists; by rewrite Hdst|done|].
  assert (~ src `prefix_of` dst) as Hsd.
  { apply (file_not_prefix _ _ _ _ Hsrc); [by rewrite Hdst|done]. }
  assert (~ dst `prefix_of` src) as Hds.
  { apply (file_not_prefix _ _ _ _ Hdst); [by rewrite Hsrc|done]. }
  destruct (remove_at_keeps_dir dst _ t es Hpar) as [es' Hpar'].
  { by apply not_prefix_of_parent. }
  apply (shutil_move_fresh src dst _ data es'); try done.
  - by rewrite remove_at_frame.
  - by apply remove_at_gone.
Qed.

Lemma X2_forced_move_overwrites_witness :
  lookup (site_drafts ++ [u "b.md"]) two_drafts_site
  = Some (File (b "# Draft B"))
  /\ exists t',
       _move_article site_drafts site_docs [u "b.md"] true two_drafts_site
       = (Ret tt, t')
       /\ lookup (site_docs ++ [u "b.md"]) t' = Some (File (b "# Draft B"))
       /\ lookup (site_drafts ++ [u "b.md"]) t' = None.
Proof.
  split; [reflexivity|].
  apply (X2_forced_move_overwrites site_drafts site_docs [u "b.md"]
           two_drafts_site (b "# Draft B") (b "# Published B"));
    [reflexivity|reflexivity|by vm_compute].
Defined.

(** X3: without [force], anything at the destination (a file or a
    directory) makes the move raise [FileExistsError], and nothing is
    changed. *)
Theorem X3_unforced_move_refuses (src_root dst_root relpath : list (list N))
    (t : fs) :
  path_exists t (dst_root ++ relpath) = true ->
  _move_article src_root dst_root relpath false t
  = (Raise FileExistsError, t).
Proof.
  rewrite move_article_unfold. cbv zeta.
  generalize (dst_root ++ relpath). intros dst Hex.
  destruct (decide (dst = [])) as [->|Hdnil].
  - simpl. by destruct t.
  - apply path_exists_lookup in Hex as Hsome.
    destruct (parent_is_dir dst t Hdnil Hsome) as [es Hpar].
    by rewrite (mkdir_p_dir _ _ _ Hpar), Hex.
Qed.

Lemma X3_unforced_move_refuses_witness :
  path_exists two_drafts_site (site_docs ++ [u "b.md"]) = true
  /\ _move_article site_drafts site_docs [u "b.md"] false two_drafts_site
     = (Raise FileExistsError, two_drafts_site).
Proof.
  split; [reflexivity|].
  by apply (X3_unforced_move_refuses site_drafts site_docs [u "b.md"]).
Defined.

(** X4: whatever its outcome, a move leaves untouched every path that is
    apart from its source and from its destination. *)
Theorem X4_move_touches_source_and_destination_only
    (src_root dst_root relpath q : list (list N)) (force : bool)
    (t t' : fs) (r : outcome unit) :
  apart (src_root ++ relpath) q -> apart (dst_root ++ relpath) q ->
  _move_article src_root dst_root relpath force t = (r, t') ->
  lookup q t' = lookup q t.
Proof.
  intros Hs Hd Hmv.
  by apply (keeps_move_article q _ _ _ force Hs Hd _ _ _ Hmv).
Qed.

Lemma X4_move_touches_source_and_destination_only_witness :
  let t' := snd (_move_article site_drafts site_docs [u "a.md"] false
                   two_drafts_site) in
  apart (site_drafts ++ [u "a.md"]) (site_drafts ++ [u "b.md"])
  /\ lookup (site_drafts ++ [u "b.md"]) t'
     = lookup (site_drafts ++ [u "b.md"]) two_drafts_site.
Proof.
  intros t'.
  assert (apart (site_drafts ++ [u "a.md"]) (site_drafts ++ [u "b.md"])) as Ha.
  { apply apart_siblings. by vm_compute. }
  split; [exact Ha|].
  apply (X4_move_touches_source_and_destination_only site_drafts site_docs
           [u "a.md"] _ false two_drafts_site t'
           (fst (_move_article site_drafts site_docs [u "a.md"] false
                   two_drafts_site))); [exact Ha| |reflexivity].
  change (site_docs ++ [u "a.md"]) with ([u "site"] ++ u "docs" :: [u "a.md"]).
  change (site_drafts ++ [u "b.md"]) with ([u "site"] ++ u "drafts" :: [u "b.md"]).
  apply apart_siblings. by vm_compute.
Defined.

(** X5: with [force], when the source is missing and the destination is
    a regular file, the destination is unlinked before the move is
    tried: the call raises, and the destination file is lost.  The
    relative path of an article is never empty. *)
Theorem X5_forced_move_of_missing_source (src_root dst_root relpath : list (list N))
    (t : fs) (old : list byte) :
  relpath <> [] ->
  lookup (src_root ++ relpath) t = None ->
  lookup (dst_root ++ relpath) t = Some (File old) ->
  exists e t',
    _move_article src_root dst_root relpath true t = (Raise e, t')
    /\ (e = FileNotFoundError \/ e = NotADirectoryError)
    /\ lookup (dst_root ++ relpath) t' = None.
Proof.
  intros Hrel. rewrite move_article_unfold. cbv zeta.
  assert (dst_root ++ relpath <> []) as Hdnil.
  { intros [_ ?]%app_eq_nil. done. }
  revert Hdnil.
  generalize (src_root ++ relpath) (dst_root ++ relpath). intros src dst.
  intros Hdnil Hsrc Hdst.
  destruct (parent_is_dir dst t Hdnil) as [es Hpar]; [by rewrite Hdst|].
  rewrite (mkdir_p_dir _ _ _ Hpar).
  assert (path_exists t dst = true) as -> by (unfold path_exists; by rewrite Hdst).
  assert (is_dir t dst = false) as Hd by (unfold is_dir; by rewrite Hdst).
  simpl. rewrite Hd.
  destruct (unlink_file dst t) as [-> _];
    [unfold path_exists; by rewrite Hdst|done|].
  pose proof (remove_at_gone dst t Hdnil) as Hgone.
  assert (lookup src (remove_at dst t) = None) as Hsrc'.
  { destruct (decide (dst `prefix_of` src)) as [[r ->]|Hpre].
    - by rewrite lookup_app, Hgone.
    - destruct (decide (src `prefix_of` dst)) as [Hpre'|Hpre'].
      + destruct (lookup src (remove_at dst t)) eqn:Hl; [|done].
        destruct Hpre' as [r ->].
        assert (is_Some (lookup (src ++ r) t)) as Hex by (by rewrite Hdst).
        apply lookup_prefix_exists in Hex. rewrite Hsrc in Hex.
        by destruct Hex.
      + by rewrite remove_at_frame. }
  unfold shutil_move, bind, gets, is_dir. rewrite Hgone.
  unfold os_rename, lookup in *.
  destruct (resolve src (remove_at dst t)) as [e|n] eqn:Hr; [|done].
  exists e, (remove_at dst t). split; [done|]. split; [|done].
  by apply (resolve_error _ _ _ Hr).
Qed.

Lemma X5_forced_move_of_missing_source_witness :
  lookup (site_drafts ++ [u "x.md"]) published_site = None
  /\ exists e t',
       _move_article site_drafts site_docs [u "x.md"] true published_site
       = (Raise e, t')
       /\ (e = FileNotFoundError \/ e = NotADirectoryError)
       /\ lookup (site_docs ++ [u "x.md"]) t' = None.
Proof.
  split; [by vm_compute|].
  apply (X5_forced_move_of_missing_source site_drafts site_docs [u "x.md"]
           published_site (b "# X"));
    [done|reflexivity|reflexivity].
Defined.

(** ** The scan and the two stores *)

(** X6: the scan of a directory lists exactly the regular files below
    it, at any depth, whose name matches the pattern [*.md] as the host
    matches it; nothing is listed for a directory that does not
    exist. *)
Theorem X6_scan_lists_matching_files `{Host} (t : fs)
    (root p : list (list N)) :
  In p (_iter_md_files t root) <->
  exists q, q <> [] /\ p = root ++ q /\ is_file t p = true
            /\ fnmatch_md (name q) = true.
Proof. apply iter_md_files_spec. Qed.

(** X7: the scan comes sorted by the lower-cased path string: no path
    of the list has a key smaller than the key of a path before it. *)
Theorem X7_scan_is_sorted `{Host} (t : fs) (root : list (list N)) :
  StronglySorted
    (fun p1 p2 =>
       str_ltb (str_lower (str_of_path p2)) (str_lower (str_of_path p1))
       = false)
    (_iter_md_files t root).
Proof.
  unfold _iter_md_files. destruct (negb _); [constructor|].
  apply (sorted_by_sorted (fun p => str_lower (str_of_path p))).
Qed.

(** X8: the published articles are the scanned files of [docs/] but the
    reserved ones, each with [docs/] as its root and its path below
    [docs/] as its relative path. *)
Theorem X8_articles_in_docs `{Host} (t : fs) (r q : list (list N)) :
  In (mkArticle r q) (_articles_in_docs t) <->
  r = DOCS_DIR /\ q <> [] /\ is_file t (DOCS_DIR ++ q) = true
  /\ fnmatch_md (name q) = true
  /\ existsb (path_eqb q) reserved = false.
Proof. apply articles_in_docs_spec. Qed.

(** X9: on every host, no published article has [index.md] or
    [about.md] at the top of [docs/] as its relative path. *)
Theorem X9_reserved_not_listed `{Host} (t : fs) (a : Article) :
  In a (_articles_in_docs t) -> ~ In (relpath a) reserved.
Proof.
  destruct a as [r q]. intros Hin Hres. simpl in Hres.
  apply articles_in_docs_spec in Hin as (_ & _ & _ & _ & Hno).
  assert (existsb (path_eqb q) reserved = true) as Hyes; [|congruence].
  apply existsb_exists. exists q. split; [done|apply path_eqb_refl].
Qed.

Lemma X9_reserved_not_listed_witness :
  In (mkArticle site_docs [u "llm"; u "a.md"])
    (@_articles_in_docs posix small_site)
  /\ ~ In [u "llm"; u "a.md"] reserved.
Proof.
  assert (In (mkArticle site_docs [u "llm"; u "a.md"])
            (@_articles_in_docs posix small_site)) as Hin.
  { vm_compute. by left. }
  split; [exact Hin|].
  exact (@X9_reserved_not_listed posix small_site _ Hin).
Defined.

(** X10: the drafts are the scanned files of [drafts/], none excepted,
    each with [drafts/] as its root. *)
Theorem X10_articles_in_drafts `{Host} (t : fs) (r q : list (list N)) :
  In (mkArticle r q) (_articles_in_drafts t) <->
  r = DRAFTS_DIR /\ q <> [] /\ is_file t (DRAFTS_DIR ++ q) = true
  /\ fnmatch_md (name q) = true.
Proof. apply articles_in_drafts_spec. Qed.

(** ** [_prompt_indices] and [_list] *)

(** X11: the indices returned for a line that is not blank are the
    integers between 1 and the number of items that some token of the
    line stands for, a token being a number or a range. *)
Theorem X11_selection_members `{Host} (items : list (list N))
    (prompt line : list N) (rest : list (list N)) (w w' : world)
    (l : list Z) :
  items <> [] -> w_stdin w = line :: rest -> strip line <> [] ->
  _prompt_indices items prompt w = (Ret l, w') ->
  forall i : Z,
    In i l <->
    (1 <= i <= Z.of_nat (length items))%Z
    /\ exists part,
         In part (split_runs (fun c => (c =? Chr.comma) || isspace c)
                    (strip line))
         /\ token_covers part i.
Proof.
  intros Hitems Hin Hraw. rewrite (prompt_indices_unfold _ _ _ Hitems), Hin.
  cbv zeta. destruct (strip line) as [|c raw]; [done|].
  destruct (bool_decide _); [done|].
  match goal with |- context [add_parts ?ps ∅ ?w2] =>
    pose proof (add_parts_spec ps ∅ w2) as Hparts;
    destruct (add_parts ps ∅ w2) as [[X|e] w3] end; [|done].
  destruct Hparts as [_ HX].
  destruct (merge_sort _ _) as [|j l'] eqn:Hsort; [done|].
  intros [= <- _] i. rewrite <- Hsort.
  rewrite <- list_elem_of_In, merge_sort_Permutation, list_elem_of_In.
  rewrite filter_In, <- list_elem_of_In, elem_of_elements, HX.
  rewrite elem_of_empty. split.
  - intros [[[]|?] Hi]. split; [lia|done].
  - intros [Hi ?]. split; [by right|lia].
Qed.

Lemma X11_selection_members_witness :
  let items := [u "a"; u "b"; u "c"; u "d"; u "e"] in
  let w := World (Dir []) [u "5 2-3,2"] [] [] in
  In 3%Z [2; 3; 5]%Z
  <-> (1 <= 3 <= 5)%Z
      /\ exists part,
           In part (split_runs (fun c => (c =? Chr.comma) || isspace c)
                      (strip (u "5 2-3,2")))
           /\ token_covers part 3.
Proof.
  intros items w.
  apply (@X11_selection_members posix items (u "> ") (u "5 2-3,2") [] w
           (snd (@_prompt_indices posix items (u "> ") w)) [2; 3; 5]%Z);
    by vm_compute.
Defined.

(** X12: with items to show, the prompt prints the numbered list on
    standard output, writes the prompt text, reads one line, and
    touches nothing else, for a return and for a raise alike.  The
    prompt text goes where [input] writes it: to the error stream on a
    terminal without [readline], to standard output otherwise, after
    the list. *)
Theorem X12_prompt_reads_one_line `{Host} (items : list (list N))
    (prompt : list N) (w w' : world) (r : outcome (list Z)) :
  items <> [] ->
  _prompt_indices items prompt w = (r, w') ->
  w' = if prompt_on_stderr
       then World (w_fs w) (tail (w_stdin w))
              (w_stdout w ++ numbered items) (w_stderr w ++ [prompt])
       else World (w_fs w) (tail (w_stdin w))
              ((w_stdout w ++ numbered items) ++ [prompt]) (w_stderr w).
Proof.
  intros Hitems. rewrite (prompt_indices_unfold _ _ _ Hitems).
  cbv beta zeta.
  destruct (w_stdin w) as [|line rest]; [by intros [= _ <-]|].
  destruct (strip line) as [|c raw]; [by intros [= _ <-]|].
  destruct (bool_decide _); [by intros [= _ <-]|].
  destruct (add_parts _ _ _) as [[X|e] w3]; [|by intros [= _ <-]].
  destruct (merge_sort _ _); by intros [= _ <-].
Qed.

Lemma X12_prompt_reads_one_line_witness :
  let items := [u "a"; u "b"] in
  let w := World (Dir []) [u "2"; u "next"] [] [] in
  snd (@_prompt_indices posix_terminal items (u "> ") w)
  = World (Dir []) [u "next"]
      [u " 1. a" ++ [Chr.LF]; u " 2. b" ++ [Chr.LF]] [u "> "].
Proof.
  intros items w.
  apply (@X12_prompt_reads_one_line posix_terminal items (u "> ") w _
           (fst (@_prompt_indices posix_terminal items (u "> ") w)));
    [done|].
  by destruct (@_prompt_indices posix_terminal items (u "> ") w).
Defined.

(** With the input piped, the same run has the prompt text on standard
    output. *)
Remark prompt_piped :
  let items := [u "a"; u "b"] in
  let w := World (Dir []) [u "2"; u "next"] [] [] in
  snd (@_prompt_indices posix items (u "> ") w)
  = World (Dir []) [u "next"]
      [u " 1. a" ++ [Chr.LF]; u " 2. b" ++ [Chr.LF]; u "> "] [].
Proof. reflexivity. Qed.

(** X13: the prompt raises in three ways only: [EOFError] when there is
    no line to read, [SystemExit(0)] when the line is a quit word, and
    [ValueError] for a token that is no number or for a selection with
    no index in range. *)
Theorem X13_prompt_errors `{Host} (items : list (list N)) (prompt : list N)
    (w w' : world) (e : exn) :
  _prompt_indices items prompt w = (Raise e, w') ->
  (e = EOFError /\ w_stdin w = [])
  \/ (e = SystemExit 0
      /\ exists line rest,
           w_stdin w = line :: rest /\ In (str_lower (strip line)) quit_words)
  \/ (exists msg, e = ValueError msg).
Proof.
  destruct items as [|item items]; [done|].
  rewrite prompt_indices_unfold by done. cbv zeta.
  destruct (w_stdin w) as [|line rest]; [intros [= <- _]; by left|].
  destruct (strip line) as [|c raw] eqn:Hstrip; [done|].
  destruct (bool_decide _) eqn:Hquit.
  { intros [= <- _]. right. left. split; [done|]. exists line, rest.
    split; [done|]. apply bool_decide_eq_true in Hquit.
    rewrite Hstrip. by apply list_elem_of_In. }
  match goal with |- context [add_parts ?ps ∅ ?w2] =>
    pose proof (add_parts_spec ps ∅ w2) as Hparts;
    destruct (add_parts ps ∅ w2) as [[X|e'] w3] end.
  - destruct (merge_sort _ _); [|done]. intros [= <- _]. right. right. by eauto.
  - destruct Hparts as [_ [msg ->]]. intros [= <- _]. right. right. by eauto.
Qed.

Lemma X13_prompt_errors_witness :
  let w := World (Dir []) [u "10"] [] [] in
  @_prompt_indices posix [u "a"; u "b"; u "c"] (u "> ") w
  = (Raise (ValueError (u "No valid selections.")),
     snd (@_prompt_indices posix [u "a"; u "b"; u "c"] (u "> ") w))
  /\ ((ValueError (u "No valid selections.") = EOFError /\ w_stdin w = [])
      \/ (ValueError (u "No valid selections.") = SystemExit 0
          /\ exists line rest,
               w_stdin w = line :: rest
               /\ In (@str_lower posix (strip line)) (@quit_words))
      \/ exists msg, ValueError (u "No valid selections.") = ValueError msg).
Proof.
  intros w. split; [by vm_compute|].
  apply (@X13_prompt_errors posix [u "a"; u "b"; u "c"] (u "> ") w
           (snd (@_prompt_indices posix [u "a"; u "b"; u "c"] (u "> ") w))).
  by vm_compute.
Defined.

(** X14: with items to show and a line to read, the prompt returns the
    empty list exactly when the line is blank: a selection that parses
    never comes back empty. *)
Theorem X14_empty_selection_is_blank_line `{Host} (items : list (list N))
    (prompt line : list N) (rest : list (list N)) (w : world) :
  items <> [] -> w_stdin w = line :: rest ->
  fst (_prompt_indices items prompt w) = Ret [] <-> strip line = [].
Proof.
  intros Hitems Hin. rewrite (prompt_indices_unfold _ _ _ Hitems), Hin.
  cbv zeta. destruct (strip line) as [|c raw]; [done|].
  split; [|done]. destruct (bool_decide _); [done|].
  destruct (add_parts _ _ _) as [[X|e] w3]; [|done].
  by destruct (merge_sort _ _).
Qed.

Lemma X14_empty_selection_is_blank_line_witness :
  let w := World (Dir []) [u "  "] [] [] in
  fst (@_prompt_indices posix [u "a"] (u "> ") w) = Ret []
  <-> strip (u "  ") = [].
Proof.
  intros w.
  by apply (@X14_empty_selection_is_blank_line posix [u "a"] (u "> ")
              (u "  ") [] w).
Defined.

(** X15: the list mode cannot fail: it returns 0, leaves the file
    system, the input and the error stream as they are, and prints the
    two headers, each followed by one line per article of the store, or
    by [(none)]. *)
Theorem X15_list_mode `{Host} (force : bool) (w : world) :
  main (mkArgs true force) w
  = (Ret 0%Z,
     World (w_fs w) (w_stdin w)
       (w_stdout w
        ++ [u "Published (docs/):" ++ [Chr.LF]]
        ++ article_lines (_articles_in_docs (w_fs w))
        ++ [(Chr.LF :: u "Drafts (drafts/):") ++ [Chr.LF]]
        ++ article_lines (_articles_in_drafts (w_fs w)))
       (w_stderr w)).
Proof.
  assert (forall l w0,
            print_articles l w0
            = (Ret tt, World (w_fs w0) (w_stdin w0)
                         (w_stdout w0 ++ article_lines l) (w_stderr w0)))
    as Hprint.
  { intros l w0. unfold print_articles, article_lines.
    destruct l as [|a l]; [done|].
    by apply (for_each_prints _ (fun a => u "  - " ++ as_posix (relpath a))). }
  unfold main. simpl. unfold _list, bind, print, modify, lift_fs, gets.
  simpl. rewrite !Hprint. simpl. by rewrite <- !app_assoc.
Qed.

(** ** [_render_nav_yaml] and [_update_mkdocs_nav] *)

(** X16: the lines of the manifest are the three fixed lines, the header
    of each section that holds an article, and one entry line per
    scanned file of a section, made of its title and its path from
    [docs/]; an article outside the three sections has no line. *)
Theorem X16_manifest_lines `{Host} (t t' : fs) (lines : list (list N)) :
  _render_nav_lines t = (Ret lines, t') ->
  forall line,
    In line lines <->
    In line [u "nav:"; u "  - Home: index.md"; u "  - About: about.md"]
    \/ exists header sub,
         In (header, sub) sections
         /\ ((line = header /\ contains_article t (DOCS_DIR ++ [sub]))
             \/ exists md title,
                  In md (_iter_md_files t (DOCS_DIR ++ [sub]))
                  /\ _read_title md t = (Ret title, t)
                  /\ line = u "      - " ++ title ++ u ": "
                            ++ as_posix (relative_to DOCS_DIR md)).
Proof.
  intros (a & c & d & Ha & Hc & Hd & ->)%render_nav_lines_inv line.
  assert (forall header sub items,
    In (header, sub) sections ->
    section_items (DOCS_DIR ++ [sub]) t = (Ret items, t) ->
    In line (section_lines header items) <->
    (line = header /\ contains_article t (DOCS_DIR ++ [sub]))
    \/ exists md title,
         In md (_iter_md_files t (DOCS_DIR ++ [sub]))
         /\ _read_title md t = (Ret title, t)
         /\ line = u "      - " ++ title ++ u ": "
                   ++ as_posix (relative_to DOCS_DIR md)) as Hsection.
  { intros header sub items _ Hitems. rewrite in_section_lines_iff.
    rewrite (section_items_nil _ _ _ _ Hitems). split.
    - intros [Hart [->|(title & rel & Hin & ->)]]; [by left|right].
      apply (section_items_entries _ _ _ _ Hitems) in Hin
        as (md & Hmd & Htitle & ->). by eauto.
    - intros [[-> Hart]|(md & title & Hmd & Htitle & ->)]; [by eauto|].
      split.
      + apply iter_md_files_nonempty. intros Hnil. by rewrite Hnil in Hmd.
      + right. do 2 eexists. split; [|done].
        apply (section_items_entries _ _ _ _ Hitems). by eauto. }
  rewrite !in_app_iff.
  rewrite (Hsection LLM_HEADER (u "llm") a) by (simpl; by eauto).
  rewrite (Hsection AGENT_HEADER (u "agents") c) by (simpl; by eauto).
  rewrite (Hsection SCIENCE_HEADER (u "ai_for_science") d) by (simpl; by eauto).
  simpl. split.
  - intros [[?|[?|[]]]|[?|[?|[?|[?|[]]]]]]; eauto 10.
  - intros [[?|[?|[?|[]]]]|(header & sub & Hsec & Hline)]; eauto 10.
    destruct Hsec as [[= <- <-]|[[= <- <-]|[[= <- <-]|[]]]]; eauto 10.
Qed.

Lemma X16_manifest_lines_witness :
  let lines :=
    [u "nav:"; u "  - Home: index.md"; u "  - LLM Notes:";
     u "      - Hello World: llm/a.md"; u "  - About: about.md"] in
  @_render_nav_lines posix small_site = (Ret lines, small_site)
  /\ (In (u "      - Hello World: llm/a.md") lines <->
      In (u "      - Hello World: llm/a.md")
        [u "nav:"; u "  - Home: index.md"; u "  - About: about.md"]
      \/ exists header sub,
           In (header, sub) sections
           /\ ((u "      - Hello World: llm/a.md" = header
                /\ @contains_article posix small_site
                     (@DOCS_DIR posix ++ [sub]))
               \/ exists md title,
                    In md (@_iter_md_files posix small_site
                             (@DOCS_DIR posix ++ [sub]))
                    /\ @_read_title posix md small_site
                       = (Ret title, small_site)
                    /\ u "      - Hello World: llm/a.md"
                       = u "      - " ++ title ++ u ": "
                         ++ as_posix (relative_to (@DOCS_DIR posix) md))).
Proof.
  intros lines. split; [reflexivity|].
  apply (@X16_manifest_lines posix small_site small_site lines).
  reflexivity.
Defined.

(** X17: rendering only reads the file system; it raises nothing but
    [UnicodeDecodeError]; and the text it returns starts with the
    [nav:] line and the home entry and ends with the about entry. *)
Theorem X17_render_reads_and_frames `{Host} (t t' : fs)
    (r : outcome (list N)) :
  _render_nav_yaml t = (r, t') ->
  t' = t
  /\ (forall e, r = Raise e -> e = UnicodeDecodeError)
  /\ (forall text, r = Ret text ->
        exists middle,
          text = (u "nav:" ++ [Chr.LF]) ++ (u "  - Home: index.md" ++ [Chr.LF])
                 ++ middle ++ u "  - About: about.md" ++ [Chr.LF]).
Proof.
  intros Hrun. split; [|split].
  - symmetry. by apply (keeps_render_nav_yaml _ _ _ Hrun).
  - intros e ->. by apply (raises_render_nav_yaml _ _ _ Hrun).
  - intros text ->. unfold _render_nav_yaml in Hrun.
    apply bind_ret_inv in Hrun as (lines & t1 & Hlines & [= <- _]).
    apply render_nav_lines_inv in Hlines as (a & c & d & _ & _ & _ & ->).
    set (mid := section_lines LLM_HEADER a ++ section_lines AGENT_HEADER c
                ++ section_lines SCIENCE_HEADER d).
    replace ([u "nav:"; u "  - Home: index.md"] ++ _)
      with ((u "nav:" :: u "  - Home: index.md" :: mid)
            ++ [u "  - About: about.md"]).
    2:{ unfold mid. simpl. by rewrite <- !app_assoc. }
    rewrite join_snoc by done.
    destruct mid as [|m mid'].
    + exists []. reflexivity.
    + exists (join [Chr.LF] (m :: mid') ++ [Chr.LF]).
      change (join [Chr.LF] (u "nav:" :: u "  - Home: index.md" :: m :: mid'))
        with (u "nav:" ++ [Chr.LF] ++ u "  - Home: index.md" ++ [Chr.LF]
              ++ join [Chr.LF] (m :: mid')).
      rewrite <- !app_assoc. reflexivity.
Qed.

Lemma X17_render_reads_and_frames_witness :
  snd (@_render_nav_yaml posix small_site) = small_site
  /\ (forall e, fst (@_render_nav_yaml posix small_site) = Raise e ->
                e = UnicodeDecodeError).
Proof.
  destruct (@X17_render_reads_and_frames posix small_site
              (snd (@_render_nav_yaml posix small_site))
              (fst (@_render_nav_yaml posix small_site)))
    as (Hfs & Herr & _).
  - by destruct (@_render_nav_yaml posix small_site).
  - split; [exact Hfs|exact Herr].
Defined.

(** X18: whatever its outcome, the update of the navigation leaves
    untouched every path apart from [mkdocs.yml]: no article of either
    store is changed by it. *)
Theorem X18_update_touches_config_only `{Host} (q : list (list N))
    (t t' : fs) (r : outcome unit) :
  apart MKDOCS_YML q ->
  _update_mkdocs_nav t = (r, t') ->
  lookup q t' = lookup q t.
Proof.
  intros Hq Hrun. by apply (keeps_update_mkdocs_nav q Hq _ _ _ Hrun).
Qed.

Lemma X18_update_touches_config_only_witness :
  apart (@MKDOCS_YML posix) (@DOCS_DIR posix)
  /\ lookup (@DOCS_DIR posix) (snd (@_update_mkdocs_nav posix small_site))
     = lookup (@DOCS_DIR posix) small_site.
Proof.
  assert (apart (@MKDOCS_YML posix) (@DOCS_DIR posix)) as Ha.
  { apply apart_sym. rewrite <- (app_nil_r (@DOCS_DIR posix)).
    apply (@docs_apart_yml posix). }
  split; [exact Ha|].
  apply (@X18_update_touches_config_only posix _ small_site _
           (fst (@_update_mkdocs_nav posix small_site)) Ha).
  by destruct (@_update_mkdocs_nav posix small_site).
Defined.

(** X19: after an update that returns, [mkdocs.yml], which held UTF-8
    text, holds the encoding of the splice of that text with the block
    rendered from the file system as it was before the write, line
    feeds written as the host's line separator. *)
Theorem X19_update_writes_splice `{Host} (t t' : fs) :
  _update_mkdocs_nav t = (Ret tt, t') ->
  exists data s nav_yaml bs,
    lookup MKDOCS_YML t = Some (File data)
    /\ decode_utf8 data = Some s
    /\ _render_nav_yaml t = (Ret nav_yaml, t)
    /\ encode_utf8
         (write_newlines os_linesep (spliced (universal_newlines s) nav_yaml))
       = Some bs
    /\ lookup MKDOCS_YML t' = Some (File bs).
Proof.
  intros Hrun.
  destruct (update_mkdocs_nav_success t t' Hrun)
    as (data & s & nav_yaml & bs & Hfile & Hdec & Hrender & Henc & Hnew).
  exists data, s, nav_yaml, bs. by split_and!.
Qed.

Lemma X19_update_writes_splice_witness :
  exists t',
    @_update_mkdocs_nav posix small_site = (Ret tt, t')
    /\ exists data s nav_yaml bs,
         lookup (@MKDOCS_YML posix) small_site = Some (File data)
         /\ decode_utf8 data = Some s
         /\ @_render_nav_yaml posix small_site = (Ret nav_yaml, small_site)
         /\ encode_utf8
              (write_newlines (@os_linesep posix)
                 (spliced (universal_newlines s) nav_yaml))
            = Some bs
         /\ lookup (@MKDOCS_YML posix) t' = Some (File bs).
Proof.
  exists (snd (@_update_mkdocs_nav posix small_site)).
  assert (@_update_mkdocs_nav posix small_site
          = (Ret tt, snd (@_update_mkdocs_nav posix small_site))) as Hrun
    by (vm_compute; reflexivity).
  split; [exact Hrun|].
  exact (@X19_update_writes_splice posix small_site _ Hrun).
Defined.

(** X20: an update that raises has changed nothing, with one exception:
    when the new text cannot be encoded, the call raises
    [UnicodeEncodeError] after [mkdocs.yml] was opened for writing, and
    the document is left empty. *)
Theorem X20_failed_update `{Host} (t t' : fs) (e : exn) :
  _update_mkdocs_nav t = (Raise e, t') ->
  t' = t
  \/ (e = UnicodeEncodeError /\ lookup MKDOCS_YML t' = Some (File [])).
Proof.
  intros Hrun.
  destruct (update_mkdocs_nav_failure t t' e Hrun) as [->|[-> Hempty]].
  - by left.
  - right. by split.
Qed.

Lemma X20_failed_update_witness :
  exists t',
    @_update_mkdocs_nav posix surrogate_site = (Raise UnicodeEncodeError, t')
    /\ (t' = surrogate_site
        \/ (UnicodeEncodeError = UnicodeEncodeError
            /\ lookup (@MKDOCS_YML posix) t' = Some (File []))).
Proof.
  exists (snd (@_update_mkdocs_nav posix surrogate_site)).
  assert (@_update_mkdocs_nav posix surrogate_site
          = (Raise UnicodeEncodeError,
             snd (@_update_mkdocs_nav posix surrogate_site))) as Hrun
    by (vm_compute; reflexivity).
  split; [exact Hrun|].
  exact (@X20_failed_update posix surrogate_site _ _ Hrun).
Defined.

(** The surrogate site loses its configuration document. *)
Remark surrogate_site_loses_config :
  lookup (@MKDOCS_YML posix) (snd (@_update_mkdocs_nav posix surrogate_site))
  = Some (File []).
Proof. vm_compute. reflexivity. Qed.

(** X21: splicing is idempotent for a block that starts with a marker
    line, as the rendered block does: splicing the block into the
    result of a splice gives that result again. *)
Theorem X21_splice_idempotent (text nav_yaml : list N) :
  nav_match_here nav_yaml = true ->
  spliced (spliced text nav_yaml) nav_yaml = spliced text nav_yaml.
Proof.
  intros Hnav. rewrite spliced_idempotent; [reflexivity|exact Hnav].
Qed.

Lemma X21_splice_idempotent_witness :
  let text := u "site_name: Notes" ++ [Chr.LF] ++ u "theme: readthedocs" in
  let nav_yaml := u "nav:" ++ [Chr.LF] ++ u "  - Home: index.md" ++ [Chr.LF] in
  nav_match_here nav_yaml = true
  /\ spliced (spliced text nav_yaml) nav_yaml = spliced text nav_yaml.
Proof.
  intros text nav_yaml.
  assert (nav_match_here nav_yaml = true) as Hnav by reflexivity.
  split; [exact Hnav|].
  exact (X21_splice_idempotent text nav_yaml Hnav).
Defined.

(** X29: the items of a section come in the order of the scan, one per
    scanned file: their paths are the paths of the scanned files, from
    [docs/] and in POSIX form. *)
Theorem X29_section_in_scan_order `{Host} (dir : list (list N)) (t t' : fs)
    (items : list (list N * list N)) :
  section_items dir t = (Ret items, t') ->
  map snd items
  = map (fun md => as_posix (relative_to DOCS_DIR md)) (_iter_md_files t dir).
Proof.
  intros Hitems. by rewrite (section_items_paths dir t t' items Hitems).
Qed.

Lemma X29_section_in_scan_order_witness :
  let dir := site_docs ++ [u "llm"] in
  let items := [(u "Hello World", u "llm/a.md")] in
  @section_items posix dir small_site = (Ret items, small_site)
  /\ map snd items
     = map (fun md => as_posix (relative_to (@DOCS_DIR posix) md))
         (@_iter_md_files posix small_site dir).
Proof.
  intros dir items.
  assert (@section_items posix dir small_site = (Ret items, small_site))
    as Hitems by reflexivity.
  split; [exact Hitems|].
  exact (@X29_section_in_scan_order posix dir small_site small_site items
           Hitems).
Defined.

(** ** An interactive run *)

(** X22: an interactive run returns 0 or 2 and nothing else; the
    exceptions it lets through are errors of the operating system,
    [EOFError], [SystemExit(0)], [UnicodeDecodeError] and
    [UnicodeEncodeError]: no [ValueError] of the selection and no
    [IndexError] of the list of articles leaves it. *)
Theorem X22_interactive_outcomes `{Host} (force : bool) (w w' : world)
    (r : outcome Z) :
  _interactive force w = (r, w') ->
  match r with
  | Ret code => code = 0%Z \/ code = 2%Z
  | Raise e => run_error e
  end.
Proof.
  destruct r as [code|e]; intros Hrun.
  - by apply (returns_interactive _ _ _ _ Hrun).
  - by apply (raises_interactive _ _ _ _ Hrun).
Qed.

Lemma X22_interactive_outcomes_witness :
  exists w',
    @_interactive posix false (World small_site [u "9"] [] [])
    = (Ret 2%Z, w')
    /\ (2 = 0 \/ 2 = 2)%Z.
Proof.
  exists (snd (@_interactive posix false (World small_site [u "9"] [] []))).
  assert (@_interactive posix false (World small_site [u "9"] [] [])
          = (Ret 2%Z,
             snd (@_interactive posix false
                    (World small_site [u "9"] [] [])))) as Hrun
    by (vm_compute; reflexivity).
  split; [exact Hrun|].
  exact (@X22_interactive_outcomes posix _ _ _ _ Hrun).
Defined.

(** X23: an interactive run that ends with the code 2, with [EOFError]
    or with [SystemExit(0)] has moved nothing and has not touched the
    configuration document: the file system is the one that
    [DRAFTS_DIR.mkdir(exist_ok=True)] left. *)
Theorem X23_stopped_run_moves_nothing `{Host} (force : bool) (w w' : world)
    (r : outcome Z) :
  _interactive force w = (r, w') ->
  r = Ret 2%Z \/ r = Raise EOFError \/ r = Raise (SystemExit 0) ->
  Path_mkdir_exist_ok DRAFTS_DIR (w_fs w) = (Ret tt, w_fs w').
Proof.
  intros Hrun Hr. exact (interactive_stopped force w w' r Hrun Hr).
Qed.

Lemma X23_stopped_run_moves_nothing_witness :
  exists w',
    @_interactive posix false (World small_site [u "1"] [] [])
    = (Raise EOFError, w')
    /\ Path_mkdir_exist_ok (@DRAFTS_DIR posix) small_site
       = (Ret tt, w_fs w').
Proof.
  exists (snd (@_interactive posix false (World small_site [u "1"] [] []))).
  assert (@_interactive posix false (World small_site [u "1"] [] [])
          = (Raise EOFError,
             snd (@_interactive posix false
                    (World small_site [u "1"] [] [])))) as Hrun
    by (vm_compute; reflexivity).
  split; [exact Hrun|].
  apply (@X23_stopped_run_moves_nothing posix false
           (World small_site [u "1"] [] []) _ _ Hrun).
  right. left. reflexivity.
Defined.

(** X24: when [drafts] is a regular file, an interactive run raises
    [FileExistsError] at once: nothing is printed, nothing is read and
    nothing is changed. *)
Theorem X24_drafts_is_a_file `{Host} (force : bool) (w : world)
    (d : list byte) :
  lookup DRAFTS_DIR (w_fs w) = Some (File d) ->
  _interactive force w = (Raise FileExistsError, w).
Proof.
  intros Hdrafts. unfold _interactive, choose_and_pick.
  unfold bind at 1. unfold bind at 1. unfold lift_fs.
  rewrite (mkdir_exist_ok_file _ _ _ Hdrafts). by destruct w.
Qed.

Lemma X24_drafts_is_a_file_witness :
  let w := World drafts_file_site [u "2"; u "1"] [] [] in
  lookup (@DRAFTS_DIR posix) (w_fs w) = Some (File (b "notes"))
  /\ @_interactive posix true w = (Raise FileExistsError, w).
Proof.
  intros w.
  assert (lookup (@DRAFTS_DIR posix) (w_fs w) = Some (File (b "notes")))
    as Hdrafts by reflexivity.
  split; [exact Hdrafts|].
  exact (@X24_drafts_is_a_file posix true w _ Hdrafts).
Defined.

(** X25: a move of a regular file that returns has put the bytes of the
    source at the destination and has removed the source, with or
    without [force] and whatever was at the destination before. *)
Theorem X25_move_postcondition (src_root dst_root relpath : list (list N))
    (force : bool) (t t' : fs) (data : list byte) :
  lookup (src_root ++ relpath) t = Some (File data) ->
  _move_article src_root dst_root relpath force t = (Ret tt, t') ->
  lookup (dst_root ++ relpath) t' = Some (File data)
  /\ lookup (src_root ++ relpath) t' = None.
Proof.
  intros Hsrc Hrun.
  destruct (move_article_moves _ _ _ _ _ _ _ Hsrc Hrun) as [Hdst Hgone].
  by split.
Qed.

Lemma X25_move_postcondition_witness :
  let rel := [u "b.md"] in
  exists t',
    lookup (site_drafts ++ rel) two_drafts_site
    = Some (File (b "# Draft B"))
    /\ _move_article site_drafts site_docs rel true two_drafts_site
       = (Ret tt, t')
    /\ lookup (site_docs ++ rel) t' = Some (File (b "# Draft B"))
    /\ lookup (site_drafts ++ rel) t' = None.
Proof.
  intros rel.
  exists (snd (_move_article site_drafts site_docs rel true two_drafts_site)).
  assert (lookup (site_drafts ++ rel) two_drafts_site
          = Some (File (b "# Draft B"))) as Hsrc by reflexivity.
  assert (_move_article site_drafts site_docs rel true two_drafts_site
          = (Ret tt,
             snd (_move_article site_drafts site_docs rel true
                    two_drafts_site))) as Hrun
    by (vm_compute; reflexivity).
  split; [exact Hsrc|]. split; [exact Hrun|].
  exact (X25_move_postcondition _ _ _ _ _ _ _ Hsrc Hrun).
Defined.

(** X26: a file found by the scan of one store and moved to the other
    store, the move returning, is found by the scan of the destination
    store and no more by the scan of the source store. *)
Theorem X26_moved_file_changes_scan `{Host}
    (src_root dst_root relpath : list (list N)) (force : bool) (t t' : fs) :
  In (src_root ++ relpath) (_iter_md_files t src_root) ->
  _move_article src_root dst_root relpath force t = (Ret tt, t') ->
  In (dst_root ++ relpath) (_iter_md_files t' dst_root)
  /\ ~ In (src_root ++ relpath) (_iter_md_files t' src_root).
Proof.
  intros Hin Hrun.
  destruct (moved_file_changes_scan _ _ _ _ _ _ Hin Hrun) as [Hdst Hsrc].
  by split.
Qed.

Lemma X26_moved_file_changes_scan_witness :
  let rel := [u "llm"; u "a.md"] in
  exists t',
    In (site_docs ++ rel) (@_iter_md_files posix small_site site_docs)
    /\ _move_article site_docs site_drafts rel false small_site = (Ret tt, t')
    /\ In (site_drafts ++ rel) (@_iter_md_files posix t' site_drafts)
    /\ ~ In (site_docs ++ rel) (@_iter_md_files posix t' site_docs).
Proof.
  intros rel.
  exists (snd (_move_article site_docs site_drafts rel false small_site)).
  assert (In (site_docs ++ rel) (@_iter_md_files posix small_site site_docs))
    as Hin by (vm_compute; tauto).
  assert (_move_article site_docs site_drafts rel false small_site
          = (Ret tt,
             snd (_move_article site_docs site_drafts rel false small_site)))
    as Hrun by (vm_compute; reflexivity).
  split; [exact Hin|]. split; [exact Hrun|].
  exact (@X26_moved_file_changes_scan posix _ _ _ _ _ _ Hin Hrun).
Defined.


(** X28: on a host that matches names with case, every article of
    either list is a regular file at its [abspath], and [is_markdown]
    holds of it unless its name is [.md] alone. *)
Theorem X28_listed_articles `{Host} (t : fs) (a : Article) :
  case_sensitive = true -> str_lower (u ".md") = u ".md" ->
  In a (_articles_in_docs t) \/ In a (_articles_in_drafts t) ->
  is_file t (abspath a) = true
  /\ (is_markdown a = true \/ name (relpath a) = u ".md").
Proof.
  intros Hcase Hlower Hin.
  destruct (listed_is_file t a Hin) as [Hfile Hname].
  split; [exact Hfile|].
  unfold fnmatch_md in Hname. rewrite Hcase in Hname.
  destruct (decide (name (relpath a) = u ".md")) as [|Hne]; [by right|left].
  unfold is_markdown. apply bool_decide_eq_true.
  by rewrite (suffix_md _ Hname Hne).
Qed.

Lemma X28_listed_articles_witness :
  let a := mkArticle site_docs [u "llm"; u "a.md"] in
  (In a (@_articles_in_docs posix small_site)
   \/ In a (@_articles_in_drafts posix small_site))
  /\ is_file small_site (abspath a) = true
  /\ (@is_markdown posix a = true \/ name (relpath a) = u ".md").
Proof.
  intros a.
  assert (In a (@_articles_in_docs posix small_site)
          \/ In a (@_articles_in_drafts posix small_site)) as Hin
    by (left; vm_compute; tauto).
  split; [exact Hin|].
  exact (@X28_listed_articles posix small_site a eq_refl eq_refl Hin).
Defined.
